(** * Advanced-Subtitle-Retimer: stream selection, subtitle cleaning, style filter

    A shallow embedding of [lib/subtitle_extraction.py] and
    [lib/subtitle_cleaning.py], and of [lib/utility.py],
    [lib/subtitle_sync.py] and [main.py], followed by the properties of
    the specification that concern them and by further properties of the
    code.

    Conventions.
    - A Python [str] is a list of Unicode code points ([pystr]); the
      regular expressions of the program work on code points.
    - Code that prints, reads [input()], touches files or raises runs in the
      monad [M]: a function of the [world] that returns a [result] and the
      new world.
    - The iteration order of a Python [set] is not fixed by the language;
      it is a parameter ([SetOrder]) of the functions that iterate one.
    - The external tools (the probe, the extraction tool and the
      synchronisation tool), [os.getcwd], [glob.glob] and [str.lower] are
      parameters of the functions that call them. *)

From Stdlib Require Import ZArith NArith List Ascii String Lia Bool.
From Stdlib Require Import DecimalString.
From stdpp Require Import base option list gmap sorting.

Local Open Scope Z_scope.
Local Open Scope list_scope.

(** ** Python strings *)

Module PyStr.

Abbreviation pystr := (list N).

(** The code points of an ASCII literal of the source. *)
Definition lit (s : string) : pystr :=
  map N_of_ascii (list_ascii_of_string s).

Definition NL : N := 10%N.
Definition SP : N := 32%N.

(** [str.isspace] on one character, which is also what [\s] matches in a
    [str] pattern (Unicode 14, CPython 3.11). *)
Definition isspace (c : N) : bool :=
  ((9 <=? c) && (c <=? 13) || (28 <=? c) && (c <=? 32)
   || (c =? 0x85) || (c =? 0xA0) || (c =? 0x1680)
   || (0x2000 <=? c) && (c <=? 0x200A)
   || (c =? 0x2028) || (c =? 0x2029) || (c =? 0x202F) || (c =? 0x205F)
   || (c =? 0x3000))%N.

(** First code point of every run of ten Unicode decimal digits (category
    Nd); the digit of value [d] is the zero plus [d]. *)
Definition decimal_zeros : list N :=
  [0x30; 0x660; 0x6F0; 0x7C0; 0x966; 0x9E6; 0xA66; 0xAE6; 0xB66; 0xBE6;
   0xC66; 0xCE6; 0xD66; 0xDE6; 0xE50; 0xED0; 0xF20; 0x1040; 0x1090; 0x17E0;
   0x1810; 0x1946; 0x19D0; 0x1A80; 0x1A90; 0x1B50; 0x1BB0; 0x1C40; 0x1C50;
   0xA620; 0xA8D0; 0xA900; 0xA9D0; 0xA9F0; 0xAA50; 0xABF0; 0xFF10; 0x104A0;
   0x10D30; 0x11066; 0x110F0; 0x11136; 0x111D0; 0x112F0; 0x11450; 0x114D0;
   0x11650; 0x116C0; 0x11730; 0x118E0; 0x11950; 0x11C50; 0x11D50; 0x11DA0;
   0x16A60; 0x16AC0; 0x16B50; 0x1D7CE; 0x1D7D8; 0x1D7E2; 0x1D7EC; 0x1D7F6;
   0x1E140; 0x1E2F0; 0x1E950; 0x1FBF0]%N.

Definition decimal_value (c : N) : option N :=
  match List.find (fun z => (z <=? c) && (c <? z + 10))%N decimal_zeros with
  | Some z => Some (c - z)%N
  | None => None
  end.

(** [old] is a prefix of [s]. *)
Fixpoint startswith (old s : pystr) : bool :=
  match old, s with
  | [], _ => true
  | a :: old', b :: s' => (a =? b)%N && startswith old' s'
  | _ :: _, [] => false
  end.

(** [sub in s] for strings. *)
Fixpoint contains (sub s : pystr) : bool :=
  startswith sub s ||
  match s with
  | [] => false
  | _ :: s' => contains sub s'
  end.

(** [s.replace(old, new)] for a non-empty [old]: occurrences are replaced
    from left to right and do not overlap. [skip] counts the characters of
    a replaced occurrence that are still to be passed over. *)
Fixpoint replace_go (old new : pystr) (skip : nat) (s : pystr) : pystr :=
  match s with
  | [] => []
  | c :: s' =>
      match skip with
      | S k => replace_go old new k s'
      | O =>
          if startswith old s
          then new ++ replace_go old new (length old - 1) s'
          else c :: replace_go old new 0 s'
      end
  end.

Definition replace (old new s : pystr) : pystr := replace_go old new 0 s.

Fixpoint dropWhile (p : N -> bool) (s : pystr) : pystr :=
  match s with
  | [] => []
  | c :: s' => if p c then dropWhile p s' else s
  end.

Definition lstrip (s : pystr) : pystr := dropWhile isspace s.
Definition rstrip (s : pystr) : pystr := rev (dropWhile isspace (rev s)).
(** [s.strip()] *)
Definition strip (s : pystr) : pystr := rstrip (lstrip s).

(** [s.split()]: the maximal runs of non-whitespace characters. [cur] is
    the run being read, reversed. *)
Fixpoint split_go (cur : pystr) (s : pystr) : list pystr :=
  match s with
  | [] => match cur with [] => [] | _ => [rev cur] end
  | c :: s' =>
      if isspace c
      then match cur with
           | [] => split_go [] s'
           | _ => rev cur :: split_go [] s'
           end
      else split_go (c :: cur) s'
  end.

Definition split (s : pystr) : list pystr := split_go [] s.

(** [sep.join(parts)] *)
Fixpoint join (sep : pystr) (parts : list pystr) : pystr :=
  match parts with
  | [] => []
  | [p] => p
  | p :: rest => p ++ sep ++ join sep rest
  end.

(** [s.lower() == 'n']: only [n] and [N] lower-case to [n]. *)
Definition lower_is_n (s : pystr) : bool :=
  match s with
  | [c] => (c =? 110)%N || (c =? 78)%N
  | _ => false
  end.

(** [str(i)] for an [int]. *)
Definition str_of_Z (i : Z) : pystr :=
  lit (NilZero.string_of_int (Z.to_int i)).

(** *** [int(s)]

    CPython first maps every non-ASCII whitespace character to a space and
    every non-ASCII decimal digit to its ASCII digit, then reads: ASCII
    blanks, an optional sign, digits with single underscores between
    them, ASCII blanks, end of text. *)

Definition ascii_blank (c : N) : bool :=
  ((9 <=? c) && (c <=? 13) || (c =? 32))%N.

Definition to_ascii_decimal (c : N) : N :=
  if (c <? 127)%N then c
  else if isspace c then SP
  else match decimal_value c with
       | Some d => (48 + d)%N
       | None => 63%N
       end.

Definition ascii_digit (c : N) : option Z :=
  if ((48 <=? c) && (c <=? 57))%N then Some (Z.of_N c - 48) else None.

(** The digits after the first one; [acc] is the value read so far. *)
Fixpoint digits_go (acc : Z) (s : pystr) : option Z :=
  match s with
  | [] => Some acc
  | c :: s' =>
      match ascii_digit c with
      | Some d => digits_go (10 * acc + d) s'
      | None =>
          if (c =? 95)%N
          then match s' with
               | c' :: s'' =>
                   match ascii_digit c' with
                   | Some d => digits_go (10 * acc + d) s''
                   | None => None
                   end
               | [] => None
               end
          else None
      end
  end.

Definition digits (s : pystr) : option Z :=
  match s with
  | c :: s' =>
      match ascii_digit c with
      | Some d => digits_go d s'
      | None => None
      end
  | [] => None
  end.

Definition py_int (s : pystr) : option Z :=
  let t := rev (dropWhile ascii_blank
             (rev (dropWhile ascii_blank (map to_ascii_decimal s)))) in
  match t with
  | 43%N :: t' => digits t'
  | 45%N :: t' => Z.opp <$> digits t'
  | _ => digits t
  end.

End PyStr.
Export PyStr.

(** ** Regular expressions

    [re.sub], [re.search] and [re.findall] scan the text from left to
    right; at every position the pattern either matches a stretch of the
    text that starts there or does not. A pattern is embedded as the
    function that gives the length of that stretch ([matcher]); the
    patterns of the program never match the empty string. *)

Module Re.

Definition matcher := bool -> pystr -> option nat.

(** [re.sub(pattern, repl, text)]: [start] tells whether the position is
    the beginning of the text, [skip] how many characters of the last
    match are still to be passed over. *)
Fixpoint sub_go (m : matcher) (repl : pystr) (start : bool) (skip : nat)
    (s : pystr) : pystr :=
  match s with
  | [] => []
  | c :: s' =>
      match skip with
      | S k => sub_go m repl false k s'
      | O =>
          match m start s with
          | Some (S k) => repl ++ sub_go m repl false k s'
          | _ => c :: sub_go m repl false 0 s'
          end
      end
  end.

Definition sub (m : matcher) (repl s : pystr) : pystr :=
  sub_go m repl true 0 s.

(** [re.search(pattern, text)] as a truth value. *)
Fixpoint search_go (m : matcher) (start : bool) (s : pystr) : bool :=
  match s with
  | [] => false
  | _ :: s' =>
      match m start s with
      | Some (S _) => true
      | _ => search_go m false s'
      end
  end.

Definition search (m : matcher) (s : pystr) : bool := search_go m true s.

(** [re.findall(pattern, text)] for a pattern without groups. *)
Fixpoint findall_go (m : matcher) (start : bool) (skip : nat) (s : pystr)
    : list pystr :=
  match s with
  | [] => []
  | _ :: s' =>
      match skip with
      | S k => findall_go m false k s'
      | O =>
          match m start s with
          | Some (S k) => take (S k) s :: findall_go m false k s'
          | _ => findall_go m false 0 s'
          end
      end
  end.

Definition findall (m : matcher) (s : pystr) : list pystr :=
  findall_go m true 0 s.

(** A literal text, as [re.escape] makes of it. *)
Definition literal (p : pystr) : matcher :=
  fun _ s => if startswith p s then Some (length p) else None.

(** [p1|p2|...]: the first alternative that matches. *)
Fixpoint alternation (ms : list matcher) : matcher :=
  fun start s =>
    match ms with
    | [] => None
    | m :: ms' =>
        match m start s with
        | Some n => Some n
        | None => alternation ms' start s
        end
    end.

(** [\s+] *)
Fixpoint ws_run (s : pystr) : nat :=
  match s with
  | c :: s' => if isspace c then S (ws_run s') else O
  | [] => O
  end.

Definition WHITESPACE : matcher :=
  fun _ s => match ws_run s with O => None | n => Some n end.

(** The tail of a lazy [.+?] followed by [close]: the characters up to
    and including the first [close], none of them a newline ([.] does not
    match a newline). *)
Fixpoint lazy_dots (close : N) (s : pystr) : option nat :=
  match s with
  | [] => None
  | c :: s' =>
      if (c =? close)%N then Some 1%nat
      else if (c =? NL)%N then None
      else S <$> lazy_dots close s'
  end.

(** The tail of a greedy [.+] followed by [close]: the characters up to
    and including the last [close] of the line. *)
Fixpoint greedy_dots (close : N) (s : pystr) : option nat :=
  match s with
  | [] => None
  | c :: s' =>
      if (c =? NL)%N then None
      else match greedy_dots close s' with
           | Some n => Some (S n)
           | None => if (c =? close)%N then Some 1%nat else None
           end
  end.

(** The characters of [[cls]*] followed by [close], for a class that does
    not contain [close]. *)
Fixpoint class_run (cls : N -> bool) (close : N) (s : pystr) : option nat :=
  match s with
  | [] => None
  | c :: s' =>
      if (c =? close)%N then Some 1%nat
      else if cls c then S <$> class_run cls close s'
      else None
  end.

End Re.

(** ** The subtitle documents of pysubs2

    pysubs2 is a third-party library; what the program uses of it is
    modelled here after the library's documented behaviour. A document
    ([SSAFile]) is the list of its events, in playback order. *)

Module Pysubs2.

Record SSAEvent := mkEvent {
  start : Z;            (* milliseconds *)
  end_ : Z;
  text : pystr;
  style : pystr;
  is_comment : bool;    (* the event type is Comment, not Dialogue *)
}.

Abbreviation SSAFile := (list SSAEvent).

(** [line.text = t] *)
Definition set_text (t : pystr) (line : SSAEvent) : SSAEvent :=
  {| start := start line; end_ := end_ line; text := t;
     style := style line; is_comment := is_comment line |}.

(** [SSAEvent.OVERRIDE_SEQUENCE], the pattern [{[^}]*}]. *)
Definition OVERRIDE_SEQUENCE : Re.matcher :=
  fun _ s =>
    match s with
    | 123%N :: s' => S <$> Re.class_run (fun _ => true) 125%N s'
    | _ => None
    end.

(** [SSAEvent.plaintext]: the text without override blocks, with [\h],
    [\n] and [\N] replaced. *)
Definition plaintext (line : SSAEvent) : pystr :=
  replace (lit "\N") [NL]
    (replace (lit "\n") [NL]
       (replace (lit "\h") [SP] (Re.sub OVERRIDE_SEQUENCE [] (text line)))).

(** The override tags that [parse_tags] reads
    ([\\[ibusp][0-9]|\\r[a-zA-Z_0-9 ]*]). *)
Definition tag_name_char (c : N) : bool :=
  ((97 <=? c) && (c <=? 122) || (65 <=? c) && (c <=? 90) || (c =? 95)
   || (48 <=? c) && (c <=? 57) || (c =? 32))%N.

Fixpoint name_run (s : pystr) : nat :=
  match s with
  | c :: s' => if tag_name_char c then S (name_run s') else O
  | [] => O
  end.

Definition OVERRIDE_TAG : Re.matcher :=
  fun _ s =>
    match s with
    | 92%N :: c :: s' =>
        if (c =? 114)%N then Some (2 + name_run s')%nat
        else if existsb (N.eqb c) (lit "ibusp") then
          match s' with
          | d :: _ => if ((48 <=? d) && (d <=? 57))%N then Some 3%nat else None
          | [] => None
          end
        else None
    | _ => None
    end.

(** The drawing mode after one override tag: [\p0] leaves it, [\p1] to
    [\p9] enter it, [\r] returns to the style of the line. *)
Definition apply_override (drawing : bool) (tag : pystr) : bool :=
  match tag with
  | [92; 114]%N => false
  | [92; 112; d]%N => (48 <? d)%N
  | _ => drawing
  end.

(** [SSAEvent.is_drawing]: the text is cut at its override blocks, and the
    event is a drawing when drawing mode is on after some block. *)
Definition is_drawing (line : SSAEvent) : bool :=
  let overrides := Re.findall OVERRIDE_SEQUENCE (text line) in
  existsb
    (fun i =>
       fold_left apply_override
         (Re.findall OVERRIDE_TAG (concat (take i overrides))) false)
    (seq 0 (S (length overrides))).

(** What identifies a repeated subtitle: same time interval, same plain
    text. *)
Definition event_key (line : SSAEvent) : Z * Z * pystr :=
  (start line, end_ line, plaintext line).

(** [SSAFile.remove_miscellaneous_events]: drops comments, drawings,
    events with fewer than two characters of stripped plain text, and
    every event whose plain text was already seen with the same time
    interval ([seen]: the keys of the events before this one, dropped or
    not). *)
Fixpoint remove_miscellaneous_events_go (seen : list (Z * Z * pystr))
    (events : SSAFile) : SSAFile :=
  match events with
  | [] => []
  | e :: rest =>
      let duplicate := bool_decide (event_key e ∈ seen) in
      let kept := remove_miscellaneous_events_go (event_key e :: seen) rest in
      if is_drawing e || is_comment e then kept
      else if (length (strip (plaintext e)) <? 2)%nat then kept
      else if duplicate then kept
      else e :: kept
  end.

Definition remove_miscellaneous_events (events : SSAFile) : SSAFile :=
  remove_miscellaneous_events_go [] events.

End Pysubs2.
Export Pysubs2.

(** ** Exceptions, console, file system *)

Module Runtime.

Inductive exn :=
  | ValueError (msg : string)       (* raise ValueError(msg) *)
  | InvalidLiteral (s : pystr)      (* the ValueError of int(s) *)
  | IndexError
  | KeyError (key : pystr)
  | EOFError
  | FileNotFoundError (path : pystr)
  | FileExistsError (path : pystr)
  | NotADirectoryError (path : pystr)
  | IsADirectoryError (path : pystr)
  | SystemExit (code : Z).

(** [except Exception] does not catch [SystemExit]. *)
Definition is_Exception (e : exn) : bool :=
  match e with SystemExit _ => false | _ => true end.

Inductive result (A : Type) :=
  | Ok (a : A)
  | Raise (e : exn).
Arguments Ok {A} a.
Arguments Raise {A} e.

Inductive node :=
  | Dir
  | File (doc : SSAFile).

Record world := mkWorld {
  stdin : list pystr;        (* the lines input() is still to return *)
  stdout : list pystr;       (* what was written, oldest first *)
  stderr : list pystr;
  fs : gmap pystr node;      (* the directories and subtitle files *)
  tmp_seq : nat;             (* the next temporary name *)
}.

Definition M (A : Type) : Type := world -> result A * world.

#[global] Instance M_ret : MRet M := fun A a w => (Ok a, w).

#[global] Instance M_bind : MBind M := fun A B f m w =>
  match m w with
  | (Ok a, w') => f a w'
  | (Raise e, w') => (Raise e, w')
  end.

Definition raise {A} (e : exn) : M A := fun w => (Raise e, w).

(** [try: body except Exception as e: handler(e)] *)
Definition try_except {A} (body : M A) (handler : exn -> M A) : M A :=
  fun w =>
    match body w with
    | (Raise e, w') => if is_Exception e then handler e w' else (Raise e, w')
    | r => r
    end.

Definition set_stdin (l : list pystr) (w : world) : world :=
  {| stdin := l; stdout := stdout w; stderr := stderr w; fs := fs w;
     tmp_seq := tmp_seq w |}.
Definition set_stdout (l : list pystr) (w : world) : world :=
  {| stdin := stdin w; stdout := l; stderr := stderr w; fs := fs w;
     tmp_seq := tmp_seq w |}.
Definition set_stderr (l : list pystr) (w : world) : world :=
  {| stdin := stdin w; stdout := stdout w; stderr := l; fs := fs w;
     tmp_seq := tmp_seq w |}.
Definition set_fs (m : gmap pystr node) (w : world) : world :=
  {| stdin := stdin w; stdout := stdout w; stderr := stderr w; fs := m;
     tmp_seq := tmp_seq w |}.
Definition set_tmp_seq (n : nat) (w : world) : world :=
  {| stdin := stdin w; stdout := stdout w; stderr := stderr w; fs := fs w;
     tmp_seq := n |}.

(** [print(s)] *)
Definition print (s : pystr) : M unit :=
  fun w => (Ok tt, set_stdout (stdout w ++ [s ++ [NL]]) w).

(** [print(s, file=sys.stderr)] *)
Definition eprint (s : pystr) : M unit :=
  fun w => (Ok tt, set_stderr (stderr w ++ [s ++ [NL]]) w).

(** [input(prompt)]: writes the prompt, returns the next line. *)
Definition input (prompt : pystr) : M pystr :=
  fun w =>
    let w1 := set_stdout (stdout w ++ [prompt]) w in
    match stdin w with
    | [] => (Raise EOFError, w1)
    | line :: rest => (Ok line, set_stdin rest w1)
    end.

(** [l[i]] on a list: negative indices count from the end. *)
Definition getitem {A} (l : list A) (i : Z) : M A :=
  let n := Z.of_nat (length l) in
  let j := if i <? 0 then i + n else i in
  if (0 <=? j) && (j <? n)
  then match l !! Z.to_nat j with
       | Some x => mret x
       | None => raise IndexError
       end
  else raise IndexError.

(** [int(s)] *)
Definition int (s : pystr) : M Z :=
  match py_int s with
  | Some i => mret i
  | None => raise (InvalidLiteral s)
  end.

(** [pysubs2.load(path)] *)
Definition load (path : pystr) : M SSAFile :=
  fun w =>
    match fs w !! path with
    | Some (File doc) => (Ok doc, w)
    | Some Dir => (Raise (IsADirectoryError path), w)
    | None => (Raise (FileNotFoundError path), w)
    end.

(** Writing a file: [subtitle.save(path)], or what an extraction tool
    leaves at its destination. *)
Definition write_file (path : pystr) (doc : SSAFile) : M unit :=
  fun w =>
    match fs w !! path with
    | Some Dir => (Raise (IsADirectoryError path), w)
    | _ => (Ok tt, set_fs (<[path := File doc]> (fs w)) w)
    end.

(** [tempfile.mkdtemp(prefix=prefix)]: a new directory with a name not in
    use, or [FileExistsError]. *)
Definition mkdtemp (prefix : pystr) : M pystr :=
  fun w =>
    let path := lit "/tmp/" ++ prefix ++ str_of_Z (Z.of_nat (tmp_seq w)) in
    let w1 := set_tmp_seq (S (tmp_seq w)) w in
    match fs w !! path with
    | Some _ => (Raise (FileExistsError path), w1)
    | None => (Ok path, set_fs (<[path := Dir]> (fs w)) w1)
    end.

(** [path] is [dir] or lies beneath it. *)
Definition beneath (dir path : pystr) : bool :=
  bool_decide (path = dir) || startswith (dir ++ lit "/") path.

(** [shutil.rmtree(dir)] *)
Definition rmtree (dir : pystr) : M unit :=
  fun w =>
    match fs w !! dir with
    | None => (Raise (FileNotFoundError dir), w)
    | Some (File _) => (Raise (NotADirectoryError dir), w)
    | Some Dir =>
        (Ok tt, set_fs (filter (fun kv => beneath dir kv.1 = false) (fs w)) w)
    end.

(** [os.path.basename] *)
Fixpoint basename_go (cur : pystr) (p : pystr) : pystr :=
  match p with
  | [] => rev cur
  | c :: p' => if (c =? 47)%N then basename_go [] p' else basename_go (c :: cur) p'
  end.
Definition basename (p : pystr) : pystr := basename_go [] p.

(** [os.path.splitext(p)[0]] for a [p] without a directory part: the
    last dot splits, unless only dots come before it. *)
Fixpoint last_dot (p : pystr) : option nat :=
  match p with
  | [] => None
  | c :: p' =>
      match last_dot p' with
      | Some i => Some (S i)
      | None => if (c =? 46)%N then Some O else None
      end
  end.

Definition splitext_root (p : pystr) : pystr :=
  match last_dot p with
  | Some i => if forallb (N.eqb 46) (take i p) then p else take i p
  | None => p
  end.

(** [os.path.join(a, b)] *)
Definition path_join (a b : pystr) : pystr :=
  if startswith (lit "/") b then b
  else match last a with
       | None => b
       | Some c => if (c =? 47)%N then a ++ b else a ++ lit "/" ++ b
       end.

End Runtime.
Export Runtime.

(** [for x in l: acc = body(acc, x)] *)
Fixpoint foldM {A B} (body : B -> A -> M B) (acc : B) (l : list A) : M B :=
  match l with
  | [] => mret acc
  | x :: l' => acc' ← body acc x; foldM body acc' l'
  end.

(** ** lib/subtitle_extraction.py *)

Module SubtitleExtraction.

(** One entry of the [streams] list of the probe's JSON output: the keys
    [index] and [codec_name], and the optional [tags.title] and
    [tags.language]. *)
Record ProbeStream := mkProbe {
  js_index : Z;
  js_codec_name : pystr;
  js_title : option pystr;
  js_language : option pystr;
}.

Record SubtitleStream := mkStream {
  index : Z;
  name : pystr;
  codec : pystr;
}.

(** [__eq__] and [__hash__] compare the three fields. *)
#[global] Instance SubtitleStream_eq_dec : EqDecision SubtitleStream.
Proof. solve_decision. Defined.

(** [a or b] on strings *)
Definition str_or (a b : pystr) : pystr :=
  match a with [] => b | _ => a end.

Definition from_ffprobe_stream (stream : ProbeStream) : SubtitleStream :=
  let stream_name :=
    str_or (strip (default [] (js_title stream)))
      (str_or (strip (default [] (js_language stream))) (lit "unknown")) in
  {| index := js_index stream; name := stream_name;
     codec := js_codec_name stream |}.

(** The order in which a [set] of streams is iterated. Python fixes only
    that every distinct element comes once; the order follows the hashes
    of the elements, which for strings change from run to run. A set is
    represented by the sequence of the elements put into it. *)
Record SetOrder := mkOrder {
  set_iter : list SubtitleStream -> list SubtitleStream;
  set_iter_perm : forall l, set_iter l ≡ₚ remove_dups l;
}.

(** The set comprehension of [get_unique_streams]. *)
Definition get_unique_streams (file_streams : list ProbeStream)
    : list SubtitleStream :=
  from_ffprobe_stream <$> file_streams.

(** The line printed for a candidate. *)
Definition stream_line (i : nat) (stream : SubtitleStream) : pystr :=
  lit "[" ++ str_of_Z (Z.of_nat i) ++ lit "] Stream "
    ++ str_of_Z (index stream) ++ lit ": " ++ name stream
    ++ lit " (" ++ codec stream ++ lit ")".

Definition prompt_stream_selection (streams : list SubtitleStream)
    : M SubtitleStream :=
  if (length streams =? 1)%nat then getitem streams 0
  else
    foldM (fun _ '(i, stream) => print (stream_line i stream)) tt
      (imap pair streams);;
    line ← input (lit "Please choose subtitle to extract> ");
    choice ← int line;
    getitem streams choice.

(** [zip] over the unpacked list of pairs: the sequence of the first
    components and that of the second, which the caller unpacks. *)
Definition zip_star (pairs : list (Z * pystr)) : list Z * list pystr :=
  (pairs.*1, pairs.*2).

Section Selector.
Variable order : SetOrder.

Definition get_subtitle_stream_indices
    (all_files_streams : list (list ProbeStream)) : M (list Z * list pystr) :=
  match all_files_streams with
  | [] => raise (ValueError "No subtitle streams found")
  | first :: _ =>
      if forallb (fun file_streams => (length file_streams =? 1)%nat)
           all_files_streams
      then
        pairs ← mapM (fun s => s0 ← getitem s 0;
                               mret (js_index s0, js_codec_name s0))
                  all_files_streams;
        mret (zip_star pairs)
      else if forallb (fun file_streams =>
                         (length file_streams =? length first)%nat)
                all_files_streams
      then
        let streams := get_unique_streams first in
        selected ← prompt_stream_selection (set_iter order streams);
        mret (replicate (length all_files_streams) (index selected),
              replicate (length all_files_streams) (codec selected))
      else
        print (lit "Subtitle streams differ between files. Please select streams to extract for each file.");;
        selections ← mapM (fun file_streams =>
                             let streams := get_unique_streams file_streams in
                             prompt_stream_selection (set_iter order streams))
                       all_files_streams;
        mret (index <$> selections, codec <$> selections)
  end.

End Selector.

Section Extraction.
(** The extraction tool: the subtitle document of a track of a video
    file, or the text of the error when the tool fails. *)
Variable mkvextract : pystr -> Z -> SSAFile + pystr.

(** [extract_subtitle], with [utility.run_command]: a failing tool
    prints the error and ends the program with status 1. *)
Definition extract_subtitle (file_path : pystr) (subtitle_index : Z)
    (target_path : pystr) : M unit :=
  match mkvextract file_path subtitle_index with
  | inl doc => write_file target_path doc
  | inr e => print (lit "An error occurred: " ++ e);; raise (SystemExit 1)
  end.

Definition extract_subtitles (video_file_paths : list pystr)
    (subtitle_codecs : list pystr) (selected_stream_indices : list Z)
    : M (list pystr * M unit) :=
  if negb ((length video_file_paths =? length subtitle_codecs)%nat
           && (length subtitle_codecs =? length selected_stream_indices)%nat)
  then raise (ValueError "All input lists must have the same length")
  else
    temp_dir ← mkdtemp (lit "subtitle_extraction");
    extracted_files ←
      mapM (fun '(video_path, codec, stream_idx) =>
              let base_name := splitext_root (basename video_path) in
              let output_path :=
                path_join temp_dir (base_name ++ lit "." ++ codec) in
              print (lit "Extracting subtitles from " ++ basename video_path
                       ++ lit " to" ++ [NL; 9%N] ++ basename output_path);;
              extract_subtitle video_path stream_idx output_path;;
              mret output_path)
        (zip (zip video_file_paths subtitle_codecs) selected_stream_indices);
    mret (extracted_files, rmtree temp_dir).

End Extraction.

End SubtitleExtraction.
Export SubtitleExtraction.

(** ** lib/subtitle_cleaning.py *)

Module SubtitleCleaning.

(** ♪ ～ ― ~ *)
Definition SYMBOLS_TO_DELETE : list pystr :=
  [[0x266A]; [0xFF5E]; [0x2015]; [0x7E]]%N.

(** [（.+?）] with the full-width parentheses U+FF08 and U+FF09. *)
Definition HEARING_IMPAIRED_REGEX : Re.matcher :=
  fun _ s =>
    match s with
    | o :: c :: s' =>
        if (o =? 0xFF08)%N && negb (c =? NL)%N
        then (fun n => 2 + n)%nat <$> Re.lazy_dots 0xFF09 s'
        else None
    | _ => None
    end.

(** The class [[ぁ-ゞ]], U+3041 to U+309E. *)
Definition hiragana (c : N) : bool := ((0x3041 <=? c) && (c <=? 0x309E))%N.

(** [\([ぁ-ゞ]+?\)] *)
Definition FURIGANA_REGEX : Re.matcher :=
  fun _ s =>
    match s with
    | o :: c :: s' =>
        if (o =? 40)%N && hiragana c
        then (fun n => 2 + n)%nat <$> Re.class_run hiragana 41 s'
        else None
    | _ => None
    end.

(** [^\(.+\)]: only at the beginning of the text. *)
Definition INITIAL_BRACKETS : Re.matcher :=
  fun start s =>
    if start then
      match s with
      | o :: c :: s' =>
          if (o =? 40)%N && negb (c =? NL)%N
          then (fun n => 2 + n)%nat <$> Re.greedy_dots 41 s'
          else None
      | _ => None
      end
    else None.

(** The pattern joined from [SYMBOLS_TO_DELETE]. Every alternative is one
    character, so the order in which the set is joined does not change
    what is matched. *)
Definition SYMBOLS_REGEX : Re.matcher :=
  Re.alternation (Re.literal <$> SYMBOLS_TO_DELETE).

Definition TAGS_TO_IGNORE_AUTO : list pystr :=
  lit <$> ["Signs"; "Caption"; "Song"; "ED"; "OP"; "Opening"; "Ending";
           "Karaoke"]%string.

Definition extract_and_format_matches (text : pystr) (regex : Re.matcher)
    : pystr :=
  let matches := Re.findall regex text in
  let formatted_matches :=
    join [NL; 9%N] ((fun m => lit "-->" ++ [9%N] ++ m) <$> matches) in
  match matches with
  | [] => text
  | _ => text ++ [NL; 9%N] ++ formatted_matches
  end.

Definition user_confirmation (matches : list (pystr * Re.matcher))
    (category : pystr) : M bool :=
  let matches := take 10 matches in
  match matches with
  | [] => mret false
  | _ =>
      let prompt :=
        join [NL] ((fun '(text, regex) =>
                      extract_and_format_matches text regex) <$> matches) in
      line ← input (prompt ++ [NL; NL]
                      ++ lit "Found the above lines and text to be removed in "
                      ++ lit "category '" ++ category
                      ++ lit "'. Press enter for delete. 'n' to keep. ");
      mret (negb (lower_is_n (strip line)))
  end.

Definition remove_special_texts (text : pystr) (regex : Re.matcher)
    (clear_flag : bool) : pystr :=
  if clear_flag then Re.sub regex [] text else text.

(** The two [replace] calls on the line-break markers: [\N] becomes a
    newline, then [\n] a space. *)
Definition normalize_breaks (text : pystr) : pystr :=
  replace (lit "\n") [SP] (replace (lit "\N") [NL] text).

(** [clear_flags.get(key)] as a condition: a missing key counts as
    false. *)
Definition flag (clear_flags : gmap string bool) (key : string) : bool :=
  default false (clear_flags !! key).

(** The text of [process_subtitle_line] after the four category passes
    (lines 55 to 64). *)
Definition category_passes (clear_flags : gmap string bool) (text : pystr)
    : pystr :=
  let text := normalize_breaks text in
  let text := if flag clear_flags "hearing_impaired"
              then remove_special_texts text HEARING_IMPAIRED_REGEX true
              else text in
  let text := if flag clear_flags "special_symbols"
              then Re.sub SYMBOLS_REGEX [] text
              else text in
  let text := if flag clear_flags "furigana"
              then remove_special_texts text FURIGANA_REGEX true
              else text in
  let text := if flag clear_flags "initial_brackets"
              then remove_special_texts text INITIAL_BRACKETS true
              else text in
  text.

(** The whitespace collapse of line 66. *)
Definition collapse (text : pystr) : pystr := Re.sub Re.WHITESPACE [SP] text.

(** The new [line.text] of [process_subtitle_line]: the passes, then the
    collapse. *)
Definition process_text (clear_flags : gmap string bool) (text : pystr)
    : pystr :=
  collapse (category_passes clear_flags text).

Definition process_subtitle_line (line : SSAEvent)
    (clear_flags : gmap string bool) : SSAEvent :=
  set_text (process_text clear_flags (text line)) line.

(** The dictionary of the samples, one list per category. *)
Record SpecialTexts := mkSpecial {
  hearing_impaired : list (pystr * Re.matcher);
  special_symbols : list (pystr * Re.matcher);
  furigana : list (pystr * Re.matcher);
  initial_brackets : list (pystr * Re.matcher);
}.

Definition no_special_texts : SpecialTexts :=
  {| hearing_impaired := []; special_symbols := []; furigana := [];
     initial_brackets := [] |}.

(** [special_texts[key].extend(file_special_texts[key])] for every key *)
Definition extend_special_texts (a b : SpecialTexts) : SpecialTexts :=
  {| hearing_impaired := hearing_impaired a ++ hearing_impaired b;
     special_symbols := special_symbols a ++ special_symbols b;
     furigana := furigana a ++ furigana b;
     initial_brackets := initial_brackets a ++ initial_brackets b |}.

(** [any(symbol in text for symbol in SYMBOLS_TO_DELETE)] *)
Definition has_symbol (text : pystr) : bool :=
  existsb (fun symbol => contains symbol text) SYMBOLS_TO_DELETE.

(** What one line adds to the samples. *)
Definition collect_line (acc : SpecialTexts) (line : SSAEvent)
    : SpecialTexts :=
  let text := normalize_breaks (text line) in
  {| special_symbols :=
       special_symbols acc ++
       (if has_symbol text then [(text, SYMBOLS_REGEX)] else []);
     hearing_impaired :=
       hearing_impaired acc ++
       (if Re.search HEARING_IMPAIRED_REGEX text
        then [(text, HEARING_IMPAIRED_REGEX)] else []);
     furigana :=
       furigana acc ++
       (if Re.search FURIGANA_REGEX text
        then [(text, FURIGANA_REGEX)] else []);
     initial_brackets :=
       initial_brackets acc ++
       (if Re.search INITIAL_BRACKETS text
        then [(text, INITIAL_BRACKETS)] else []) |}.

Definition collect_special_texts (subtitle : SSAFile) : SpecialTexts :=
  fold_left collect_line subtitle no_special_texts.

(** The events of a document after lines 127 to 131: every line
    processed, then the lines with empty text or with NETFLIX in the text
    dropped. *)
Definition hygiene (line : SSAEvent) : bool :=
  negb (bool_decide (text line = [])) && negb (contains (lit "NETFLIX") (text line)).

Definition cleaned_events (clear_flags : gmap string bool)
    (subtitle : SSAFile) : SSAFile :=
  List.filter hygiene
    ((fun line => process_subtitle_line line clear_flags) <$> subtitle).

(** The document that is saved (lines 127 to 132). *)
Definition clean_document (clear_flags : gmap string bool)
    (subtitle : SSAFile) : SSAFile :=
  remove_miscellaneous_events (cleaned_events clear_flags subtitle).

Definition clean_up_japanese_subs (subtitle_files : list pystr)
    : M (list pystr * M unit) :=
  temp_dir ← mkdtemp (lit "cleaned_subs_");
  special_texts ←
    foldM (fun special_texts subtitle_file =>
             subtitle ← load subtitle_file;
             mret (extend_special_texts special_texts
                     (collect_special_texts subtitle)))
      no_special_texts subtitle_files;
  b_hearing ← user_confirmation (hearing_impaired special_texts)
                 (lit "hearing impaired");
  b_symbols ← user_confirmation (special_symbols special_texts)
                 (lit "special symbols");
  b_furigana ← user_confirmation (furigana special_texts) (lit "furigana");
  b_brackets ← user_confirmation (initial_brackets special_texts)
                 (lit "initial brackets");
  let clear_flags : gmap string bool :=
    <["hearing_impaired"%string := b_hearing]>
      (<["special_symbols"%string := b_symbols]>
         (<["furigana"%string := b_furigana]>
            (<["initial_brackets"%string := b_brackets]> ∅))) in
  cleaned_paths ←
    mapM (fun subtitle_file =>
            subtitle ← load subtitle_file;
            let new_file_name := path_join temp_dir (basename subtitle_file) in
            write_file new_file_name (clean_document clear_flags subtitle);;
            print (lit "Saving cleaned Japanese subtitle to " ++ new_file_name);;
            mret new_file_name)
      subtitle_files;
  print (lit "Finished cleaning Japanese subtitles.");;
  mret (cleaned_paths, rmtree temp_dir).

(** *** The style filter *)

(** [any(tag in line.style for tag in TAGS_TO_IGNORE_AUTO)] *)
Definition ignored_style (style : pystr) : bool :=
  existsb (fun tag => contains tag style) TAGS_TO_IGNORE_AUTO.

(** [styles_counts[style] = styles_counts.get(style, 0) + 1] on a
    dictionary that keeps its keys in the order of their first
    insertion. *)
Fixpoint count_style (style : pystr) (styles_counts : list (pystr * Z))
    : list (pystr * Z) :=
  match styles_counts with
  | [] => [(style, 1)]
  | (s, n) :: rest =>
      if decide (s = style) then (s, n + 1) :: rest
      else (s, n) :: count_style style rest
  end.

(** The body of the loop over the lines of [analyze_subtitle_styles]. *)
Definition analyze_line (acc : list (pystr * Z) * gmap pystr (list pystr))
    (line : SSAEvent) : list (pystr * Z) * gmap pystr (list pystr) :=
  let '(styles_counts, styles_examples) := acc in
  if ignored_style (style line) then acc
  else
    let styles_counts := count_style (style line) styles_counts in
    let examples := default [] (styles_examples !! style line) in
    let examples :=
      if (length examples <? 5)%nat then examples ++ [text line]
      else examples in
    (styles_counts, <[style line := examples]> styles_examples).

(** [sorted(items, key=count, reverse=True)]: descending, and stable. *)
Fixpoint insert_by_count (x : pystr * Z) (l : list (pystr * Z))
    : list (pystr * Z) :=
  match l with
  | [] => [x]
  | y :: l' => if x.2 <? y.2 then y :: insert_by_count x l' else x :: l
  end.

Definition sorted_by_count (items : list (pystr * Z)) : list (pystr * Z) :=
  foldr insert_by_count [] items.

Definition analyze_subtitle_styles (subtitle_list : list pystr)
    : M (list (pystr * Z) * gmap pystr (list pystr)) :=
  '(styles_counts, styles_examples) ←
    foldM (fun acc subtitle_file =>
             subtitle ← load subtitle_file;
             mret (fold_left analyze_line subtitle acc))
      ([], ∅) subtitle_list;
  mret (sorted_by_count styles_counts, styles_examples).

Definition get_styles_to_keep (sorted_styles : list (pystr * Z))
    (styles_examples : gmap pystr (list pystr)) : M (list pystr) :=
  print (lit "Found the following styles:");;
  foldM (fun _ '(i, (style, count)) =>
           print (lit "[" ++ str_of_Z (Z.of_nat i) ++ lit "] "
                    ++ str_of_Z count ++ lit " times; " ++ style);;
           examples ← match styles_examples !! style with
                      | Some l => mret l
                      | None => raise (KeyError style)
                      end;
           foldM (fun _ example => print ([9; 9; 9]%N ++ example)) tt examples)
    tt (imap pair sorted_styles);;
  line ← input (lit "Choose tags to keep by index separated by space "
                  ++ lit "(e.g. 1 2 4). No input to keep all listed."
                  ++ [NL] ++ lit "> ");
  let user_input := strip line in
  match user_input with
  | [] => mret (fst <$> sorted_styles)
  | _ =>
      tag_indices ← mapM int (split user_input);
      mapM (fun i => entry ← getitem sorted_styles i; mret (fst entry))
        tag_indices
  end.

(** The document that [clean_tags] saves for a loaded one. *)
Definition filter_styles (styles_to_keep : list pystr) (subtitle : SSAFile)
    : SSAFile :=
  List.filter (fun line => bool_decide (style line ∈ styles_to_keep)) subtitle.

Definition str_of_exn (e : exn) : pystr :=
  match e with
  | ValueError msg => lit msg
  | InvalidLiteral s =>
      lit "invalid literal for int() with base 10: '" ++ s ++ lit "'"
  | IndexError => lit "list index out of range"
  | KeyError k => lit "'" ++ k ++ lit "'"
  | EOFError => lit "EOF when reading a line"
  | FileNotFoundError p | FileExistsError p
  | NotADirectoryError p | IsADirectoryError p => p
  | SystemExit c => str_of_Z c
  end.

(** The [try] block of [clean_tags]. *)
Definition clean_tags_body (temp_dir : pystr) (subtitle_list : list pystr)
    : M (list pystr * M unit) :=
  '(sorted_styles, styles_examples) ← analyze_subtitle_styles subtitle_list;
  styles_to_keep ← get_styles_to_keep sorted_styles styles_examples;
  cleaned_paths ←
    mapM (fun subtitle_file =>
            subtitle ← load subtitle_file;
            let events :=
              remove_miscellaneous_events
                (filter_styles styles_to_keep subtitle) in
            let cleaned_path :=
              path_join temp_dir
                (splitext_root (basename subtitle_file) ++ lit ".ass") in
            write_file cleaned_path events;;
            print (lit "Saved cleaned subtitle to " ++ cleaned_path);;
            mret cleaned_path)
      subtitle_list;
  mret (cleaned_paths, rmtree temp_dir).

Definition clean_tags (subtitle_list : list pystr) : M (list pystr * M unit) :=
  temp_dir ← mkdtemp (lit "cleaned_subtitles_");
  try_except (clean_tags_body temp_dir subtitle_list)
    (fun e =>
       eprint (lit "Error during subtitle cleaning: " ++ str_of_exn e);;
       raise e).

End SubtitleCleaning.
Export SubtitleCleaning.

(** ** [lib/utility.py] and the sorting of the file names *)

Module Utility.

(** [c] is a decimal digit, which is what [\d] matches in a [str]
    pattern. *)
Definition isdecimal (c : N) : bool :=
  match decimal_value c with Some _ => true | None => false end.

(** [\d+] *)
Fixpoint digit_run (s : pystr) : nat :=
  match s with
  | c :: s' => if isdecimal c then S (digit_run s') else O
  | [] => O
  end.

Definition DIGITS : Re.matcher :=
  fun _ s => match digit_run s with O => None | n => Some n end.

(** [re.sub(pattern, function, text)]: every match is replaced by what
    [repl] makes of it. *)
Fixpoint sub_with_go (m : Re.matcher) (repl : pystr -> pystr) (start : bool)
    (skip : nat) (s : pystr) : pystr :=
  match s with
  | [] => []
  | c :: s' =>
      match skip with
      | S k => sub_with_go m repl false k s'
      | O =>
          match m start s with
          | Some (S k) => repl (take (S k) s) ++ sub_with_go m repl false k s'
          | _ => c :: sub_with_go m repl false 0 s'
          end
      end
  end.

Definition sub_with (m : Re.matcher) (repl : pystr -> pystr) (s : pystr)
    : pystr :=
  sub_with_go m repl true 0 s.

(** [s.zfill(width)]: zeros on the left, after a leading sign. *)
Definition zfill (width : nat) (s : pystr) : pystr :=
  if (width <=? length s)%nat then s
  else
    let fill := replicate (width - length s) 48%N in
    match s with
    | c :: rest =>
        if (c =? 43)%N || (c =? 45)%N then c :: fill ++ rest else fill ++ s
    | [] => fill
    end.

(** [run_command]: a command is run as a process that may change the
    world and ends with what it printed, or with the text of the
    [CalledProcessError] when its exit status is not zero; then the
    error is printed and the program ends with status 1. *)
Definition run_command {A} (command : M (A + pystr)) : M A :=
  r ← command;
  match r with
  | inl output => mret output
  | inr e => print (lit "An error occurred: " ++ e);; raise (SystemExit 1)
  end.

Section Sorter.
(** [str.lower]; the case tables of Unicode are not part of the
    program. *)
Variable lower : pystr -> pystr.

Definition file_name_sorter (file_name : pystr) : pystr :=
  let file_name_without_whitespace := Re.sub Re.WHITESPACE [] file_name in
  sub_with DIGITS (zfill 5) (lower file_name_without_whitespace).

End Sorter.

(** [a < b] on strings: by code points, a proper prefix first. *)
Fixpoint str_lt (a b : pystr) : bool :=
  match a, b with
  | _, [] => false
  | [], _ :: _ => true
  | x :: a', y :: b' => (x <? y)%N || ((x =? y)%N && str_lt a' b')
  end.

(** [sorted(l, key=key)]: ascending in the key, and stable. *)
Fixpoint insert_by_key (key : pystr -> pystr) (x : pystr) (l : list pystr)
    : list pystr :=
  match l with
  | [] => [x]
  | y :: l' =>
      if str_lt (key y) (key x) then y :: insert_by_key key x l' else x :: l
  end.

Definition sorted_by_key (key : pystr -> pystr) (l : list pystr)
    : list pystr :=
  foldr (insert_by_key key) [] l.

End Utility.
Export Utility.

(** ** [lib/subtitle_sync.py] *)

Module SubtitleSync.

(** [s.split(sep)] for a separator of one character: the pieces between
    the separators, empty ones included. [cur] is the piece being read,
    reversed. *)
Fixpoint split_on_go (sep : N) (cur : pystr) (s : pystr) : list pystr :=
  match s with
  | [] => [rev cur]
  | c :: s' =>
      if (c =? sep)%N then rev cur :: split_on_go sep [] s'
      else split_on_go sep (c :: cur) s'
  end.

Definition split_on (sep : N) (s : pystr) : list pystr := split_on_go sep [] s.

(** A [pathlib.Path] on a POSIX system: the root ([/], [//] or none) and
    the components after it. *)
Record PurePath := mkPath {
  path_root : pystr;
  path_parts : list pystr;
}.

(** [Path(s)]: exactly two leading slashes make the root [//], any other
    number the root [/]; empty components and [.] are dropped. *)
Definition Path (s : pystr) : PurePath :=
  {| path_root :=
       if startswith (lit "/") s then
         if (length s - length (dropWhile (N.eqb 47) s) =? 2)%nat
         then lit "//" else lit "/"
       else [];
     path_parts :=
       List.filter
         (fun x => negb (bool_decide (x = []) || bool_decide (x = lit ".")))
         (split_on 47 s) |}.

(** [path.name]: the last component, if there is one. *)
Definition path_name (path : PurePath) : pystr :=
  default [] (last (path_parts path)).

(** [path.suffix]: from the last dot of the name on, unless the dot is the
    first or the last character of the name. *)
Definition path_suffix (path : PurePath) : pystr :=
  let name := path_name path in
  match last_dot name with
  | Some i =>
      if (0 <? i)%nat && (i <? length name - 1)%nat then drop i name else []
  | None => []
  end.

(** [path.stem]: the name without the suffix. *)
Definition path_stem (path : PurePath) : pystr :=
  let name := path_name path in
  match last_dot name with
  | Some i =>
      if (0 <? i)%nat && (i <? length name - 1)%nat then take i name else name
  | None => name
  end.

(** [path / other]: an [other] with a root replaces the path. *)
Definition truediv (path : PurePath) (other : pystr) : PurePath :=
  let other := Path other in
  match path_root other with
  | [] => {| path_root := path_root path;
             path_parts := path_parts path ++ path_parts other |}
  | _ => other
  end.

(** [str(path)] *)
Definition path_str (path : PurePath) : pystr :=
  match path_root path, path_parts path with
  | [], [] => lit "."
  | r, ps => r ++ join (lit "/") ps
  end.

(** [path.mkdir(exist_ok=True)] *)
Definition mkdir_exist_ok (path : PurePath) : M unit :=
  fun w =>
    match fs w !! path_str path with
    | Some Dir => (Ok tt, w)
    | Some (File _) => (Raise (FileExistsError (path_str path)), w)
    | None => (Ok tt, set_fs (<[path_str path := Dir]> (fs w)) w)
    end.

Section Sync.
(** The synchronisation tool, called with the paths of the reference, of
    the target and of the output in a file system: the document that it
    leaves at the output path and the text that it prints, or the text of
    the error when it fails. *)
Variable alass :
  gmap pystr node -> pystr -> pystr -> pystr -> (SSAFile * pystr) + pystr.

(** The process [alass reference target output]. *)
Definition alass_command (reference_subtitle target_subtitle output_path : pystr)
    : M (pystr + pystr) :=
  fun w =>
    match alass (fs w) reference_subtitle target_subtitle output_path with
    | inl (doc, output) =>
        (Ok (inl output), set_fs (<[output_path := File doc]> (fs w)) w)
    | inr e => (Ok (inr e), w)
    end.

Definition sync_subtitle (reference_subtitle target_subtitle output_path : pystr)
    : M unit :=
  print (lit "Syncing subtitle files:" ++ [NL] ++ lit "Reference: "
           ++ reference_subtitle ++ [NL] ++ lit "Target: " ++ target_subtitle);;
  print (lit "Output: " ++ output_path);;
  output ←
    run_command (alass_command reference_subtitle target_subtitle output_path);
  let shift_info :=
    join [NL]
      (List.filter (contains (lit "shifted block")) (split_on NL output)) in
  print shift_info.

Definition sync_subtitles (reference_subtitles target_subtitles : list pystr)
    (output_dir : pystr) : M unit :=
  let output_path := Path output_dir in
  mkdir_exist_ok output_path;;
  foldM (fun _ '(reference_sub, target_sub) =>
           let reference_name := path_stem (Path reference_sub) in
           let target_extension := path_suffix (Path target_sub) in
           let output_filename := reference_name ++ target_extension in
           let output_subtitle := truediv output_path output_filename in
           sync_subtitle reference_sub target_sub (path_str output_subtitle))
    tt (zip reference_subtitles target_subtitles);;
  print (lit "Finished syncing subtitles.").

End Sync.

End SubtitleSync.
Export SubtitleSync.

(** ** [main.py] *)

Module Main.

Section Main.
(** The order in which sets are iterated, and [str.lower]. *)
Variable order : SetOrder.
Variable lower : pystr -> pystr.
(** [os.getcwd()], and [glob.glob] on the directory as the program finds
    it. *)
Variable getcwd : pystr.
Variable glob : pystr -> list pystr.
(** The probe, called on a video file: its output, which is empty
    ([None]) or a JSON text with a list of streams, or the text of the
    error when it fails. *)
Variable ffprobe : pystr -> option (list ProbeStream) + pystr.
Variable mkvextract : pystr -> Z -> SSAFile + pystr.
Variable alass :
  gmap pystr node -> pystr -> pystr -> pystr -> (SSAFile * pystr) + pystr.

(** [extract_subtitle_streams_from_file] of [lib/subtitle_extraction.py]:
    an empty output ends the program with status 1; the JSON text is
    taken to be well-formed. *)
Definition extract_subtitle_streams_from_file (file_path : pystr)
    : M (list ProbeStream) :=
  output ← run_command (mret (ffprobe file_path));
  match output with
  | None =>
      eprint (lit "Error: Failed to extract subtitle streams from file:"
                ++ [NL; 9%N] ++ file_path);;
      raise (SystemExit 1)
  | Some streams => mret streams
  end.

Definition extract_subtitle_streams_from_files (file_paths : list pystr)
    : M (list (list ProbeStream)) :=
  mapM extract_subtitle_streams_from_file file_paths.

(** [len(l)] in an f-string. *)
Definition str_of_len {A} (l : list A) : string :=
  NilZero.string_of_int (Z.to_int (Z.of_nat (length l))).

Definition main : M unit :=
  let current_dir := getcwd in
  let reference_mkv_files :=
    sorted_by_key (file_name_sorter lower)
      (glob (path_join current_dir (lit "*.mkv"))) in
  let target_sub_files :=
    sorted_by_key (file_name_sorter lower)
      (glob (path_join current_dir (lit "*.srt"))) in
  let target_sub_files :=
    if negb (length reference_mkv_files =? length target_sub_files)%nat
    then sorted_by_key (file_name_sorter lower)
           (glob (path_join current_dir (lit "*.srt"))
              ++ glob (path_join current_dir (lit "*.ass")))
    else target_sub_files in
  if negb (length reference_mkv_files =? length target_sub_files)%nat
  then raise (ValueError ("Number of video files ("
                            ++ str_of_len reference_mkv_files
                            ++ ") and subtitle files ("
                            ++ str_of_len target_sub_files
                            ++ ") do not match."))
  else
    reference_streams_per_file ←
      extract_subtitle_streams_from_files reference_mkv_files;
    '(reference_stream_indices, subtitle_codecs) ←
      get_subtitle_stream_indices order reference_streams_per_file;
    '(extracted_reference_files, cleanup_extracted_subs) ←
      extract_subtitles mkvextract reference_mkv_files subtitle_codecs
        reference_stream_indices;
    '(cleaned_reference_files, cleanup_cleaned_reference_subs) ←
      clean_tags extracted_reference_files;
    '(cleaned_target_files, cleanup_cleaned_target_subs) ←
      clean_up_japanese_subs target_sub_files;
    sync_subtitles alass cleaned_reference_files cleaned_target_files
      current_dir;;
    cleanup_extracted_subs;;
    cleanup_cleaned_reference_subs;;
    cleanup_cleaned_target_subs.

End Main.

End Main.
Export Main.

(** * The vocabulary of the properties, and example data *)

(** A run that only writes to the console. *)
Definition quiet (w w' : world) : Prop :=
  stdin w' = stdin w /\ fs w' = fs w /\ tmp_seq w' = tmp_seq w.

(** Every ranked style has its list of examples. *)
Definition examples_cover (sorted_styles : list (pystr * Z))
    (styles_examples : gmap pystr (list pystr)) : Prop :=
  forall entry, entry ∈ sorted_styles -> is_Some (styles_examples !! entry.1).

(** The position that a Python index denotes in a list of length [n]. *)
Definition position (n i : Z) : nat := Z.to_nat (if i <? 0 then i + n else i).

(** The style that index [i] selects in the ranked list. *)
Definition selected_style (sorted_styles : list (pystr * Z)) (i : Z) : pystr :=
  default [] (fst <$> sorted_styles !! position (Z.of_nat (length sorted_styles)) i).

(** A ranked list with its examples, and a console on which the given
    lines are typed. *)
Definition two_styles : list (pystr * Z) :=
  [(lit "Default", 3); (lit "Alt", 1)].
Definition two_styles_examples : gmap pystr (list pystr) :=
  <[lit "Default" := [lit "Hello there"]]> (<[lit "Alt" := [lit "Signs ahead"]]> ∅).
Definition console (lines : list string) : world :=
  {| stdin := lit <$> lines; stdout := []; stderr := []; fs := ∅; tmp_seq := 0 |}.

(** The lines of the listing of [prompt_stream_selection]. *)
Definition listing_lines (streams : list SubtitleStream) : list pystr :=
  (fun '(i, stream) => stream_line i stream ++ [NL]) <$> imap pair streams.

Definition selection_prompt : pystr := lit "Please choose subtitle to extract> ".

(** The console after the listing and the prompt, with one line read. *)
Definition after_prompt (streams : list SubtitleStream) (rest : list pystr)
    (w : world) : world :=
  set_stdin rest
    (set_stdout (stdout w ++ listing_lines streams ++ [selection_prompt]) w).

(** The batch of the specification's example: three files, each with
    the tracks (2, jpn, ass) and (3, eng, srt). *)
Definition jpn_ass : ProbeStream :=
  {| js_index := 2; js_codec_name := lit "ass"; js_title := None;
     js_language := Some (lit "jpn") |}.
Definition eng_srt : ProbeStream :=
  {| js_index := 3; js_codec_name := lit "srt"; js_title := None;
     js_language := Some (lit "eng") |}.
Definition three_files : list (list ProbeStream) :=
  replicate 3 [jpn_ass; eng_srt].

(** Two iteration orders: the distinct elements as [remove_dups] leaves
    them, and the same backwards. *)
Definition listed_order : SetOrder :=
  {| set_iter := remove_dups; set_iter_perm := fun l => Permutation_refl _ |}.
Definition reversed_order : SetOrder :=
  {| set_iter := fun l => reverse (remove_dups l);
     set_iter_perm := fun l => reverse_Permutation _ |}.

(** A dialogue line of the style [Default]. *)
Definition dialogue (t : pystr) : SSAEvent :=
  {| start := 0; end_ := 1000; text := t; style := lit "Default";
     is_comment := false |}.

(** The decisions that remove the symbols only. *)
Definition remove_symbols_only : gmap string bool :=
  <["special_symbols"%string := true]> ∅.

(** ♪ ♪ *)
Definition two_notes : SSAEvent := dialogue [0x266A; 32; 0x266A]%N.

(** Two characters next to each other somewhere in the text. *)
Fixpoint adjacent (a b : N) (s : pystr) : bool :=
  match s with
  | [] => false
  | x :: s' =>
      match s' with
      | y :: _ => (x =? a)%N && (y =? b)%N
      | [] => false
      end || adjacent a b s'
  end.

(** The first character of [out] is [r] or the first character of [s]. *)
Definition head_from (r : N) (s out : pystr) : Prop :=
  match out with
  | [] => True
  | h :: _ => h = r \/ head s = Some h
  end.

(** The line adds nothing to the samples of [collect_special_texts]: after
    the normalization of the line breaks it holds none of the symbols and
    none of the three patterns finds anything. *)
Definition no_category_match (text : pystr) : bool :=
  let text := normalize_breaks text in
  negb (has_symbol text)
  && negb (Re.search HEARING_IMPAIRED_REGEX text)
  && negb (Re.search FURIGANA_REGEX text)
  && negb (Re.search INITIAL_BRACKETS text).

(** What a stage returned, without the cleanup action. *)
Definition returned_paths {A} (r : result (list pystr * A) * world)
    : option (list pystr) :=
  match r with
  | (Ok (paths, _), _) => Some paths
  | _ => None
  end.

(** A file with one line, [(sighs\Ndeeply)], and an operator who presses
    Enter at every question. *)
Definition sighs_world : world :=
  {| stdin := [[]]; stdout := []; stderr := [];
     fs := <[lit "/subs/ep1.ass" := File [dialogue (lit "(sighs\Ndeeply)")]]> ∅;
     tmp_seq := 0 |}.

(** The styles counted by [analyze_line] are not ignored ones. *)
Definition counts_clean (acc : list (pystr * Z) * gmap pystr (list pystr))
    : Prop :=
  forall entry, entry ∈ acc.1 -> ignored_style entry.1 = false.

(** [m] keeps the property [I] of the world whenever it returns. *)
Definition preserves {A} (I : world -> Prop) (m : M A) : Prop :=
  forall w a w', I w -> m w = (Ok a, w') -> I w'.

(** The directory [d] exists. *)
Definition has_dir (d : pystr) (w : world) : Prop := fs w !! d = Some Dir.

(** What the specification asks of a cleanup action, as far as the code
    provides it: the stage made a new directory, which is there when the
    stage returns; the first call of the action removes it with all
    beneath it and touches nothing else; a second call raises
    [FileNotFoundError] and changes nothing. *)
Definition cleanup_contract (stage : M (list pystr * M unit)) : Prop :=
  forall w paths cleanup w1,
    stage w = (Ok (paths, cleanup), w1) ->
    exists temp_dir w2,
      fs w !! temp_dir = None /\
      has_dir temp_dir w1 /\
      cleanup w1 = (Ok tt, w2) /\
      (forall path, beneath temp_dir path = true -> fs w2 !! path = None) /\
      (forall path, beneath temp_dir path = false ->
                    fs w2 !! path = fs w1 !! path) /\
      cleanup w2 = (Raise (FileNotFoundError temp_dir), w2).

(** The file at [path] is a subtitle document without a line of an
    ignored style. *)
Definition saved_without_ignored (path : pystr) (w : world) : Prop :=
  exists doc,
    fs w !! path = Some (File doc) /\
    forall line, line ∈ doc -> ignored_style (style line) = false.

(** A file with a dialogue line and a line of the style [Signs - Main];
    the operator presses Enter. *)
Definition signs_world : world :=
  {| stdin := [[]]; stdout := []; stderr := [];
     fs := <[lit "/subs/ep1.ass" :=
               File [dialogue (lit "Hello there");
                     {| start := 0; end_ := 1000; text := lit "EXIT";
                        style := lit "Signs - Main"; is_comment := false |}]]> ∅;
     tmp_seq := 0 |}.

(** ** The vocabulary of the further properties *)

(** [m] takes every world to one related to it by [R], however it ends. *)
Definition always {A} (R : world -> world -> Prop) (m : M A) : Prop :=
  forall w r w', m w = (r, w') -> R w w'.

(** The file system is as before. *)
Definition fs_same (w w' : world) : Prop := fs w' = fs w.

(** The console input is as before. *)

(** The number of files for which [prompt_stream_selection] asks: those
    whose distinct descriptors are not exactly one. *)
Definition asks (order : SetOrder) (file_streams : list ProbeStream) : bool :=
  negb (length (set_iter order (get_unique_streams file_streams)) =? 1)%nat.

(** The text neither begins nor ends with whitespace. *)
Definition trimmed (s : pystr) : Prop :=
  (forall c, head s = Some c -> isspace c = false) /\
  (forall c, last s = Some c -> isspace c = false).

(** One of the characters of [SYMBOLS_TO_DELETE]. *)
Definition is_symbol (c : N) : bool := bool_decide ([c] ∈ SYMBOLS_TO_DELETE).

(** The samples of a category as a comprehension: the normalized texts of
    the lines, in the order of the document, that removing the matches of
    [regex] changes, each paired with [regex]. *)
Definition sampled (regex : Re.matcher) (subtitle : SSAFile)
    : list (pystr * Re.matcher) :=
  (fun t => (t, regex)) <$>
  List.filter (fun t => negb (bool_decide (Re.sub regex [] t = t)))
    ((fun line => normalize_breaks (text line)) <$> subtitle).

(** The files [files] hold the documents [docs], one for one. *)
Definition loaded (w : world) (files : list pystr) (docs : list SSAFile)
    : Prop :=
  Forall2 (fun file doc => fs w !! file = Some (File doc)) files docs.

(** The lines of the documents that the style analysis does not skip. *)
Definition counted (docs : list SSAFile) : list SSAEvent :=
  List.filter (fun line => negb (ignored_style (style line))) (concat docs).

Definition lines_of_style (s : pystr) (lines : list SSAEvent)
    : list SSAEvent :=
  List.filter (fun line => bool_decide (style line = s)) lines.

(** [styles_counts.get(style, 0)] *)
Fixpoint lookup_count (s : pystr) (styles_counts : list (pystr * Z)) : Z :=
  match styles_counts with
  | [] => 0
  | (k, n) :: rest => if decide (k = s) then n else lookup_count s rest
  end.

(** The name that [mkdtemp] takes in the world [w]. *)
Definition staging (prefix : pystr) (w : world) : pystr :=
  lit "/tmp/" ++ prefix ++ str_of_Z (Z.of_nat (tmp_seq w)).

(** Whatever is not [d] and not beneath it is in [w'] as it is in [w]. *)
Definition outside_same (d : pystr) (w w' : world) : Prop :=
  forall path, beneath d path = false -> fs w' !! path = fs w !! path.

(** The directory [d], if it is there in [w], is there in [w']. *)
Definition dir_stays (d : pystr) (w w' : world) : Prop :=
  has_dir d w -> has_dir d w'.

(** A stage with the staging prefix [prefix] touches nothing outside its
    staging directory, whether it returns or raises. *)
Definition stage_frame {A} (prefix : pystr) (stage : M A) : Prop :=
  forall w r w',
    stage w = (r, w') -> outside_same (staging prefix w) w w'.

(** Nothing is at the name that the staging directory is going to take,
    nor beneath it. *)
Definition staging_free (prefix : pystr) (w : world) : Prop :=
  forall path, beneath (staging prefix w) path = true -> fs w !! path = None.

(** A stage followed by its cleanup action leaves the file system as it
    was, when nothing lay beneath the name of the staging directory. *)
Definition stage_round_trip (prefix : pystr)
    (stage : M (list pystr * M unit)) : Prop :=
  forall w paths cleanup w1,
    staging_free prefix w ->
    stage w = (Ok (paths, cleanup), w1) ->
    exists w2, cleanup w1 = (Ok tt, w2) /\ fs w2 = fs w.

(** The file system after the files [saved], paths with their documents,
    have been written one after the other. *)
Definition with_files (saved : list (pystr * SSAFile)) (m : gmap pystr node)
    : gmap pystr node :=
  foldl (fun m pd => <[pd.1 := File pd.2]> m) m saved.

(** A stage that raises after it made its staging directory leaves the
    directory behind. *)
Definition stage_residue {A} (prefix : pystr) (stage : M A) : Prop :=
  forall w e w',
    fs w !! staging prefix w = None ->
    stage w = (Raise e, w') ->
    has_dir (staging prefix w) w'.

Definition stderr_same (w w' : world) : Prop := stderr w' = stderr w.

(** [m] raises only exceptions with the property [P]. *)
Definition raises_only {A} (P : exn -> Prop) (m : M A) : Prop :=
  forall w e w', m w = (Raise e, w') -> P e.

(** The samples of a category from all documents, as
    [clean_up_japanese_subs] gathers them. *)
Definition samples (regex : Re.matcher) (docs : list SSAFile)
    : list (pystr * Re.matcher) :=
  concat (sampled regex <$> docs).

Definition has_samples (regex : Re.matcher) (docs : list SSAFile) : bool :=
  match samples regex docs with [] => false | _ => true end.

(** The number of categories the operator is asked about. *)
Definition questions (docs : list SSAFile) : nat :=
  length (List.filter (fun regex => has_samples regex docs)
            [HEARING_IMPAIRED_REGEX; SYMBOLS_REGEX; FURIGANA_REGEX;
             INITIAL_BRACKETS]).

(** The lengths of the maximal runs of decimal digits of a text, from
    left to right; [cur] digits of the current run have been read. *)
Fixpoint run_lengths_go (cur : nat) (s : pystr) : list nat :=
  match s with
  | [] => match cur with O => [] | _ => [cur] end
  | c :: s' =>
      if isdecimal c then run_lengths_go (S cur) s'
      else match cur with
           | O => run_lengths_go O s'
           | _ => cur :: run_lengths_go O s'
           end
  end.

Definition run_lengths (s : pystr) : list nat := run_lengths_go 0 s.

Definition ascii_digit (c : N) : bool := ((48 <=? c) && (c <=? 57))%N.

(** The number that a text of the digits [0] to [9] denotes. *)
Definition digits_value (s : pystr) : N :=
  fold_left (fun acc c => 10 * acc + (c - 48))%N s 0%N.

(** [str.lower] on texts whose only cased characters are the letters [A]
    to [Z]. *)
Definition ascii_lower (s : pystr) : pystr :=
  (fun c => if (65 <=? c)%N && (c <=? 90)%N then (c + 32)%N else c) <$> s.

(** The text does not end, respectively begin, with a decimal digit. *)
Definition ends_plain (s : pystr) : Prop :=
  forall c, last s = Some c -> isdecimal c = false.

Definition starts_plain (s : pystr) : Prop :=
  forall c, head s = Some c -> isdecimal c = false.

(** The paths that the three stages use for their staging directories
    and the files in them. *)
Definition is_staging_path (path : pystr) : bool :=
  existsb (fun prefix => startswith (lit "/tmp/" ++ prefix) path)
    [lit "subtitle_extraction"; lit "cleaned_subtitles_"; lit "cleaned_subs_"].

(** No staging directory of an earlier run, and nothing of one, is
    left. *)
Definition tmp_clean (w : world) : Prop :=
  forall path, is_staging_path path = true -> fs w !! path = None.

(** A directory with one video and one subtitle file for it, and an
    operator who presses Enter. *)
Definition videos_world : world :=
  {| stdin := [[]]; stdout := []; stderr := [];
     fs := <[lit "/videos/ep1.srt" := File [dialogue (lit "Hello there")]]> ∅;
     tmp_seq := 0 |}.

Definition videos_glob (pattern : pystr) : list pystr :=
  if bool_decide (pattern = lit "/videos/*.mkv") then [lit "/videos/ep1.mkv"]
  else if bool_decide (pattern = lit "/videos/*.srt")
       then [lit "/videos/ep1.srt"]
       else [].

(** * Properties *)

(** ** Running monadic code *)

Section MonadFacts.
Context {A B : Type}.

Lemma bind_eq (m : M A) (f : A -> M B) (w : world) :
  (m ≫= f) w =
  match m w with
  | (Ok a, w') => f a w'
  | (Raise e, w') => (Raise e, w')
  end.
Proof. reflexivity. Qed.

Lemma bind_ok (m : M A) (f : A -> M B) w a w1 :
  m w = (Ok a, w1) -> (m ≫= f) w = f a w1.
Proof. intros H. rewrite bind_eq, H. reflexivity. Qed.

Lemma bind_raise (m : M A) (f : A -> M B) w e w1 :
  m w = (Raise e, w1) -> (m ≫= f) w = (Raise e, w1).
Proof. intros H. rewrite bind_eq, H. reflexivity. Qed.

Lemma bind_inv_ok (m : M A) (f : A -> M B) w b w' :
  (m ≫= f) w = (Ok b, w') ->
  exists a w1, m w = (Ok a, w1) /\ f a w1 = (Ok b, w').
Proof.
  rewrite bind_eq. destruct (m w) as [[a|e] w1]; [eauto | discriminate].
Qed.

End MonadFacts.

(** Splits a successful run of [x ← m; k] into the run of [m] and that of
    [k]. *)
Ltac inv_bind H :=
  let a := fresh "a" in
  let w := fresh "w" in
  let H1 := fresh H in
  apply bind_inv_ok in H; destruct H as (a & w & H1 & H).

Lemma quiet_refl w : quiet w w.
Proof. repeat split. Qed.

Lemma quiet_trans w1 w2 w3 : quiet w1 w2 -> quiet w2 w3 -> quiet w1 w3.
Proof. unfold quiet. intros (?&?&?) (?&?&?). repeat split; congruence. Qed.

Lemma print_quiet s w : exists w', print s w = (Ok tt, w') /\ quiet w w'.
Proof. eexists. split; [reflexivity | repeat split]. Qed.

Lemma foldM_print_quiet {A} (line : A -> pystr) (l : list A) w :
  exists w', foldM (fun _ x => print (line x)) tt l w = (Ok tt, w') /\ quiet w w'.
Proof.
  revert w. induction l as [|x l IH]; intros w; simpl.
  - eexists. split; [reflexivity | apply quiet_refl].
  - destruct (print_quiet (line x) w) as (w1 & H1 & Q1).
    destruct (IH w1) as (w2 & H2 & Q2).
    exists w2. split; [| eapply quiet_trans; eauto].
    erewrite bind_ok by exact H1. exact H2.
Qed.

Lemma input_run prompt w line rest :
  stdin w = line :: rest ->
  exists w', input prompt w = (Ok line, w') /\ stdin w' = rest /\
             fs w' = fs w /\ tmp_seq w' = tmp_seq w.
Proof.
  intros H. unfold input. rewrite H. eexists. split; [reflexivity|]. repeat split.
Qed.

(** ** The style filter: the keep-set *)

Lemma listing_quiet (styles_examples : gmap pystr (list pystr))
    (l : list (nat * (pystr * Z))) w :
  (forall x, x ∈ l -> is_Some (styles_examples !! x.2.1)) ->
  exists w',
    foldM (fun _ '(i, (style, count)) =>
             print (lit "[" ++ str_of_Z (Z.of_nat i) ++ lit "] "
                      ++ str_of_Z count ++ lit " times; " ++ style);;
             examples ← match styles_examples !! style with
                        | Some l => mret l
                        | None => raise (KeyError style)
                        end;
             foldM (fun _ example => print ([9; 9; 9]%N ++ example)) tt examples)
      tt l w = (Ok tt, w') /\ quiet w w'.
Proof.
  revert w. induction l as [|[i [sty cnt]] l IH]; intros w Hc; simpl.
  - eexists. split; [reflexivity | apply quiet_refl].
  - destruct (Hc (i, (sty, cnt))) as [ex Hex]; [left|]. simpl in Hex.
    match goal with |- context [print ?s] =>
      destruct (print_quiet s w) as (w1 & H1 & Q1) end.
    destruct (foldM_print_quiet (fun e => [9; 9; 9]%N ++ e) ex w1)
      as (w2 & H2 & Q2).
    destruct (IH w2) as (w3 & H3 & Q3).
    { intros x Hx. apply Hc. right. exact Hx. }
    exists w3. split.
    + erewrite bind_ok; [exact H3|].
      erewrite bind_ok by exact H1. rewrite Hex.
      erewrite bind_ok by reflexivity. exact H2.
    + eauto using quiet_trans.
Qed.

Lemma imap_pair_snd {A} (l : list A) x :
  x ∈ imap pair l -> x.2 ∈ l.
Proof.
  intros H. apply list_elem_of_lookup in H as [i Hi].
  rewrite list_lookup_imap in Hi.
  destruct (l !! i) as [y|] eqn:E; simpl in Hi; [|discriminate].
  injection Hi as <-. simpl. eapply list_elem_of_lookup_2; eauto.
Qed.

(** The run of [get_styles_to_keep] up to the answer of the user. *)
Lemma get_styles_to_keep_run sorted_styles styles_examples w line rest :
  examples_cover sorted_styles styles_examples ->
  stdin w = line :: rest ->
  exists w',
    stdin w' = rest /\ fs w' = fs w /\ tmp_seq w' = tmp_seq w /\
    get_styles_to_keep sorted_styles styles_examples w =
    match strip line with
    | [] => mret (fst <$> sorted_styles)
    | _ =>
        tag_indices ← mapM int (split (strip line));
        mapM (fun i => entry ← getitem sorted_styles i; mret (fst entry))
          tag_indices
    end w'.
Proof.
  intros Hc Hin. unfold get_styles_to_keep.
  match goal with |- context [print ?s] =>
    destruct (print_quiet s w) as (w1 & H1 & Q1) end.
  destruct (listing_quiet styles_examples (imap pair sorted_styles) w1)
    as (w2 & H2 & Q2).
  { intros x Hx. apply Hc. apply imap_pair_snd. exact Hx. }
  assert (Q : quiet w w2) by eauto using quiet_trans.
  destruct Q as (Qi & Qf & Qt).
  match goal with |- context [input ?p] =>
    destruct (input_run p w2 line rest) as (w3 & H3 & I3 & F3 & T3) end.
  { congruence. }
  exists w3. repeat split; [congruence .. |].
  erewrite bind_ok by exact H1.
  erewrite bind_ok by exact H2.
  erewrite bind_ok by exact H3. reflexivity.
Qed.

(** [int] and list indexing do not touch the world. *)
Lemma int_run token w :
  int token w =
  match py_int token with
  | Some i => (Ok i, w)
  | None => (Raise (InvalidLiteral token), w)
  end.
Proof. unfold int. destruct (py_int token); reflexivity. Qed.

Lemma getitem_in_range {A} (l : list A) (i : Z) w :
  - Z.of_nat (length l) <= i < Z.of_nat (length l) ->
  exists x, l !! position (Z.of_nat (length l)) i = Some x /\
            getitem l i w = (Ok x, w).
Proof.
  intros Hi. unfold getitem, position.
  set (j := if i <? 0 then i + Z.of_nat (length l) else i).
  assert (Hj : 0 <= j < Z.of_nat (length l)).
  { subst j. destruct (Z.ltb_spec i 0); lia. }
  destruct (Z.leb_spec 0 j); [|lia].
  destruct (Z.ltb_spec j (Z.of_nat (length l))); [|lia]. simpl.
  destruct (l !! Z.to_nat j) as [x|] eqn:E.
  - exists x. split; reflexivity.
  - apply lookup_ge_None in E. lia.
Qed.

Lemma getitem_out_of_range {A} (l : list A) (i : Z) w :
  ~ (- Z.of_nat (length l) <= i < Z.of_nat (length l)) ->
  getitem l i w = (Raise IndexError, w).
Proof.
  intros Hi. unfold getitem.
  set (j := if i <? 0 then i + Z.of_nat (length l) else i).
  assert (Hj : ~ (0 <= j < Z.of_nat (length l))).
  { subst j. destruct (Z.ltb_spec i 0); lia. }
  destruct (Z.leb_spec 0 j); simpl; [|reflexivity].
  destruct (Z.ltb_spec j (Z.of_nat (length l))); [lia | reflexivity].
Qed.

Lemma getitem_inv {A} (l : list A) (i : Z) w x w' :
  getitem l i w = (Ok x, w') -> w' = w /\ x ∈ l.
Proof.
  unfold getitem. intros H.
  destruct (_ && _); [|discriminate].
  destruct (l !! _) as [y|] eqn:E; [|discriminate].
  injection H as <- <-. split; [reflexivity|].
  eapply list_elem_of_lookup_2; eauto.
Qed.

Lemma mapM_int_ok tokens indices w :
  Forall2 (fun token i => py_int token = Some i) tokens indices ->
  mapM int tokens w = (Ok indices, w).
Proof.
  induction 1 as [|t i ts js Ht _ IH]; [reflexivity|].
  simpl. erewrite bind_ok by (rewrite int_run, Ht; reflexivity).
  erewrite bind_ok by exact IH. reflexivity.
Qed.

Lemma mapM_int_raise tokens w :
  Exists (fun token => py_int token = None) tokens ->
  exists bad, bad ∈ tokens /\ py_int bad = None /\
              mapM int tokens w = (Raise (InvalidLiteral bad), w).
Proof.
  induction tokens as [|t ts IH]; intros H; [inversion H|].
  simpl. destruct (py_int t) as [i|] eqn:E.
  - assert (Hts : Exists (fun token => py_int token = None) ts).
    { inversion H; subst; [congruence | assumption]. }
    destruct (IH Hts) as (bad & Hb & Hn & Hr).
    exists bad. split; [right; exact Hb|]. split; [exact Hn|].
    erewrite bind_ok by (rewrite int_run, E; reflexivity).
    erewrite bind_raise by exact Hr. reflexivity.
  - exists t. split; [left|]. split; [exact E|].
    erewrite bind_raise by (rewrite int_run, E; reflexivity). reflexivity.
Qed.

Lemma mapM_getitem_ok (sorted_styles : list (pystr * Z)) indices w :
  Forall (fun i => - Z.of_nat (length sorted_styles) <= i
                   < Z.of_nat (length sorted_styles)) indices ->
  mapM (fun i => entry ← getitem sorted_styles i; mret (fst entry)) indices w
  = (Ok (selected_style sorted_styles <$> indices), w).
Proof.
  induction 1 as [|i js Hi _ IH]; [reflexivity|].
  simpl. destruct (getitem_in_range sorted_styles i w Hi) as (x & Hx & Hg).
  erewrite bind_ok.
  2:{ erewrite bind_ok by exact Hg. reflexivity. }
  erewrite bind_ok by exact IH.
  unfold selected_style at 2. rewrite Hx. reflexivity.
Qed.

Lemma mapM_getitem_raise (sorted_styles : list (pystr * Z)) indices w :
  Exists (fun i => ~ (- Z.of_nat (length sorted_styles) <= i
                      < Z.of_nat (length sorted_styles))) indices ->
  mapM (fun i => entry ← getitem sorted_styles i; mret (fst entry)) indices w
  = (Raise IndexError, w).
Proof.
  induction indices as [|i js IH]; intros H; [inversion H|].
  simpl.
  destruct (decide (- Z.of_nat (length sorted_styles) <= i
                    < Z.of_nat (length sorted_styles))) as [Hi|Hi].
  - destruct (getitem_in_range sorted_styles i w Hi) as (x & Hx & Hg).
    erewrite bind_ok.
    2:{ erewrite bind_ok by exact Hg. reflexivity. }
    erewrite bind_raise; [reflexivity|]. apply IH.
    inversion H; subst; [contradiction | assumption].
  - erewrite bind_raise; [reflexivity|].
    erewrite bind_raise; [reflexivity|].
    apply getitem_out_of_range. exact Hi.
Qed.

(** The list comprehension of [clean_tags] keeps the lines whose style is
    in the keep-set, in their order. *)
Lemma filter_styles_spec styles_to_keep subtitle line :
  line ∈ filter_styles styles_to_keep subtitle <->
  line ∈ subtitle /\ style line ∈ styles_to_keep.
Proof.
  unfold filter_styles. rewrite !list_elem_of_In, filter_In, <- !list_elem_of_In.
  rewrite bool_decide_eq_true. reflexivity.
Qed.


(** C10. Keep-selection indexing: a non-empty answer is cut at whitespace,
    every token goes through [int], and the integers index the ranked list
    as Python does: an index [i] with [-n <= i < n] selects a style, a
    negative one counted from the end; an index outside that range raises
    [IndexError], a token that is not an integer raises the [ValueError]
    of [int]; nothing in [get_styles_to_keep] catches either. *)
Theorem C10_keep_selection_indexing sorted_styles styles_examples w line rest :
  examples_cover sorted_styles styles_examples ->
  stdin w = line :: rest ->
  strip line <> [] ->
  let n := Z.of_nat (length sorted_styles) in
  let tokens := split (strip line) in
  exists w',
    stdin w' = rest /\
    (forall indices,
       Forall2 (fun token i => py_int token = Some i) tokens indices ->
       Forall (fun i => - n <= i < n) indices ->
       get_styles_to_keep sorted_styles styles_examples w
       = (Ok (selected_style sorted_styles <$> indices), w')) /\
    (forall i, - n <= i < 0 ->
       selected_style sorted_styles i = selected_style sorted_styles (n + i)) /\
    (forall indices,
       Forall2 (fun token i => py_int token = Some i) tokens indices ->
       Exists (fun i => ~ (- n <= i < n)) indices ->
       get_styles_to_keep sorted_styles styles_examples w
       = (Raise IndexError, w')) /\
    (Exists (fun token => py_int token = None) tokens ->
     exists bad,
       bad ∈ tokens /\ py_int bad = None /\
       get_styles_to_keep sorted_styles styles_examples w
       = (Raise (InvalidLiteral bad), w')).
Proof.
  intros Hc Hin Hne n tokens.
  destruct (get_styles_to_keep_run _ _ _ _ _ Hc Hin) as (w' & Hi & _ & _ & Hr).
  destruct (strip line) as [|c s] eqn:E; [congruence|].
  exists w'. split; [exact Hi|]. repeat split.
  - intros indices Hp Hrange. rewrite Hr.
    erewrite bind_ok by (apply mapM_int_ok; exact Hp).
    apply mapM_getitem_ok. exact Hrange.
  - intros i Hi'. unfold selected_style, position. fold n.
    destruct (Z.ltb_spec i 0); [|lia].
    destruct (Z.ltb_spec (n + i) 0); [lia|].
    rewrite (Z.add_comm i n). reflexivity.
  - intros indices Hp Hrange. rewrite Hr.
    erewrite bind_ok by (apply mapM_int_ok; exact Hp).
    apply mapM_getitem_raise. exact Hrange.
  - intros Hbad. destruct (mapM_int_raise tokens w' Hbad) as (bad & Hb & Hn & Hm).
    exists bad. split; [exact Hb|]. split; [exact Hn|].
    rewrite Hr. erewrite bind_raise by exact Hm. reflexivity.
Qed.

(** The handler of [clean_tags] reports on [stderr] and raises the
    exception again: what the [try] block raises, [clean_tags] raises. *)
Lemma clean_tags_reraises subtitle_list w temp_dir w1 e w2 :
  mkdtemp (lit "cleaned_subtitles_") w = (Ok temp_dir, w1) ->
  clean_tags_body temp_dir subtitle_list w1 = (Raise e, w2) ->
  exists w3, clean_tags subtitle_list w = (Raise e, w3).
Proof.
  intros Hd Hb. unfold clean_tags. erewrite bind_ok by exact Hd.
  unfold try_except. rewrite Hb.
  destruct (is_Exception e); eexists; reflexivity.
Qed.

Lemma two_styles_cover : examples_cover two_styles two_styles_examples.
Proof.
  intros entry H. unfold two_styles in H.
  apply list_elem_of_In in H. simpl in H.
  destruct H as [<- | [<- | []]]; eexists; vm_compute; reflexivity.
Defined.


Lemma C10_keep_selection_indexing_witness :
  exists w',
    get_styles_to_keep two_styles two_styles_examples (console ["-1 0"%string])
    = (Ok [lit "Alt"; lit "Default"], w').
Proof.
  destruct (C10_keep_selection_indexing two_styles two_styles_examples
              (console ["-1 0"%string]) (lit "-1 0") [] two_styles_cover
              eq_refl ltac:(discriminate)) as (w' & _ & H & _).
  exists w'. apply (H [-1; 0]).
  - repeat constructor.
  - repeat constructor; simpl; lia.
Defined.

(** ** The stream selector *)

Lemma set_stdout_twice a b w : set_stdout a (set_stdout b w) = set_stdout a w.
Proof. reflexivity. Qed.

Lemma set_stdout_same w : set_stdout (stdout w) w = w.
Proof. destruct w; reflexivity. Qed.

(** What a loop of [print] calls leaves on the console. *)
Lemma foldM_print_run {A} (line : A -> pystr) (l : list A) w :
  foldM (fun _ x => print (line x)) tt l w
  = (Ok tt, set_stdout (stdout w ++ ((fun x => line x ++ [NL]) <$> l)) w).
Proof.
  revert w. induction l as [|x l IH]; intros w; simpl.
  - rewrite app_nil_r, set_stdout_same. reflexivity.
  - erewrite bind_ok by reflexivity. rewrite IH. simpl.
    rewrite set_stdout_twice, <- app_assoc. reflexivity.
Qed.

Lemma prompt_listing_run (streams : list SubtitleStream) w :
  foldM (fun _ '(i, stream) => print (stream_line i stream)) tt
    (imap pair streams) w
  = (Ok tt, set_stdout (stdout w ++ listing_lines streams) w).
Proof.
  unfold listing_lines. generalize (imap pair streams). intros l.
  revert w. induction l as [|[i s] l IH]; intros w; simpl.
  - rewrite app_nil_r, set_stdout_same. reflexivity.
  - erewrite bind_ok by reflexivity. rewrite IH. simpl.
    rewrite set_stdout_twice, <- app_assoc. reflexivity.
Qed.

(** With one candidate there is no interaction. *)
Lemma prompt_single_run stream w :
  prompt_stream_selection [stream] w = (Ok stream, w).
Proof. reflexivity. Qed.

(** With none or several, the listing and the prompt are written, one
    line is read, and the line decides. *)
Lemma prompt_multi_run streams w line rest :
  length streams <> 1%nat ->
  stdin w = line :: rest ->
  prompt_stream_selection streams w
  = (choice ← int line; getitem streams choice) (after_prompt streams rest w).
Proof.
  intros Hn Hin. unfold prompt_stream_selection.
  destruct (Nat.eqb_spec (length streams) 1); [contradiction|].
  erewrite bind_ok by apply prompt_listing_run.
  erewrite bind_ok; [reflexivity|].
  unfold input. simpl. rewrite Hin. unfold after_prompt.
  rewrite <- app_assoc. reflexivity.
Qed.

Lemma prompt_inv streams w selected w' :
  prompt_stream_selection streams w = (Ok selected, w') -> selected ∈ streams.
Proof.
  unfold prompt_stream_selection. intros H.
  destruct (length streams =? 1)%nat.
  - apply getitem_inv in H. tauto.
  - inv_bind H. inv_bind H. inv_bind H. apply getitem_inv in H. tauto.
Qed.

Lemma set_iter_elem order l x : x ∈ set_iter order l <-> x ∈ l.
Proof. rewrite (set_iter_perm order l). apply elem_of_remove_dups. Qed.

(** A successful [mapM] ran its body successfully on every element. *)
Lemma mapM_inv_ok {A B} (f : A -> M B) l w r w' :
  mapM f l w = (Ok r, w') ->
  Forall2 (fun x y => exists w1 w2, f x w1 = (Ok y, w2)) l r.
Proof.
  revert w r w'. induction l as [|x l IH]; intros w r w' H; simpl in H.
  - injection H as <- <-. constructor.
  - inv_bind H. inv_bind H. injection H as <- <-.
    constructor; [eauto | eapply IH; eauto].
Qed.


Lemma length_remove_dups_le `{EqDecision A} (l : list A) :
  (length (remove_dups l) <= length l)%nat.
Proof.
  induction l as [|x l IH]; simpl; [lia|].
  destruct (decide_rel _ x l); simpl; lia.
Qed.

Lemma listing_length_le order l :
  (length (set_iter order l) <= length l)%nat.
Proof.
  rewrite (Permutation_length (set_iter_perm order l)).
  apply length_remove_dups_le.
Qed.

(** The uniform-multi case of the selector: the list is presented, one
    line is read, and the descriptor at the chosen position is applied to
    every file. *)
Lemma uniform_multi_run order first others w line rest choice :
  let files := first :: others in
  let listing := set_iter order (get_unique_streams first) in
  let n := Z.of_nat (length listing) in
  Forall (fun file_streams => length file_streams = length first) others ->
  (1 < length listing)%nat ->
  stdin w = line :: rest ->
  py_int line = Some choice ->
  - n <= choice < n ->
  exists selected,
    listing !! position n choice = Some selected /\
    get_subtitle_stream_indices order files w
    = (Ok (replicate (length files) (index selected),
           replicate (length files) (codec selected)),
       after_prompt listing rest w).
Proof.
  intros files listing n Hsame Hmany Hin Hint Hrange.
  assert (Hfirst : (1 < length first)%nat).
  { pose proof (listing_length_le order (get_unique_streams first)) as Hle.
    unfold get_unique_streams in Hle at 2. rewrite length_fmap in Hle.
    fold listing in Hle. lia. }
  destruct (getitem_in_range listing choice (after_prompt listing rest w) Hrange)
    as (selected & Hsel & Hget).
  exists selected. split; [exact Hsel|].
  unfold get_subtitle_stream_indices, files. cbv beta iota. fold files.
  assert (E1 : forallb (fun file_streams : list ProbeStream =>
                          (length file_streams =? 1)%nat) files = false).
  { simpl. destruct (Nat.eqb_spec (length first) 1); [lia | reflexivity]. }
  assert (E2 : forallb (fun file_streams : list ProbeStream =>
                          (length file_streams =? length first)%nat) files = true).
  { simpl. rewrite Nat.eqb_refl. simpl. apply forallb_forall.
    intros x Hx. apply Nat.eqb_eq.
    rewrite Forall_forall in Hsame. apply Hsame. apply list_elem_of_In. exact Hx. }
  rewrite E1, E2. fold listing.
  erewrite bind_ok; [reflexivity|].
  rewrite (prompt_multi_run listing w line rest) by first [lia | exact Hin].
  erewrite bind_ok by (rewrite int_run, Hint; reflexivity).
  exact Hget.
Qed.

(** C1 (amended). Uniform-multi broadcast: when every file has the same
    number of candidates and the first file has more than one distinct
    descriptor, the selector lists the distinct descriptors of the first
    file, one line [[idx] Stream <track>: <name> (<codec>)] each, in the
    iteration order of the set, reads one index, and applies the index
    and codec of the descriptor listed at that position to all files. *)
Theorem C1_uniform_multi_broadcast order first others w line rest choice :
  let files := first :: others in
  let listing := set_iter order (get_unique_streams first) in
  let n := Z.of_nat (length listing) in
  Forall (fun file_streams => length file_streams = length first) others ->
  (1 < length listing)%nat ->
  stdin w = line :: rest ->
  py_int line = Some choice ->
  - n <= choice < n ->
  listing ≡ₚ remove_dups (get_unique_streams first) /\
  (forall i stream,
     listing !! i = Some stream ->
     listing_lines listing !! i
     = Some (lit "[" ++ str_of_Z (Z.of_nat i) ++ lit "] Stream "
               ++ str_of_Z (index stream) ++ lit ": " ++ name stream
               ++ lit " (" ++ codec stream ++ lit ")" ++ [NL])) /\
  exists selected,
    listing !! position n choice = Some selected /\
    get_subtitle_stream_indices order files w
    = (Ok (replicate (length files) (index selected),
           replicate (length files) (codec selected)),
       after_prompt listing rest w).
Proof.
  intros files listing n Hsame Hmany Hin Hint Hrange.
  split; [apply set_iter_perm|]. split.
  - intros i stream Hi. unfold listing_lines.
    rewrite list_lookup_fmap, list_lookup_imap, Hi.
    cbv [fmap option_fmap option_map]. f_equal.
    unfold stream_line. rewrite <- !app_assoc. reflexivity.
  - exact (uniform_multi_run order first others w line rest choice
             Hsame Hmany Hin Hint Hrange).
Qed.

Lemma C1_uniform_multi_broadcast_witness :
  exists w',
    get_subtitle_stream_indices listed_order three_files (console ["0"%string])
    = (Ok ([2; 2; 2], [lit "ass"; lit "ass"; lit "ass"]), w').
Proof.
  destruct (C1_uniform_multi_broadcast listed_order [jpn_ass; eng_srt]
              (replicate 2 [jpn_ass; eng_srt]) (console ["0"%string])
              (lit "0") [] 0)
    as (_ & _ & selected & Hsel & Hrun).
  - repeat constructor.
  - vm_compute. lia.
  - reflexivity.
  - reflexivity.
  - vm_compute. split; [discriminate | reflexivity].
  - vm_compute in Hsel. injection Hsel as <-. eexists. exact Hrun.
Defined.

(** With the set iterated the other way round, index 0 of the same batch
    is the track (3, eng, srt): all three files resolve to (3, srt), not
    to (2, ass). *)
Lemma C1_counterexample :
  exists order w',
    get_subtitle_stream_indices order three_files (console ["0"%string])
    = (Ok ([3; 3; 3], [lit "srt"; lit "srt"; lit "srt"]), w') /\
    forall w'',
      get_subtitle_stream_indices order three_files (console ["0"%string])
      <> (Ok ([2; 2; 2], [lit "ass"; lit "ass"; lit "ass"]), w'').
Proof.
  exists reversed_order.
  eexists. split; [vm_compute; reflexivity|].
  intros w'' H. vm_compute in H. discriminate H.
Qed.


(** For the same batch and answer, whatever the iteration order, all
    three files resolve to one of the two tracks. *)
Lemma three_files_resolution order w rest :
  stdin w = lit "0" :: rest ->
  exists track w',
    get_subtitle_stream_indices order three_files w
    = (Ok (replicate 3 (js_index track), replicate 3 (js_codec_name track)), w') /\
    (track = jpn_ass \/ track = eng_srt).
Proof.
  intros Hin.
  set (listing := set_iter order (get_unique_streams [jpn_ass; eng_srt])).
  assert (Hp : listing ≡ₚ [from_ffprobe_stream jpn_ass; from_ffprobe_stream eng_srt]).
  { unfold listing. rewrite set_iter_perm. vm_compute. reflexivity. }
  assert (Hl : length listing = 2%nat) by (rewrite Hp; reflexivity).
  destruct (uniform_multi_run order [jpn_ass; eng_srt]
              (replicate 2 [jpn_ass; eng_srt]) w (lit "0") rest 0)
    as (selected & Hsel & Hrun).
  - repeat constructor.
  - fold listing. lia.
  - exact Hin.
  - reflexivity.
  - fold listing. lia.
  - apply list_elem_of_lookup_2 in Hsel. fold listing in Hsel.
    rewrite Hp in Hsel. apply list_elem_of_In in Hsel. simpl in Hsel.
    destruct Hsel as [<- | [<- | []]].
    + exists jpn_ass. eexists. split; [exact Hrun | left; reflexivity].
    + exists eng_srt. eexists. split; [exact Hrun | right; reflexivity].
Qed.

(** No file at all is reported as a configuration error. *)
Lemma selector_no_files order w :
  get_subtitle_stream_indices order [] w
  = (Raise (ValueError "No subtitle streams found"), w).
Proof. reflexivity. Qed.

(** Two files without a subtitle stream, and the answer 0. *)
Lemma two_empty_files_index_error :
  get_subtitle_stream_indices listed_order [[]; []] (console ["0"%string])
  = (Raise IndexError,
     {| stdin := []; stdout := [selection_prompt]; stderr := []; fs := ∅;
        tmp_seq := 0 |}).
Proof. vm_compute. reflexivity. Qed.

Lemma forallb_replicate {A} (f : A -> bool) n x :
  f x = true -> forallb f (replicate n x) = true.
Proof. intros H. induction n; simpl; [reflexivity | rewrite H; exact IHn]. Qed.

(** C6, at the failing input. When there are files and none of them has
    a subtitle stream, the selector takes the uniform-multi branch: it
    prints the prompt under an empty listing, reads an answer, and fails
    on it with [IndexError] (or with the [ValueError] of [int], or
    [EOFError]), not with the configuration error ["No subtitle streams
    found"] that it raises when there is no file. *)
Theorem C6_no_streams_in_any_file order n w :
  exists e w',
    get_subtitle_stream_indices order (replicate (S n) []) w = (Raise e, w') /\
    e <> ValueError "No subtitle streams found" /\
    stdout w' = stdout w ++ [selection_prompt] /\
    e = match stdin w with
        | [] => EOFError
        | line :: _ =>
            match py_int line with
            | Some _ => IndexError
            | None => InvalidLiteral line
            end
        end.
Proof.
  assert (Hnil : set_iter order (get_unique_streams []) = []).
  { apply Permutation_nil_r. rewrite set_iter_perm. reflexivity. }
  unfold get_subtitle_stream_indices.
  change (replicate (S n) []) with (@nil ProbeStream :: replicate n []).
  cbv beta iota.
  replace (forallb _ ([] :: replicate n [])) with false by reflexivity.
  replace (forallb (fun file_streams : list ProbeStream =>
                      (length file_streams =? length (@nil ProbeStream))%nat)
             ([] :: replicate n [])) with true.
  2:{ symmetry. simpl. apply forallb_replicate. reflexivity. }
  rewrite Hnil.
  destruct (stdin w) as [|line rest] eqn:Hin.
  - exists EOFError. eexists. split.
    + erewrite bind_raise; [reflexivity|].
      unfold prompt_stream_selection. simpl.
      erewrite bind_ok by reflexivity.
      erewrite bind_raise; [reflexivity|].
      unfold input. simpl. rewrite Hin. reflexivity.
    + split; [discriminate|]. split; reflexivity.
  - rewrite (bind_eq (prompt_stream_selection [])).
    rewrite (prompt_multi_run [] w line rest) by first [discriminate | exact Hin].
    rewrite bind_eq, int_run.
    destruct (py_int line) as [choice|].
    + exists IndexError. eexists. split.
      * rewrite getitem_out_of_range by (simpl; lia). reflexivity.
      * split; [discriminate|]. split; reflexivity.
    + exists (InvalidLiteral line). eexists. split; [reflexivity|].
      split; [discriminate|]. split; reflexivity.
Qed.

(** ** The cleaning engine: batch hygiene *)

Lemma filter_sublist {A} (f : A -> bool) (l : list A) :
  List.filter f l `sublist_of` l.
Proof.
  induction l as [|x l IH]; simpl; [constructor|].
  destruct (f x); constructor; exact IH.
Qed.

Lemma elem_of_filter_bool {A} (f : A -> bool) (l : list A) x :
  x ∈ List.filter f l <-> x ∈ l /\ f x = true.
Proof. rewrite !list_elem_of_In. apply filter_In. Qed.

Lemma hygiene_spec line :
  hygiene line = true <->
  text line <> [] /\ contains (lit "NETFLIX") (text line) = false.
Proof.
  unfold hygiene. rewrite andb_true_iff, !negb_true_iff, bool_decide_eq_false.
  reflexivity.
Qed.

(** What [remove_miscellaneous_events] keeps is in playback order. *)
Lemma remove_miscellaneous_events_go_sublist seen events :
  remove_miscellaneous_events_go seen events `sublist_of` events.
Proof.
  revert seen. induction events as [|e rest IH]; intros seen; simpl.
  - constructor.
  - destruct (is_drawing e || is_comment e); [constructor; apply IH|].
    destruct (length (strip (plaintext e)) <? 2)%nat; [constructor; apply IH|].
    destruct (bool_decide _); constructor; apply IH.
Qed.

(** Every event that it keeps passed the four tests. *)
Lemma remove_miscellaneous_events_go_kept seen events e :
  e ∈ remove_miscellaneous_events_go seen events ->
  is_drawing e = false /\ is_comment e = false /\
  (2 <= length (strip (plaintext e)))%nat /\ event_key e ∉ seen.
Proof.
  revert seen. induction events as [|x rest IH]; intros seen; simpl.
  - intros H. apply elem_of_nil in H. contradiction.
  - assert (Hrest : e ∈ remove_miscellaneous_events_go (event_key x :: seen) rest ->
                    is_drawing e = false /\ is_comment e = false /\
                    (2 <= length (strip (plaintext e)))%nat /\ event_key e ∉ seen).
    { intros H. destruct (IH _ H) as (? & ? & ? & Hn).
      apply not_elem_of_cons in Hn. tauto. }
    destruct (is_drawing x || is_comment x) eqn:E1; [exact Hrest|].
    destruct (Nat.ltb_spec (length (strip (plaintext x))) 2) as [Hlt|Hge];
      [exact Hrest|].
    destruct (bool_decide _) eqn:E3; [exact Hrest|].
    intros H. apply list_elem_of_In in H. destruct H as [<- | H].
    + apply orb_false_iff in E1 as [? ?].
      apply bool_decide_eq_false in E3. tauto.
    + apply Hrest. apply list_elem_of_In. exact H.
Qed.

(** An event that passes the tests and is the first with its time
    interval and plain text is kept. *)
Lemma remove_miscellaneous_events_go_keeps seen before e after :
  is_drawing e = false -> is_comment e = false ->
  (2 <= length (strip (plaintext e)))%nat ->
  event_key e ∉ seen ->
  (forall x, x ∈ before -> event_key x <> event_key e) ->
  e ∈ remove_miscellaneous_events_go seen (before ++ e :: after).
Proof.
  intros Hd Hc Hl. revert seen.
  induction before as [|x before IH]; intros seen Hs Hb; simpl.
  - rewrite Hd, Hc. simpl.
    destruct (Nat.ltb_spec (length (strip (plaintext e))) 2) as [Hlt|Hge];
      [lia|].
    rewrite bool_decide_eq_false_2 by exact Hs. left.
  - assert (Hin : e ∈ remove_miscellaneous_events_go (event_key x :: seen)
                        (before ++ e :: after)).
    { apply IH.
      - apply not_elem_of_cons. split; [|exact Hs].
        intros Heq. apply (Hb x); [left | congruence].
      - intros y Hy. apply Hb. right. exact Hy. }
    destruct (is_drawing x || is_comment x); [exact Hin|].
    destruct (length (strip (plaintext x)) <? 2)%nat; [exact Hin|].
    destruct (bool_decide _); [exact Hin | right; exact Hin].
Qed.

(** C8 (amended). Batch hygiene: for every document and every combination
    of category decisions, the saved document contains no line with empty
    text and no line with NETFLIX in its text; the comprehension of lines
    130 and 131 retains all other processed lines, in their order; the
    saved document is what [remove_miscellaneous_events] then keeps of
    them, still in order: a line that is no comment, no drawing, has at
    least two characters of stripped plain text and is the first with its
    time interval and plain text stays. *)
Theorem C8_batch_hygiene (clear_flags : gmap string bool) (subtitle : SSAFile) :
  let processed :=
    (fun line => process_subtitle_line line clear_flags) <$> subtitle in
  (forall line,
     line ∈ clean_document clear_flags subtitle ->
     text line <> [] /\ contains (lit "NETFLIX") (text line) = false) /\
  (forall line,
     line ∈ cleaned_events clear_flags subtitle <->
     line ∈ processed /\ text line <> [] /\
     contains (lit "NETFLIX") (text line) = false) /\
  cleaned_events clear_flags subtitle `sublist_of` processed /\
  clean_document clear_flags subtitle
    `sublist_of` cleaned_events clear_flags subtitle /\
  (forall before line after,
     cleaned_events clear_flags subtitle = before ++ line :: after ->
     is_comment line = false -> is_drawing line = false ->
     (2 <= length (strip (plaintext line)))%nat ->
     (forall x, x ∈ before -> event_key x <> event_key line) ->
     line ∈ clean_document clear_flags subtitle).
Proof.
  intros processed.
  assert (Hce : forall line,
            line ∈ cleaned_events clear_flags subtitle <->
            line ∈ processed /\ text line <> [] /\
            contains (lit "NETFLIX") (text line) = false).
  { intros line. unfold cleaned_events.
    rewrite elem_of_filter_bool, hygiene_spec. reflexivity. }
  assert (Hsub : clean_document clear_flags subtitle
                   `sublist_of` cleaned_events clear_flags subtitle)
    by apply remove_miscellaneous_events_go_sublist.
  split; [|split; [exact Hce | split; [apply filter_sublist | split; [exact Hsub|]]]].
  - intros line Hin. eapply elem_of_sublist in Hin; [|exact Hsub].
    apply Hce in Hin. tauto.
  - intros before line after Heq Hc Hd Hl Hfirst.
    unfold clean_document, remove_miscellaneous_events. rewrite Heq.
    apply remove_miscellaneous_events_go_keeps; auto.
    apply not_elem_of_nil.
Qed.

Lemma C8_batch_hygiene_witness :
  let subtitle :=
    [dialogue (lit "Hello there"); dialogue []; dialogue (lit "NETFLIX presents");
     dialogue (lit "Bye now")] in
  cleaned_events ∅ subtitle
  = [dialogue (lit "Hello there"); dialogue (lit "Bye now")] /\
  dialogue (lit "Bye now") ∈ clean_document ∅ subtitle.
Proof.
  intros subtitle. split; [vm_compute; reflexivity|].
  destruct (C8_batch_hygiene ∅ subtitle) as (_ & _ & _ & _ & Hkeep).
  apply (Hkeep [dialogue (lit "Hello there")] (dialogue (lit "Bye now")) []).
  - vm_compute. reflexivity.
  - reflexivity.
  - vm_compute. reflexivity.
  - vm_compute. lia.
  - intros x Hx. apply list_elem_of_singleton in Hx. subst x.
    vm_compute. discriminate.
Defined.

(** A one-character line and a comment are neither empty nor watermarked,
    pass the comprehension, and are not in the saved document. *)
Lemma C8_counterexample :
  let subtitle :=
    [dialogue [0x3042%N];
     {| start := 2000; end_ := 3000; text := lit "translator note";
        style := lit "Default"; is_comment := true |}] in
  Forall (fun line => text line <> [] /\
                      contains (lit "NETFLIX") (text line) = false)
    ((fun line => process_subtitle_line line ∅) <$> subtitle) /\
  cleaned_events ∅ subtitle = subtitle /\
  clean_document ∅ subtitle = [].
Proof.
  split; [|split; vm_compute; reflexivity].
  repeat constructor; vm_compute; congruence.
Qed.

(** ** The cleaning engine: lines of whitespace *)

Lemma sub_go_skip_all m repl start k s :
  (length s <= k)%nat -> Re.sub_go m repl start k s = [].
Proof.
  revert start k. induction s as [|c s IH]; intros start k Hk; simpl.
  - reflexivity.
  - destruct k as [|k]; simpl in Hk; [lia|]. apply IH. lia.
Qed.

Lemma ws_run_all s : forallb isspace s = true -> Re.ws_run s = length s.
Proof.
  induction s as [|c s IH]; simpl; [reflexivity|].
  intros H. apply andb_true_iff in H as [Hc Hs]. rewrite Hc, IH by exact Hs.
  reflexivity.
Qed.

(** A non-empty run of whitespace collapses to one space. *)
Lemma collapse_all_whitespace s :
  s <> [] -> forallb isspace s = true -> Re.sub Re.WHITESPACE [SP] s = [SP].
Proof.
  intros Hne Hall. destruct s as [|c s]; [congruence|].
  unfold Re.sub. simpl Re.sub_go. unfold Re.WHITESPACE.
  rewrite (ws_run_all (c :: s) Hall). simpl length. cbv beta iota.
  rewrite sub_go_skip_all by lia. reflexivity.
Qed.

(** C9 (amended). A line whose text, after the category passes, is
    non-empty and all whitespace gets the one-character text [" "] from
    the final collapse; that text is neither empty nor watermarked, so
    the line passes the comprehension of lines 130 and 131, which drops
    exactly the lines with empty text or with NETFLIX in the text; the
    following [remove_miscellaneous_events] then removes the line (fewer
    than two characters of stripped text), so it is not in the saved
    document. *)
Theorem C9_whitespace_only_line (clear_flags : gmap string bool)
    (line : SSAEvent) :
  let passed := category_passes clear_flags (text line) in
  let cleaned := process_subtitle_line line clear_flags in
  passed <> [] ->
  forallb isspace passed = true ->
  text cleaned = [SP] /\
  hygiene cleaned = true /\
  (forall subtitle,
     line ∈ subtitle -> cleaned ∈ cleaned_events clear_flags subtitle) /\
  (forall l, hygiene l = false <->
             text l = [] \/ contains (lit "NETFLIX") (text l) = true) /\
  (forall subtitle, cleaned ∉ clean_document clear_flags subtitle).
Proof.
  intros passed cleaned Hne Hall.
  assert (Ht : text cleaned = [SP]).
  { unfold cleaned, process_subtitle_line, process_text. simpl.
    apply collapse_all_whitespace; assumption. }
  assert (Hh : hygiene cleaned = true).
  { unfold hygiene. rewrite Ht. reflexivity. }
  split; [exact Ht|]. split; [exact Hh|]. split; [|split].
  - intros subtitle Hin. unfold cleaned_events.
    apply elem_of_filter_bool. split; [|exact Hh].
    apply list_elem_of_fmap. exists line. split; [reflexivity | exact Hin].
  - intros l. unfold hygiene.
    rewrite andb_false_iff, !negb_false_iff, bool_decide_eq_true. reflexivity.
  - intros subtitle Hin.
    apply remove_miscellaneous_events_go_kept in Hin as (_ & _ & Hlen & _).
    unfold plaintext in Hlen. rewrite Ht in Hlen. vm_compute in Hlen. lia.
Qed.

Lemma C9_whitespace_only_line_witness :
  text (process_subtitle_line two_notes remove_symbols_only) = [SP] /\
  process_subtitle_line two_notes remove_symbols_only
    ∉ clean_document remove_symbols_only [two_notes].
Proof.
  destruct (C9_whitespace_only_line remove_symbols_only two_notes)
    as (Ht & _ & _ & _ & Hout).
  - vm_compute. discriminate.
  - vm_compute. reflexivity.
  - split; [exact Ht | apply Hout].
Defined.

(** The line of two notes passes the comprehension with the text [" "],
    and the saved document does not retain it. *)
Lemma C9_counterexample :
  cleaned_events remove_symbols_only [two_notes] = [dialogue [SP]] /\
  clean_document remove_symbols_only [two_notes] = [].
Proof. split; vm_compute; reflexivity. Qed.

(** ** The cleaning engine: a second pass *)

(** Where a pattern finds nothing, [re.sub] returns the text. *)
Lemma sub_go_no_match m repl start s :
  Re.search_go m start s = false -> Re.sub_go m repl start 0 s = s.
Proof.
  revert start. induction s as [|c s IH]; intros start H; simpl in *.
  - reflexivity.
  - destruct (m start (c :: s)) as [[|k]|]; try discriminate;
      rewrite IH by exact H; reflexivity.
Qed.

Lemma sub_no_match m repl s : Re.search m s = false -> Re.sub m repl s = s.
Proof. apply sub_go_no_match. Qed.

Lemma alternation_literal_none syms start s :
  (forall sym, sym ∈ syms -> startswith sym s = false) ->
  Re.alternation (Re.literal <$> syms) start s = None.
Proof.
  induction syms as [|sym syms IH]; intros H; simpl; [reflexivity|].
  unfold Re.literal at 1. rewrite (H sym) by left.
  apply IH. intros x Hx. apply H. right. exact Hx.
Qed.

Lemma search_go_symbols syms start s :
  existsb (fun sym => contains sym s) syms = false ->
  Re.search_go (Re.alternation (Re.literal <$> syms)) start s = false.
Proof.
  revert start. induction s as [|c s IH]; intros start H; [reflexivity|].
  assert (Hall : forall sym, sym ∈ syms -> contains sym (c :: s) = false).
  { intros sym Hin. apply list_elem_of_In in Hin.
    destruct (contains sym (c :: s)) eqn:E; [|reflexivity].
    rewrite <- H. symmetry. apply existsb_exists. eauto. }
  simpl. rewrite alternation_literal_none.
  - apply IH. apply not_true_is_false. intros Hex.
    apply existsb_exists in Hex as (sym & Hin & Hc).
    apply list_elem_of_In in Hin. specialize (Hall sym Hin).
    simpl in Hall. rewrite Hc in Hall. rewrite orb_true_r in Hall. discriminate.
  - intros sym Hin. specialize (Hall sym Hin). simpl in Hall.
    apply orb_false_iff in Hall as [Hs _]. exact Hs.
Qed.

Lemma adjacent_cons_false c d x out r s :
  adjacent c d out = false ->
  head_from r s out ->
  r <> d ->
  (forall y, head s = Some y -> (x =? c)%N && (y =? d)%N = false) ->
  adjacent c d (x :: out) = false.
Proof.
  intros Ha Hh Hr Hs. simpl. rewrite Ha, orb_false_r.
  destruct out as [|h out]; [reflexivity|].
  destruct Hh as [-> | Hh]; [|apply Hs; exact Hh].
  apply andb_false_iff. right. apply N.eqb_neq. exact Hr.
Qed.

Lemma adjacent_cons_ne c d x out :
  x <> c -> adjacent c d out = false -> adjacent c d (x :: out) = false.
Proof.
  intros Hx Ha. cbn [adjacent]. rewrite Ha, orb_false_r.
  destruct out; [reflexivity|].
  apply andb_false_iff. left. apply N.eqb_neq. exact Hx.
Qed.

Lemma adjacent_tail c d x s : adjacent c d (x :: s) = false -> adjacent c d s = false.
Proof. simpl. intros H. apply orb_false_iff in H. tauto. Qed.

Lemma adjacent_drop c d k s : adjacent c d s = false -> adjacent c d (drop k s) = false.
Proof.
  revert s. induction k as [|k IH]; intros s H; [exact H|].
  destruct s as [|x s]; [reflexivity|]. simpl. apply IH.
  eapply adjacent_tail; eauto.
Qed.

(** [replace] of a two-character marker by one character. *)
Lemma replace2_cons a b new x s :
  replace [a; b] new (x :: s) =
  match s with
  | y :: s' =>
      if (a =? x)%N && (b =? y)%N then new ++ replace [a; b] new s'
      else x :: replace [a; b] new s
  | [] => [x]
  end.
Proof.
  unfold replace. simpl. destruct s as [|y s'].
  - rewrite andb_false_r. reflexivity.
  - simpl. rewrite andb_true_r. destruct ((a =? x)%N && (b =? y)%N); reflexivity.
Qed.

Lemma replace2_no_marker a b new s :
  adjacent a b s = false -> replace [a; b] new s = s.
Proof.
  induction s as [|x s IH]; intros H; [reflexivity|].
  rewrite replace2_cons. destruct s as [|y s']; [reflexivity|].
  simpl in H. apply orb_false_iff in H as [Hxy Hs].
  rewrite (N.eqb_sym a x), (N.eqb_sym b y), Hxy.
  rewrite IH by exact Hs. reflexivity.
Qed.

(** After the replacement no pair [(c, d)] is left, when the only such
    pairs were the marker itself, or there were none. *)
Lemma replace2_adjacent a b r c d :
  r <> c -> r <> d ->
  forall n s,
    (length s <= n)%nat ->
    adjacent c d s = false \/ (c = a /\ d = b) ->
    adjacent c d (replace [a; b] [r] s) = false /\
    head_from r s (replace [a; b] [r] s).
Proof.
  intros Hc Hd. induction n as [|n IH]; intros s Hn Hs.
  { destruct s; [split; [reflexivity | exact I] | simpl in Hn; lia]. }
  destruct s as [|x s]; [split; [reflexivity | exact I]|].
  rewrite replace2_cons. destruct s as [|y s'].
  { split; [reflexivity | right; reflexivity]. }
  simpl in Hn.
  destruct ((a =? x)%N && (b =? y)%N) eqn:E.
  - destruct (IH s') as [Ha Hh]; [lia | |].
    { destruct Hs as [Hs|Hs]; [left | right; exact Hs].
      eapply adjacent_tail, adjacent_tail, Hs. }
    split; [|left; reflexivity].
    change ([r] ++ replace [a; b] [r] s') with (r :: replace [a; b] [r] s').
    simpl. rewrite Ha, orb_false_r.
    destruct (replace [a; b] [r] s'); [reflexivity|].
    apply andb_false_iff. left. apply N.eqb_neq. exact Hc.
  - destruct (IH (y :: s')) as [Ha Hh]; [simpl; lia | |].
    { destruct Hs as [Hs|Hs]; [left | right; exact Hs].
      eapply adjacent_tail, Hs. }
    split; [|right; reflexivity].
    eapply adjacent_cons_false; [exact Ha | exact Hh | exact Hd |].
    intros y' Hy'. injection Hy' as <-.
    destruct Hs as [Hs | [-> ->]].
    + simpl in Hs. apply orb_false_iff in Hs. tauto.
    + rewrite (N.eqb_sym x a), (N.eqb_sym y b). exact E.
Qed.

Lemma normalize_breaks_no_marker text :
  adjacent 92 78 (normalize_breaks text) = false /\
  adjacent 92 110 (normalize_breaks text) = false.
Proof.
  unfold normalize_breaks.
  change (lit "\n") with [92; 110]%N. change (lit "\N") with [92; 78]%N.
  set (y := replace [92; 78]%N [NL] text).
  assert (Hy : adjacent 92 78 y = false).
  { eapply (replace2_adjacent 92 78 NL 92 78); [discriminate .. | reflexivity |].
    right. split; reflexivity. }
  split.
  - eapply (replace2_adjacent 92 110 SP 92 78); [discriminate .. | reflexivity |].
    left. exact Hy.
  - eapply (replace2_adjacent 92 110 SP 92 110); [discriminate .. | reflexivity |].
    right. split; reflexivity.
Qed.

Lemma normalize_breaks_fixed text :
  adjacent 92 78 text = false -> adjacent 92 110 text = false ->
  normalize_breaks text = text.
Proof.
  intros H1 H2. unfold normalize_breaks.
  change (lit "\n") with [92; 110]%N. change (lit "\N") with [92; 78]%N.
  rewrite (replace2_no_marker 92 78) by exact H1.
  apply replace2_no_marker. exact H2.
Qed.

Lemma sub_go_skip m repl start k s :
  Re.sub_go m repl start (S k) s = Re.sub_go m repl false 0 (drop (S k) s).
Proof.
  revert start k. induction s as [|c s IH]; intros start k; [reflexivity|].
  simpl. destruct k as [|k]; [reflexivity | apply IH].
Qed.

Lemma collapse_start s :
  Re.sub_go Re.WHITESPACE [SP] false 0 s = collapse s.
Proof. destruct s; reflexivity. Qed.

Lemma collapse_space c s :
  isspace c = true -> collapse (c :: s) = SP :: collapse (drop (Re.ws_run s) s).
Proof.
  intros Hc. unfold collapse at 1, Re.sub. simpl Re.sub_go.
  unfold Re.WHITESPACE at 1. simpl Re.ws_run. rewrite Hc. cbv beta iota.
  destruct (Re.ws_run s) as [|k] eqn:E.
  - rewrite collapse_start. reflexivity.
  - rewrite sub_go_skip, collapse_start. reflexivity.
Qed.

Lemma collapse_char c s :
  isspace c = false -> collapse (c :: s) = c :: collapse s.
Proof.
  intros Hc. unfold collapse at 1, Re.sub. simpl Re.sub_go.
  unfold Re.WHITESPACE at 1. simpl Re.ws_run. rewrite Hc. cbv beta iota.
  rewrite collapse_start. reflexivity.
Qed.

(** After a run of whitespace comes a character that is none, or the
    end. *)
Lemma drop_ws_run_head s :
  match drop (Re.ws_run s) s with
  | [] => True
  | c :: _ => isspace c = false
  end.
Proof.
  induction s as [|c s IH]; simpl; [exact I|].
  destruct (isspace c) eqn:E; simpl; [exact IH | exact E].
Qed.

Lemma collapse_idempotent_bounded n s :
  (length s <= n)%nat -> collapse (collapse s) = collapse s.
Proof.
  revert s. induction n as [|n IH]; intros s Hn.
  { destruct s; [reflexivity | simpl in Hn; lia]. }
  destruct s as [|c s]; [reflexivity|]. simpl in Hn.
  destruct (isspace c) eqn:E.
  - rewrite (collapse_space c s E).
    set (t := drop (Re.ws_run s) s).
    assert (Ht : (length t <= n)%nat).
    { unfold t. rewrite length_drop. lia. }
    rewrite (collapse_space SP) by reflexivity.
    pose proof (drop_ws_run_head s) as Hh. fold t in Hh.
    destruct t as [|x t'] eqn:Et.
    + reflexivity.
    + rewrite (collapse_char x t' Hh). simpl Re.ws_run. rewrite Hh. simpl drop.
      rewrite <- (collapse_char x t' Hh). rewrite IH by exact Ht. reflexivity.
  - rewrite (collapse_char c s E), (collapse_char c _ E), IH by lia. reflexivity.
Qed.

Lemma collapse_idempotent s : collapse (collapse s) = collapse s.
Proof. apply (collapse_idempotent_bounded (length s)). lia. Qed.

Lemma collapse_adjacent c d :
  SP <> c -> SP <> d ->
  forall n s,
    (length s <= n)%nat ->
    adjacent c d s = false ->
    adjacent c d (collapse s) = false /\ head_from SP s (collapse s).
Proof.
  intros Hc Hd. induction n as [|n IH]; intros s Hn Hs.
  { destruct s; [split; [reflexivity | exact I] | simpl in Hn; lia]. }
  destruct s as [|x s]; [split; [reflexivity | exact I]|]. simpl in Hn.
  destruct (isspace x) eqn:E.
  - rewrite (collapse_space x s E).
    destruct (IH (drop (Re.ws_run s) s)) as [Ha _].
    { rewrite length_drop. lia. }
    { apply adjacent_drop. eapply adjacent_tail, Hs. }
    split; [|left; reflexivity].
    apply adjacent_cons_ne; assumption.
  - rewrite (collapse_char x s E).
    destruct (IH s) as [Ha Hh]; [lia | eapply adjacent_tail, Hs |].
    split; [|right; reflexivity].
    eapply adjacent_cons_false; [exact Ha | exact Hh | exact Hd |].
    intros y Hy. destruct s as [|y' s']; [discriminate|]. injection Hy as ->.
    simpl in Hs. apply orb_false_iff in Hs. tauto.
Qed.

(** The result of a pass holds no line-break marker: normalizing it again
    changes nothing. *)
Lemma normalize_collapse_fixed text :
  normalize_breaks (collapse (normalize_breaks text))
  = collapse (normalize_breaks text).
Proof.
  destruct (normalize_breaks_no_marker text) as [H1 H2].
  apply normalize_breaks_fixed.
  - eapply (collapse_adjacent 92 78); [discriminate .. | reflexivity | exact H1].
  - eapply (collapse_adjacent 92 110); [discriminate .. | reflexivity | exact H2].
Qed.

Lemma no_category_match_inv text :
  no_category_match text = true ->
  has_symbol (normalize_breaks text) = false /\
  Re.search HEARING_IMPAIRED_REGEX (normalize_breaks text) = false /\
  Re.search FURIGANA_REGEX (normalize_breaks text) = false /\
  Re.search INITIAL_BRACKETS (normalize_breaks text) = false.
Proof.
  unfold no_category_match. cbv zeta.
  rewrite !andb_true_iff, !negb_true_iff. tauto.
Qed.

Lemma category_passes_no_match clear_flags text :
  no_category_match text = true ->
  category_passes clear_flags text = normalize_breaks text.
Proof.
  intros H. apply no_category_match_inv in H as (Hs & Hh & Hf & Hb).
  unfold category_passes, remove_special_texts. cbv zeta.
  destruct (flag clear_flags "hearing_impaired");
    [rewrite (sub_no_match _ _ _ Hh)|];
    (destruct (flag clear_flags "special_symbols");
       [rewrite (sub_no_match SYMBOLS_REGEX);
          [|apply search_go_symbols; exact Hs]|]);
    (destruct (flag clear_flags "furigana");
       [rewrite (sub_no_match _ _ _ Hf)|]);
    (destruct (flag clear_flags "initial_brackets");
       [rewrite (sub_no_match _ _ _ Hb)|]);
    reflexivity.
Qed.

Lemma category_passes_all_kept (clear_flags : gmap string bool) text :
  (forall key, flag clear_flags key = false) ->
  category_passes clear_flags text = normalize_breaks text.
Proof.
  intros H. unfold category_passes. cbv zeta. rewrite !H. reflexivity.
Qed.

(** A pass over a line without match normalizes the breaks and collapses
    the whitespace, whatever the decisions. *)
Lemma process_text_no_match clear_flags text :
  no_category_match text = true ->
  process_text clear_flags text = collapse (normalize_breaks text).
Proof.
  intros H. unfold process_text. rewrite category_passes_no_match by exact H.
  reflexivity.
Qed.

(** A second pass over the result of such a pass. *)
Lemma process_text_again (again : gmap string bool) text :
  let result := collapse (normalize_breaks text) in
  (forall key, flag again key = false) \/ no_category_match result = true ->
  process_text again result = result.
Proof.
  intros result H. unfold process_text.
  assert (Hp : category_passes again result = normalize_breaks result).
  { destruct H as [H|H];
      [apply category_passes_all_kept | apply category_passes_no_match]; exact H. }
  rewrite Hp. unfold result.
  rewrite normalize_collapse_fixed. apply collapse_idempotent.
Qed.

Lemma collect_line_no_match acc line :
  no_category_match (text line) = true -> collect_line acc line = acc.
Proof.
  intros H. apply no_category_match_inv in H as (Hs & Hh & Hf & Hb).
  unfold collect_line. cbv zeta. rewrite Hs, Hh, Hf, Hb, !app_nil_r.
  destruct acc; reflexivity.
Qed.

Lemma collect_special_texts_no_match subtitle :
  Forall (fun line => no_category_match (text line) = true) subtitle ->
  collect_special_texts subtitle = no_special_texts.
Proof.
  intros H. unfold collect_special_texts. generalize no_special_texts.
  induction H as [|line rest Hl _ IH]; intros acc; simpl; [reflexivity|].
  rewrite collect_line_no_match by exact Hl. apply IH.
Qed.

Lemma set_text_same line : set_text (text line) line = line.
Proof. destruct line; reflexivity. Qed.

Lemma filter_all {A} (f : A -> bool) l :
  Forall (fun x => f x = true) l -> List.filter f l = l.
Proof.
  induction 1 as [|x l Hx _ IH]; simpl; [reflexivity|].
  rewrite Hx, IH. reflexivity.
Qed.

(** No two events kept by [remove_miscellaneous_events] share their time
    interval and plain text. *)
Lemma remove_miscellaneous_events_go_NoDup seen events :
  NoDup (event_key <$> remove_miscellaneous_events_go seen events).
Proof.
  revert seen. induction events as [|x rest IH]; intros seen; simpl.
  - constructor.
  - destruct (is_drawing x || is_comment x); [apply IH|].
    destruct (length (strip (plaintext x)) <? 2)%nat; [apply IH|].
    destruct (bool_decide _); [apply IH|].
    rewrite fmap_cons. constructor; [|apply IH].
    intros Hin. apply list_elem_of_fmap in Hin as (e & He & Hin).
    apply remove_miscellaneous_events_go_kept in Hin as (_ & _ & _ & Hn).
    apply Hn. rewrite <- He. left.
Qed.

Lemma remove_miscellaneous_events_go_fixed seen events :
  Forall (fun e => is_drawing e = false /\ is_comment e = false /\
                   (2 <= length (strip (plaintext e)))%nat /\
                   event_key e ∉ seen) events ->
  NoDup (event_key <$> events) ->
  remove_miscellaneous_events_go seen events = events.
Proof.
  revert seen. induction events as [|x rest IH]; intros seen Hall Hnd; simpl.
  - reflexivity.
  - inversion Hall as [|? ? (Hd & Hc & Hl & Hs) Hrest]; subst.
    rewrite fmap_cons in Hnd. apply NoDup_cons in Hnd as [Hx Hnd].
    rewrite Hd, Hc. simpl.
    destruct (Nat.ltb_spec (length (strip (plaintext x))) 2) as [Hlt|Hge]; [lia|].
    rewrite bool_decide_eq_false_2 by exact Hs.
    f_equal. apply IH; [|exact Hnd].
    apply Forall_forall. intros e He.
    rewrite Forall_forall in Hrest. destruct (Hrest e He) as (? & ? & ? & ?).
    repeat split; try assumption.
    apply not_elem_of_cons. split; [|assumption].
    intros Heq. apply Hx. rewrite <- Heq.
    apply list_elem_of_fmap. exists e. split; [reflexivity | exact He].
Qed.

(** Running [remove_miscellaneous_events] on its own result removes
    nothing. *)
Lemma remove_miscellaneous_events_idempotent events :
  remove_miscellaneous_events (remove_miscellaneous_events events)
  = remove_miscellaneous_events events.
Proof.
  unfold remove_miscellaneous_events.
  apply remove_miscellaneous_events_go_fixed.
  - apply Forall_forall. intros e He.
    apply remove_miscellaneous_events_go_kept in He. exact He.
  - apply remove_miscellaneous_events_go_NoDup.
Qed.

(** C5 (amended). A document none of whose lines, after normalization of
    the line breaks, holds a symbol of the fixed set or a match of the
    hearing-impaired, furigana or initial-bracket pattern: it adds nothing
    to the samples, and one pass, under any decisions, gives every line
    the text [collapse (normalize_breaks text)] and nothing else. A second
    pass over the saved result changes nothing when its decisions are all
    "keep", or when the result still has no match. (Collapsing a line
    break inside brackets to a space can create a match; if the operator
    then approves the removal, the second pass does change the result.) *)
Theorem C5_clean_input_second_pass (clear_flags : gmap string bool)
    (subtitle : SSAFile) :
  Forall (fun line => no_category_match (text line) = true) subtitle ->
  let result := clean_document clear_flags subtitle in
  collect_special_texts subtitle = no_special_texts /\
  (forall line,
     line ∈ subtitle ->
     process_subtitle_line line clear_flags
     = set_text (collapse (normalize_breaks (text line))) line) /\
  (forall again : gmap string bool,
     (forall key, flag again key = false) \/
     Forall (fun line => no_category_match (text line) = true) result ->
     clean_document again result = result).
Proof.
  intros Hclean result.
  assert (Hpass : forall line, line ∈ subtitle ->
            process_subtitle_line line clear_flags
            = set_text (collapse (normalize_breaks (text line))) line).
  { intros line Hin. rewrite Forall_forall in Hclean.
    unfold process_subtitle_line.
    rewrite process_text_no_match by (apply Hclean; exact Hin). reflexivity. }
  split; [apply collect_special_texts_no_match; exact Hclean|].
  split; [exact Hpass|].
  intros again Hagain.
  assert (Hsub : result `sublist_of` cleaned_events clear_flags subtitle)
    by apply remove_miscellaneous_events_go_sublist.
  (* every line of the result is a processed line that passed the comprehension *)
  assert (Hres : forall l, l ∈ result ->
            hygiene l = true /\
            exists line, line ∈ subtitle /\
              l = set_text (collapse (normalize_breaks (text line))) line).
  { intros l Hl. eapply elem_of_sublist in Hl; [|exact Hsub].
    unfold cleaned_events in Hl. apply elem_of_filter_bool in Hl as [Hl Hh].
    split; [exact Hh|]. apply list_elem_of_fmap in Hl as (line & -> & Hin).
    exists line. split; [exact Hin | apply Hpass; exact Hin]. }
  unfold clean_document at 1.
  assert (Hmap : (fun line => process_subtitle_line line again) <$> result = result).
  { rewrite <- (list_fmap_id result) at 2. apply list_fmap_ext.
    intros i l Hl. apply list_elem_of_lookup_2 in Hl.
    destruct (Hres l Hl) as (_ & line & _ & ->).
    unfold process_subtitle_line. simpl text.
    rewrite process_text_again.
    - destruct line; reflexivity.
    - destruct Hagain as [Hk | Hm]; [left; exact Hk | right].
      rewrite Forall_forall in Hm.
      apply (Hm _ Hl). }
  unfold cleaned_events. rewrite Hmap.
  rewrite filter_all.
  - apply remove_miscellaneous_events_idempotent.
  - apply Forall_forall. intros l Hl. apply (Hres l Hl).
Qed.

Lemma C5_clean_input_second_pass_witness :
  clean_document ∅ [dialogue (lit "Hello\Nthere,   world")]
  = [dialogue (lit "Hello there, world")] /\
  clean_document ∅ (clean_document ∅ [dialogue (lit "Hello\Nthere,   world")])
  = clean_document ∅ [dialogue (lit "Hello\Nthere,   world")].
Proof.
  destruct (C5_clean_input_second_pass ∅ [dialogue (lit "Hello\Nthere,   world")])
    as (_ & _ & Hagain).
  - repeat constructor.
  - split; [vm_compute; reflexivity|].
    apply Hagain. left. intros key. reflexivity.
Defined.

(** The line has no match (the pattern does not reach across the line
    break), so the first run asks nothing and saves [(sighs deeply)]. The
    second run, on the saved file, finds the initial bracket, asks, and on
    Enter removes the text: the saved document is then empty. *)
Lemma C5_counterexample :
  let first_run := clean_up_japanese_subs [lit "/subs/ep1.ass"] sighs_world in
  let second_run :=
    clean_up_japanese_subs [lit "/tmp/cleaned_subs_0/ep1.ass"] first_run.2 in
  no_category_match (lit "(sighs\Ndeeply)") = true /\
  returned_paths first_run = Some [lit "/tmp/cleaned_subs_0/ep1.ass"] /\
  stdin first_run.2 = stdin sighs_world /\
  fs first_run.2 !! lit "/tmp/cleaned_subs_0/ep1.ass"
  = Some (File [dialogue (lit "(sighs deeply)")]) /\
  returned_paths second_run = Some [lit "/tmp/cleaned_subs_1/ep1.ass"] /\
  fs second_run.2 !! lit "/tmp/cleaned_subs_1/ep1.ass" = Some (File []).
Proof. vm_compute. repeat split. Qed.

(** ** The style filter: ignored styles *)

Lemma startswith_spec p s :
  startswith p s = true <-> exists rest, s = p ++ rest.
Proof.
  revert s. induction p as [|a p IH]; intros s; simpl.
  - split; [eauto | reflexivity].
  - destruct s as [|b s].
    + split; [discriminate | intros [rest H]; discriminate].
    + rewrite andb_true_iff, N.eqb_eq, IH. split.
      * intros [-> [rest ->]]. eauto.
      * intros [rest H]. injection H as -> ->. eauto.
Qed.

(** [contains] is the substring test. *)
Lemma contains_spec sub s :
  contains sub s = true <-> exists before after, s = before ++ sub ++ after.
Proof.
  induction s as [|c s IH]; simpl.
  - rewrite orb_false_r, startswith_spec. split.
    + intros [rest H]. exists [], rest. exact H.
    + intros (before & after & H). destruct before; [eauto|discriminate].
  - rewrite orb_true_iff, startswith_spec, IH. split.
    + intros [[rest H] | (before & after & H)].
      * exists [], rest. exact H.
      * exists (c :: before), after. rewrite H. reflexivity.
    + intros (before & after & H). destruct before as [|b before].
      * left. eauto.
      * right. injection H as -> ->. eauto.
Qed.

Lemma ignored_style_spec style :
  ignored_style style = true <->
  exists tag before after,
    tag ∈ TAGS_TO_IGNORE_AUTO /\ style = before ++ tag ++ after.
Proof.
  unfold ignored_style. rewrite existsb_exists. split.
  - intros (tag & Hin & Hc). apply contains_spec in Hc as (b & a & H).
    exists tag, b, a. split; [apply list_elem_of_In; exact Hin | exact H].
  - intros (tag & b & a & Hin & H). exists tag.
    split; [apply list_elem_of_In; exact Hin|]. apply contains_spec. eauto.
Qed.

(** A loop keeps what every turn keeps. *)
Lemma foldM_invariant {A B} (body : B -> A -> M B) (P : B -> Prop) :
  (forall acc x w acc' w', P acc -> body acc x w = (Ok acc', w') -> P acc') ->
  forall l acc w r w', P acc -> foldM body acc l w = (Ok r, w') -> P r.
Proof.
  intros Hstep. induction l as [|x l IH]; intros acc w r w' Hacc H; simpl in H.
  - injection H as <- <-. exact Hacc.
  - inv_bind H. eapply IH; [|exact H]. eapply Hstep; eauto.
Qed.

Lemma count_style_keys style styles_counts entry :
  entry ∈ count_style style styles_counts ->
  entry.1 = style \/ exists n, (entry.1, n) ∈ styles_counts.
Proof.
  induction styles_counts as [|[s n] rest IH]; simpl; intros H.
  - apply list_elem_of_singleton in H. subst. left. reflexivity.
  - destruct (decide (s = style)) as [->|Hne].
    + apply list_elem_of_In in H. destruct H as [<- | H].
      * left. reflexivity.
      * right. destruct entry as [s' n']. exists n'. right.
        apply list_elem_of_In. exact H.
    + apply list_elem_of_In in H. destruct H as [<- | H].
      * right. exists n. left.
      * apply list_elem_of_In, IH in H as [H | [m H]]; [left; exact H|].
        right. exists m. right. exact H.
Qed.

Lemma analyze_line_clean acc line :
  counts_clean acc -> counts_clean (analyze_line acc line).
Proof.
  destruct acc as [counts examples]. unfold analyze_line.
  destruct (ignored_style (style line)) eqn:E; [tauto|].
  intros Hc entry Hin. simpl in Hin.
  apply count_style_keys in Hin as [-> | [n Hn]]; [exact E|].
  apply (Hc _ Hn).
Qed.

Lemma fold_analyze_line_clean subtitle acc :
  counts_clean acc -> counts_clean (fold_left analyze_line subtitle acc).
Proof.
  revert acc. induction subtitle as [|line rest IH]; intros acc H; simpl.
  - exact H.
  - apply IH, analyze_line_clean, H.
Qed.

Lemma insert_by_count_elem x l y :
  y ∈ insert_by_count x l -> y = x \/ y ∈ l.
Proof.
  induction l as [|z l IH]; simpl; intros H.
  - apply list_elem_of_singleton in H. left. exact H.
  - destruct (x.2 <? z.2).
    + apply list_elem_of_In in H. destruct H as [<- | H].
      * right. left.
      * apply list_elem_of_In, IH in H as [H|H]; [left; exact H|].
        right. right. exact H.
    + apply list_elem_of_In in H. destruct H as [<- | H].
      * left. reflexivity.
      * right. apply list_elem_of_In. exact H.
Qed.

Lemma sorted_by_count_elem items y : y ∈ sorted_by_count items -> y ∈ items.
Proof.
  induction items as [|x items IH]; simpl; intros H; [exact H|].
  apply insert_by_count_elem in H as [-> | H]; [left | right; apply IH, H].
Qed.

(** The ranked list holds no ignored style. *)
Lemma analyze_subtitle_styles_clean subtitle_list w sorted_styles
    styles_examples w' :
  analyze_subtitle_styles subtitle_list w
  = (Ok (sorted_styles, styles_examples), w') ->
  forall entry, entry ∈ sorted_styles -> ignored_style entry.1 = false.
Proof.
  unfold analyze_subtitle_styles. intros H. inv_bind H.
  destruct a as [counts examples]. injection H as <- <- <-.
  intros entry Hin. apply sorted_by_count_elem in Hin.
  eapply (foldM_invariant _ counts_clean) in H0.
  - apply (H0 entry Hin).
  - intros acc x w1 acc' w2 Hacc Hb. inv_bind Hb. injection Hb as <- <-.
    apply fold_analyze_line_clean. exact Hacc.
  - intros entry' Hin'. apply elem_of_nil in Hin'. contradiction.
Qed.

(** The keep-set is drawn from the ranked list. *)
Lemma get_styles_to_keep_ranked sorted_styles styles_examples w keep w' :
  get_styles_to_keep sorted_styles styles_examples w = (Ok keep, w') ->
  forall style, style ∈ keep -> style ∈ fst <$> sorted_styles.
Proof.
  unfold get_styles_to_keep. intros H.
  inv_bind H. inv_bind H. inv_bind H.
  destruct (strip a1) as [|c s].
  - injection H as <- <-. tauto.
  - inv_bind H. apply mapM_inv_ok in H.
    intros style Hin. apply list_elem_of_lookup in Hin as [i Hi].
    destruct (Forall2_lookup_r _ _ _ _ _ H Hi) as (idx & _ & wa & wb & Hf).
    inv_bind Hf. injection Hf as <- <-.
    apply getitem_inv in Hf0 as [_ Hin].
    apply list_elem_of_fmap. eauto.
Qed.

(** ** Staging areas *)

Section Preserves.
Context (I : world -> Prop).

Lemma preserves_ret {A} (a : A) : preserves I (mret a).
Proof. intros w a' w' HI H. injection H as <- <-. exact HI. Qed.

Lemma preserves_raise {A} (e : exn) : preserves I (@raise A e).
Proof. intros w a w' _ H. discriminate H. Qed.

Lemma preserves_bind {A B} (m : M A) (f : A -> M B) :
  preserves I m -> (forall a, preserves I (f a)) -> preserves I (m ≫= f).
Proof.
  intros Hm Hf w b w' HI H. inv_bind H.
  eapply Hf; [|exact H]. eapply Hm; eauto.
Qed.

Lemma preserves_mapM {A B} (f : A -> M B) (l : list A) :
  (forall x, preserves I (f x)) -> preserves I (mapM f l).
Proof.
  intros Hf. induction l as [|x l IH]; simpl.
  - apply (preserves_ret []).
  - apply preserves_bind; [apply Hf|]. intros y.
    apply preserves_bind; [exact IH|]. intros k. apply (preserves_ret (y :: k)).
Qed.

Lemma preserves_foldM {A B} (body : B -> A -> M B) (l : list A) acc :
  (forall acc x, preserves I (body acc x)) -> preserves I (foldM body acc l).
Proof.
  intros Hb. revert acc. induction l as [|x l IH]; intros acc; simpl.
  - apply preserves_ret.
  - apply preserves_bind; [apply Hb | exact IH].
Qed.

End Preserves.

Section HasDir.
Context (d : pystr).

Lemma has_dir_print s : preserves (has_dir d) (print s).
Proof. intros w a w' HI H. injection H as <- <-. exact HI. Qed.

Lemma has_dir_eprint s : preserves (has_dir d) (eprint s).
Proof. intros w a w' HI H. injection H as <- <-. exact HI. Qed.

Lemma has_dir_input prompt : preserves (has_dir d) (input prompt).
Proof.
  intros w a w' HI H. unfold input in H.
  destruct (stdin w); [discriminate|]. injection H as <- <-. exact HI.
Qed.

Lemma has_dir_int s : preserves (has_dir d) (int s).
Proof.
  intros w a w' HI H. rewrite int_run in H.
  destruct (py_int s); [|discriminate]. injection H as <- <-. exact HI.
Qed.

Lemma has_dir_getitem {A} (l : list A) i : preserves (has_dir d) (getitem l i).
Proof. intros w a w' HI H. apply getitem_inv in H as [-> _]. exact HI. Qed.

Lemma has_dir_load path : preserves (has_dir d) (load path).
Proof.
  intros w a w' HI H. unfold load in H.
  destruct (fs w !! path) as [[|doc]|]; try discriminate.
  injection H as <- <-. exact HI.
Qed.

(** Writing a file never replaces a directory. *)
Lemma has_dir_write_file path doc : preserves (has_dir d) (write_file path doc).
Proof.
  intros w a w' HI H. unfold write_file in H. unfold has_dir in *.
  destruct (decide (path = d)) as [->|Hne].
  - rewrite HI in H. discriminate.
  - assert (fs w' = <[path := File doc]> (fs w)) as ->.
    { destruct (fs w !! path) as [[|?]|]; [discriminate | |];
        injection H as <- <-; reflexivity. }
    rewrite lookup_insert_ne by exact Hne. exact HI.
Qed.

End HasDir.

(** Takes a goal [preserves (has_dir d) m] apart along the structure of
    [m]. *)
Ltac preserves_has_dir :=
  repeat first
    [ apply preserves_ret
    | apply preserves_raise
    | apply has_dir_print
    | apply has_dir_eprint
    | apply has_dir_input
    | apply has_dir_int
    | apply has_dir_getitem
    | apply has_dir_load
    | apply has_dir_write_file
    | apply preserves_bind; [|intros ?]
    | apply preserves_mapM; intros ?
    | apply preserves_foldM; intros ? ?
    | match goal with
      | |- preserves _ (match ?x with _ => _ end) => destruct x
      | |- preserves _ (let '(_, _) := ?x in _) => destruct x
      end ].

Lemma has_dir_user_confirmation d matches category :
  preserves (has_dir d) (user_confirmation matches category).
Proof. unfold user_confirmation. preserves_has_dir. Qed.

Lemma has_dir_analyze d subtitle_list :
  preserves (has_dir d) (analyze_subtitle_styles subtitle_list).
Proof. unfold analyze_subtitle_styles. preserves_has_dir. Qed.

Lemma has_dir_get_styles_to_keep d sorted_styles styles_examples :
  preserves (has_dir d) (get_styles_to_keep sorted_styles styles_examples).
Proof. unfold get_styles_to_keep. preserves_has_dir. Qed.

Lemma has_dir_mkdtemp prefix w temp_dir w' :
  mkdtemp prefix w = (Ok temp_dir, w') -> has_dir temp_dir w'.
Proof.
  unfold mkdtemp, has_dir. intros H.
  destruct (fs w !! _); [discriminate|]. injection H as <- <-.
  simpl. apply lookup_insert_eq.
Qed.

(** What [rmtree] does to an existing directory, and to one that is
    gone. *)
Lemma rmtree_twice d w :
  has_dir d w ->
  exists w2,
    rmtree d w = (Ok tt, w2) /\
    (forall path, beneath d path = true -> fs w2 !! path = None) /\
    (forall path, beneath d path = false -> fs w2 !! path = fs w !! path) /\
    rmtree d w2 = (Raise (FileNotFoundError d), w2).
Proof.
  intros Hd. unfold has_dir in Hd. unfold rmtree at 1. rewrite Hd.
  eexists. split; [reflexivity|].
  assert (Hgone : forall path, beneath d path = true ->
            filter (fun kv : pystr * node => beneath d kv.1 = false) (fs w) !! path
            = None).
  { intros path Hb. apply map_lookup_filter_None. right.
    intros x _. simpl. rewrite Hb. discriminate. }
  split; [exact Hgone|]. split.
  - intros path Hb. simpl.
    destruct (fs w !! path) as [x|] eqn:E.
    + apply map_lookup_filter_Some. split; [exact E | exact Hb].
    + apply map_lookup_filter_None. left. exact E.
  - unfold rmtree. simpl. rewrite Hgone; [reflexivity|].
    unfold beneath. rewrite bool_decide_eq_true_2 by reflexivity. reflexivity.
Qed.

(** A handler that always raises lets only the results of the [try]
    block through. *)
Lemma try_except_inv_ok {A} (body : M A) (handler : exn -> M A) w a w' :
  (forall e w1 b w2, handler e w1 <> (Ok b, w2)) ->
  try_except body handler w = (Ok a, w') ->
  body w = (Ok a, w').
Proof.
  intros Hh H. unfold try_except in H.
  destruct (body w) as [[b|e] w1]; [exact H|].
  destruct (is_Exception e); [|discriminate].
  exfalso. eapply Hh; eauto.
Qed.

Lemma clean_tags_inv_ok subtitle_list w r w' :
  clean_tags subtitle_list w = (Ok r, w') ->
  exists temp_dir w0,
    mkdtemp (lit "cleaned_subtitles_") w = (Ok temp_dir, w0) /\
    clean_tags_body temp_dir subtitle_list w0 = (Ok r, w').
Proof.
  unfold clean_tags. intros H. inv_bind H.
  apply try_except_inv_ok in H; [eauto|].
  intros e w1 b w2 Hb. inv_bind Hb. discriminate Hb.
Qed.

Lemma mkdtemp_fresh prefix w temp_dir w' :
  mkdtemp prefix w = (Ok temp_dir, w') -> fs w !! temp_dir = None.
Proof.
  unfold mkdtemp. intros H.
  destruct (fs w !! _) eqn:E; [discriminate|]. injection H as <- <-. exact E.
Qed.

Lemma cleanup_contract_intro (stage : M (list pystr * M unit)) :
  (forall w paths cleanup w1,
     stage w = (Ok (paths, cleanup), w1) ->
     exists temp_dir,
       fs w !! temp_dir = None /\ has_dir temp_dir w1 /\
       cleanup = rmtree temp_dir) ->
  cleanup_contract stage.
Proof.
  intros Hs w paths cleanup w1 H.
  destruct (Hs _ _ _ _ H) as (d & Hfresh & Hd & ->).
  destruct (rmtree_twice d w1 Hd) as (w2 & H1 & Hgone & Hrest & H2).
  exists d, w2. auto 10.
Qed.

Section ExtractionStage.
Variable mkvextract : pystr -> Z -> SSAFile + pystr.

Lemma has_dir_extract_subtitle d file_path subtitle_index target_path :
  preserves (has_dir d)
    (extract_subtitle mkvextract file_path subtitle_index target_path).
Proof. unfold extract_subtitle. preserves_has_dir. Qed.

Lemma extract_subtitles_cleanup video_file_paths subtitle_codecs
    selected_stream_indices :
  cleanup_contract
    (extract_subtitles mkvextract video_file_paths subtitle_codecs
       selected_stream_indices).
Proof.
  apply cleanup_contract_intro. intros w paths cleanup w1 H.
  unfold extract_subtitles in H.
  destruct (negb _); [discriminate|].
  inv_bind H. rename a into d. exists d.
  split; [eapply mkdtemp_fresh; eauto|].
  apply has_dir_mkdtemp in H0. split.
  - revert H0 H. apply (preserves_bind (has_dir d)).
    + apply preserves_mapM. intros [[video_path codec] stream_idx].
      preserves_has_dir. apply has_dir_extract_subtitle.
    + intros extracted. apply preserves_ret.
  - inv_bind H. injection H as _ <- _. reflexivity.
Qed.

End ExtractionStage.

Lemma clean_tags_cleanup subtitle_list : cleanup_contract (clean_tags subtitle_list).
Proof.
  apply cleanup_contract_intro. intros w paths cleanup w1 H.
  apply clean_tags_inv_ok in H as (d & w0 & Hd & H). exists d.
  split; [eapply mkdtemp_fresh; eauto|].
  apply has_dir_mkdtemp in Hd. unfold clean_tags_body in H. split.
  - revert Hd H. apply (preserves_bind (has_dir d)); [apply has_dir_analyze|].
    intros [sorted_styles styles_examples].
    apply preserves_bind; [apply has_dir_get_styles_to_keep|]. intros keep.
    preserves_has_dir.
  - inv_bind H. destruct a as [sorted_styles styles_examples].
    inv_bind H. inv_bind H. injection H as _ <- _. reflexivity.
Qed.

Lemma clean_up_japanese_subs_cleanup subtitle_files :
  cleanup_contract (clean_up_japanese_subs subtitle_files).
Proof.
  apply cleanup_contract_intro. intros w paths cleanup w1 H.
  unfold clean_up_japanese_subs in H. inv_bind H. rename a into d. exists d.
  split; [eapply mkdtemp_fresh; eauto|].
  apply has_dir_mkdtemp in H0. split.
  - revert H0 H. apply (preserves_bind (has_dir d)).
    { preserves_has_dir. }
    intros special_texts.
    repeat (apply preserves_bind; [apply has_dir_user_confirmation | intros ?]).
    preserves_has_dir.
  - do 7 inv_bind H. injection H as _ <- _. reflexivity.
Qed.

(** C2 (amended). For each of the three stages that create a staging
    area (extraction, style filtering, Japanese-subtitle cleaning): the
    cleanup action that the stage returns, invoked once, removes the
    staging directory with everything beneath it and leaves the rest of
    the file system as it was; invoked a second time it raises
    [FileNotFoundError] ([shutil.rmtree] of a directory that is gone) and
    changes nothing, so no residue of the staging directory remains
    either way. *)
Theorem C2_cleanup_once_then_error mkvextract video_file_paths subtitle_codecs
    selected_stream_indices subtitle_list :
  cleanup_contract
    (extract_subtitles mkvextract video_file_paths subtitle_codecs
       selected_stream_indices) /\
  cleanup_contract (clean_tags subtitle_list) /\
  cleanup_contract (clean_up_japanese_subs subtitle_list).
Proof.
  split; [apply extract_subtitles_cleanup|].
  split; [apply clean_tags_cleanup | apply clean_up_japanese_subs_cleanup].
Qed.

(** ** The style filter: what is saved *)

(** A property of the files under the returned paths that every turn of
    the loop establishes for its own path and keeps for the others holds
    for all returned paths at the end. *)
Lemma mapM_stable {A B} (f : A -> M B) (Q : world -> Prop) :
  (forall x w y w', f x w = (Ok y, w') -> Q w -> Q w') ->
  forall l w r w', mapM f l w = (Ok r, w') -> Q w -> Q w'.
Proof.
  intros Hs. induction l as [|x l IH]; intros w r w' H HQ; simpl in H.
  - injection H as <- <-. exact HQ.
  - inv_bind H. inv_bind H. injection H as <- <-.
    eapply IH; [exact H1|]. eapply Hs; eauto.
Qed.

Lemma mapM_post {A B} (f : A -> M B) (Q : B -> world -> Prop) :
  (forall x w y w', f x w = (Ok y, w') -> Q y w') ->
  (forall x w y w' z, f x w = (Ok y, w') -> Q z w -> Q z w') ->
  forall l w r w', mapM f l w = (Ok r, w') -> Forall (fun y => Q y w') r.
Proof.
  intros Hnew Hkeep. induction l as [|x l IH]; intros w r w' H; simpl in H.
  - injection H as <- <-. constructor.
  - inv_bind H. inv_bind H. injection H as <- <-. constructor.
    + eapply (mapM_stable f (Q a)); [|exact H1|].
      * intros x' wa y' wb Hf. eapply Hkeep. exact Hf.
      * eapply Hnew. exact H0.
    + eapply IH. exact H1.
Qed.

Lemma write_file_inv path doc w w' :
  write_file path doc w = (Ok tt, w') ->
  fs w' = <[path := File doc]> (fs w).
Proof.
  unfold write_file. intros H.
  destruct (fs w !! path) as [[|?]|]; [discriminate | |];
    injection H as <-; reflexivity.
Qed.

(** One turn of the loop of [clean_tags]. *)
Lemma clean_tags_turn temp_dir styles_to_keep subtitle_file w path w' :
  (subtitle ← load subtitle_file;
   let events :=
     remove_miscellaneous_events (filter_styles styles_to_keep subtitle) in
   let cleaned_path :=
     path_join temp_dir (splitext_root (basename subtitle_file) ++ lit ".ass") in
   write_file cleaned_path events;;
   print (lit "Saved cleaned subtitle to " ++ cleaned_path);;
   mret cleaned_path) w = (Ok path, w') ->
  exists subtitle,
    fs w !! subtitle_file = Some (File subtitle) /\
    fs w' = <[path := File (remove_miscellaneous_events
                              (filter_styles styles_to_keep subtitle))]> (fs w).
Proof.
  intros H. inv_bind H. cbv zeta in H. inv_bind H. inv_bind H.
  injection H as <- <-. destruct a0.
  apply write_file_inv in H1. injection H2 as _ <-. simpl.
  unfold load in H0.
  destruct (fs w !! subtitle_file) as [[|doc]|] eqn:E; try discriminate.
  injection H0 as <- <-.
  exists doc. split; [reflexivity | exact H1].
Qed.

(** C4. Permanent style exclusion: a style holds an ignore-family
    substring exactly when [ignored_style] says so; no such style is in
    the ranked list that [analyze_subtitle_styles] returns; and whatever
    the operator answers, every document that [clean_tags] has saved when
    it returns is without a line of such a style. *)
Theorem C4_permanent_style_exclusion subtitle_list w :
  (forall style,
     ignored_style style = true <->
     exists tag before after,
       tag ∈ TAGS_TO_IGNORE_AUTO /\ style = before ++ tag ++ after) /\
  (forall sorted_styles styles_examples w',
     analyze_subtitle_styles subtitle_list w
     = (Ok (sorted_styles, styles_examples), w') ->
     forall entry, entry ∈ sorted_styles -> ignored_style entry.1 = false) /\
  (forall cleaned_paths cleanup w',
     clean_tags subtitle_list w = (Ok (cleaned_paths, cleanup), w') ->
     length cleaned_paths = length subtitle_list /\
     forall path,
       path ∈ cleaned_paths ->
       exists doc,
         fs w' !! path = Some (File doc) /\
         forall line, line ∈ doc -> ignored_style (style line) = false).
Proof.
  split; [apply ignored_style_spec|].
  split; [intros ? ? ?; apply analyze_subtitle_styles_clean|].
  intros cleaned_paths cleanup w' H.
  apply clean_tags_inv_ok in H as (d & w0 & _ & H).
  unfold clean_tags_body in H.
  inv_bind H. destruct a as [sorted_styles styles_examples].
  inv_bind H. rename a into keep. inv_bind H. injection H as <- _ <-.
  pose proof (analyze_subtitle_styles_clean _ _ _ _ _ H0) as Hranked.
  pose proof (get_styles_to_keep_ranked _ _ _ _ _ H1) as Hkeep.
  assert (Hgood : forall subtitle line,
            line ∈ remove_miscellaneous_events (filter_styles keep subtitle) ->
            ignored_style (style line) = false).
  { intros subtitle line Hin.
    eapply elem_of_sublist in Hin;
      [|apply remove_miscellaneous_events_go_sublist].
    apply filter_styles_spec in Hin as [_ Hin]. apply Hkeep in Hin.
    apply list_elem_of_fmap in Hin as (entry & -> & Hin).
    apply Hranked. exact Hin. }
  split.
  { apply mapM_inv_ok, Forall2_length in H2. congruence. }
  intros path Hpath.
  eapply (mapM_post _ saved_without_ignored) in H2.
  - rewrite Forall_forall in H2. apply (H2 path Hpath).
  - intros x wa y wb Hturn.
    apply clean_tags_turn in Hturn as (subtitle & _ & Hfs).
    eexists. split; [rewrite Hfs; apply lookup_insert_eq | apply Hgood].
  - intros x wa y wb z Hturn (doc & Hz & Hdoc).
    apply clean_tags_turn in Hturn as (subtitle & _ & Hfs).
    destruct (decide (y = z)) as [->|Hne].
    + eexists. split; [rewrite Hfs; apply lookup_insert_eq | apply Hgood].
    + exists doc. split; [|exact Hdoc].
      rewrite Hfs, lookup_insert_ne by exact Hne. exact Hz.
Qed.

Lemma C4_permanent_style_exclusion_witness :
  exists cleanup w',
    clean_tags [lit "/subs/ep1.ass"] signs_world
    = (Ok ([lit "/tmp/cleaned_subtitles_0/ep1.ass"], cleanup), w') /\
    exists doc,
      fs w' !! lit "/tmp/cleaned_subtitles_0/ep1.ass" = Some (File doc) /\
      forall line, line ∈ doc -> ignored_style (style line) = false.
Proof.
  destruct (clean_tags [lit "/subs/ep1.ass"] signs_world)
    as [[[paths cleanup]|e] w'] eqn:E.
  - destruct (C4_permanent_style_exclusion [lit "/subs/ep1.ass"] signs_world)
      as (_ & _ & Hout).
    destruct (Hout _ _ _ E) as [_ Hdocs].
    assert (Hp : paths = [lit "/tmp/cleaned_subtitles_0/ep1.ass"]).
    { apply (f_equal returned_paths) in E. vm_compute in E.
      injection E as E. symmetry. exact E. }
    subst paths. exists cleanup, w'. split; [reflexivity|].
    apply Hdocs. left.
  - apply (f_equal returned_paths) in E. vm_compute in E. discriminate E.
Defined.

Lemma C2_cleanup_once_then_error_witness :
  exists paths cleanup w1 temp_dir w2,
    clean_up_japanese_subs [lit "/subs/ep1.ass"] sighs_world
    = (Ok (paths, cleanup), w1) /\
    has_dir temp_dir w1 /\
    cleanup w1 = (Ok tt, w2) /\
    (forall path, beneath temp_dir path = true -> fs w2 !! path = None) /\
    cleanup w2 = (Raise (FileNotFoundError temp_dir), w2).
Proof.
  destruct (clean_up_japanese_subs [lit "/subs/ep1.ass"] sighs_world)
    as [[[paths cleanup]|e] w1] eqn:E.
  - destruct (C2_cleanup_once_then_error (fun _ _ => inl []) [] [] []
                [lit "/subs/ep1.ass"]) as (_ & _ & Hstage).
    destruct (Hstage _ _ _ _ E) as (d & w2 & _ & Hd & H1 & Hgone & _ & H2).
    exists paths, cleanup, w1, d, w2. auto.
  - apply (f_equal returned_paths) in E. vm_compute in E. discriminate E.
Defined.

(** The cleanup action of a stage, called twice: the second call raises
    [FileNotFoundError]. *)
Lemma C2_counterexample :
  match clean_up_japanese_subs [lit "/subs/ep1.ass"] sighs_world with
  | (Ok (_, cleanup), w1) =>
      match cleanup w1 with
      | (Ok _, w2) =>
          cleanup w2
          = (Raise (FileNotFoundError (lit "/tmp/cleaned_subs_0")), w2)
      | _ => False
      end
  | _ => False
  end.
Proof. vm_compute. reflexivity. Qed.

(** The ranked list and the examples that [analyze_subtitle_styles]
    returns go together: every ranked style has its examples. *)
Lemma analyze_line_cover acc line :
  (forall entry, entry ∈ acc.1 -> is_Some (acc.2 !! entry.1)) ->
  forall entry, entry ∈ (analyze_line acc line).1 ->
                is_Some ((analyze_line acc line).2 !! entry.1).
Proof.
  destruct acc as [counts examples]. unfold analyze_line. simpl.
  intros Hc. destruct (ignored_style (style line)); [exact Hc|].
  simpl. intros entry Hin.
  destruct (decide (style line = entry.1)) as [<-|Hne].
  - rewrite lookup_insert_eq. eauto.
  - rewrite lookup_insert_ne by exact Hne.
    apply count_style_keys in Hin as [Heq | [n Hn]]; [congruence|].
    apply (Hc _ Hn).
Qed.

Lemma analyze_subtitle_styles_cover subtitle_list w sorted_styles
    styles_examples w' :
  analyze_subtitle_styles subtitle_list w
  = (Ok (sorted_styles, styles_examples), w') ->
  examples_cover sorted_styles styles_examples.
Proof.
  unfold analyze_subtitle_styles. intros H. inv_bind H.
  destruct a as [counts examples]. injection H as <- <- <-.
  intros entry Hin. apply sorted_by_count_elem in Hin.
  assert (Hcov : forall entry,
            entry ∈ (counts, examples).1 ->
            is_Some ((counts, examples).2 !! entry.1)).
  { eapply (foldM_invariant _
              (fun acc => forall entry,
                 entry ∈ acc.1 -> is_Some (acc.2 !! entry.1)));
      [| |exact H0].
    - intros acc x w1 acc' w2 Hacc Hb. inv_bind Hb. injection Hb as <- <-.
      clear -Hacc. revert acc Hacc.
      induction a as [|line rest IH]; intros acc Hacc; simpl; [exact Hacc|].
      apply IH. apply analyze_line_cover. exact Hacc.
    - intros entry' Hin'. apply elem_of_nil in Hin'. contradiction. }
  apply (Hcov entry Hin).
Qed.

(** * Further properties *)

(** ** Runs, whatever their outcome *)

Section Always.
Context (R : world -> world -> Prop).
Context (R_refl : forall w, R w w).
Context (R_trans : forall w1 w2 w3, R w1 w2 -> R w2 w3 -> R w1 w3).

Lemma always_ret {A} (a : A) : always R (mret a).
Proof. intros w r w' H. injection H as _ <-. apply R_refl. Qed.

Lemma always_raise {A} (e : exn) : always R (@raise A e).
Proof. intros w r w' H. injection H as _ <-. apply R_refl. Qed.

Lemma always_bind {A B} (m : M A) (f : A -> M B) :
  always R m -> (forall a, always R (f a)) -> always R (m ≫= f).
Proof.
  intros Hm Hf w r w' H. rewrite bind_eq in H.
  destruct (m w) as [[a|e] w1] eqn:E.
  - eapply R_trans; [eapply Hm; exact E | eapply Hf; exact H].
  - injection H as _ <-. eapply Hm; exact E.
Qed.

Lemma always_mapM {A B} (f : A -> M B) (l : list A) :
  (forall x, always R (f x)) -> always R (mapM f l).
Proof.
  intros Hf. induction l as [|x l IH]; simpl.
  - apply (always_ret []).
  - apply always_bind; [apply Hf|]. intros y.
    apply always_bind; [exact IH|]. intros k. apply (always_ret (y :: k)).
Qed.

Lemma always_foldM {A B} (body : B -> A -> M B) (l : list A) acc :
  (forall acc x, always R (body acc x)) -> always R (foldM body acc l).
Proof.
  intros Hb. revert acc. induction l as [|x l IH]; intros acc; simpl.
  - apply always_ret.
  - apply always_bind; [apply Hb | exact IH].
Qed.

Lemma always_try_except {A} (body : M A) (handler : exn -> M A) :
  always R body -> (forall e, always R (handler e)) ->
  always R (try_except body handler).
Proof.
  intros Hb Hh w r w' H. unfold try_except in H.
  destruct (body w) as [[a|e] w1] eqn:E.
  - injection H as _ <-. eapply Hb; exact E.
  - destruct (is_Exception e).
    + eapply R_trans; [eapply Hb; exact E | eapply Hh; exact H].
    + injection H as _ <-. eapply Hb; exact E.
Qed.

End Always.

Lemma always_weaken {A} (R1 R2 : world -> world -> Prop) (m : M A) :
  (forall w w', R1 w w' -> R2 w w') -> always R1 m -> always R2 m.
Proof. intros H Hm w r w' E. apply H. eapply Hm; exact E. Qed.

(** The operations that leave the file system alone. *)
Lemma fs_same_print s : always fs_same (print s).
Proof. intros w r w' H. injection H as _ <-. reflexivity. Qed.

Lemma fs_same_eprint s : always fs_same (eprint s).
Proof. intros w r w' H. injection H as _ <-. reflexivity. Qed.

Lemma fs_same_input prompt : always fs_same (input prompt).
Proof.
  intros w r w' H. unfold input in H.
  destruct (stdin w); injection H as _ <-; reflexivity.
Qed.

Lemma fs_same_int s : always fs_same (int s).
Proof.
  intros w r w' H. rewrite int_run in H.
  destruct (py_int s); injection H as _ <-; reflexivity.
Qed.

Lemma getitem_world {A} (l : list A) i w r w' : getitem l i w = (r, w') -> w' = w.
Proof.
  unfold getitem. destruct (_ && _).
  - destruct (l !! _); intros H; injection H as _ <-; reflexivity.
  - intros H; injection H as _ <-; reflexivity.
Qed.

Lemma fs_same_getitem {A} (l : list A) i : always fs_same (getitem l i).
Proof. intros w r w' H. apply getitem_world in H. subst. reflexivity. Qed.

Lemma load_world path w r w' : load path w = (r, w') -> w' = w.
Proof.
  unfold load. destruct (fs w !! path) as [[|doc]|];
    intros H; injection H as _ <-; reflexivity.
Qed.

Lemma fs_same_load path : always fs_same (load path).
Proof. intros w r w' H. apply load_world in H. subst. reflexivity. Qed.

(** ** The selector: the trivial case *)

Lemma mapM_first_run (files : list (list ProbeStream)) w :
  Forall (fun file_streams => length file_streams = 1%nat) files ->
  mapM (fun s => s0 ← getitem s 0; mret (js_index s0, js_codec_name s0))
    files w
  = (Ok ((fun s0 => (js_index s0, js_codec_name s0)) <$> concat files), w).
Proof.
  induction 1 as [|file files Hlen _ IH]; [reflexivity|].
  destruct file as [|s0 [|? ?]]; try discriminate Hlen.
  simpl. erewrite bind_ok by reflexivity.
  erewrite bind_ok by exact IH. reflexivity.
Qed.

(** X1. Trivial case: when there is a file and every file has exactly one
    stream, the selector returns the index and the codec of that stream
    for every file, in order, and leaves the world as it was: nothing is
    printed and nothing is read. *)
Theorem X1_trivial_case_no_interaction order files w :
  files <> [] ->
  Forall (fun file_streams => length file_streams = 1%nat) files ->
  get_subtitle_stream_indices order files w
  = (Ok (js_index <$> concat files, js_codec_name <$> concat files), w).
Proof.
  intros Hne Hone. unfold get_subtitle_stream_indices.
  destruct files as [|first others]; [congruence|].
  assert (E : forallb (fun file_streams : list ProbeStream =>
                         (length file_streams =? 1)%nat) (first :: others) = true).
  { apply forallb_forall. intros x Hx. apply Nat.eqb_eq.
    rewrite Forall_forall in Hone. apply Hone, list_elem_of_In, Hx. }
  rewrite E. erewrite bind_ok by (apply mapM_first_run; exact Hone).
  unfold zip_star. rewrite <- !list_fmap_compose. reflexivity.
Qed.

Lemma X1_trivial_case_no_interaction_witness :
  get_subtitle_stream_indices reversed_order [[jpn_ass]; [eng_srt]] (console [])
  = (Ok ([2; 3], [lit "ass"; lit "srt"]), console []).
Proof.
  apply (X1_trivial_case_no_interaction reversed_order [[jpn_ass]; [eng_srt]]).
  - discriminate.
  - repeat constructor.
Defined.

(** ** The selector: a file without streams *)

Lemma mapM_inv_raise_free {A B} (f : A -> M B) l x :
  x ∈ l ->
  (forall w y w', f x w <> (Ok y, w')) ->
  forall w r w', mapM f l w <> (Ok r, w').
Proof.
  intros Hin Hx w r w' H. apply mapM_inv_ok in H.
  apply list_elem_of_lookup in Hin as [i Hi].
  destruct (Forall2_lookup_l _ _ _ _ _ H Hi) as (y & _ & w1 & w2 & Hf).
  eapply Hx. exact Hf.
Qed.

Lemma prompt_nil_fails order w selected w' :
  prompt_stream_selection (set_iter order (get_unique_streams [])) w
  <> (Ok selected, w').
Proof.
  intros H. apply prompt_inv, set_iter_elem in H.
  apply elem_of_nil in H. exact H.
Qed.

(** X2. A file without subtitle stream: when some file of the batch has
    no stream at all, the selector never returns a selection; every run
    ends in an exception. *)
Theorem X2_file_without_stream_fails order files w r w' :
  [] ∈ files ->
  get_subtitle_stream_indices order files w = (r, w') ->
  exists e, r = Raise e.
Proof.
  intros Hin H. destruct r as [[indices codecs]|e]; [exfalso | eauto].
  unfold get_subtitle_stream_indices in H.
  destruct files as [|first others]; [discriminate|].
  set (files := first :: others) in *.
  match type of H with context [if forallb ?f files then _ else _] =>
    destruct (forallb f files) eqn:E1 end.
  { rewrite forallb_forall in E1. apply list_elem_of_In, E1 in Hin.
    discriminate Hin. }
  match type of H with context [if forallb ?f files then _ else _] =>
    destruct (forallb f files) eqn:E2 end.
  - rewrite forallb_forall in E2. apply list_elem_of_In, E2 in Hin.
    apply Nat.eqb_eq in Hin. symmetry in Hin. apply nil_length_inv in Hin.
    subst first. inv_bind H. eapply prompt_nil_fails; exact H0.
  - inv_bind H. inv_bind H.
    eapply (mapM_inv_raise_free _ files []); [exact Hin | | exact H1].
    intros wa y wb. apply prompt_nil_fails.
Qed.

Lemma X2_file_without_stream_fails_witness :
  exists e,
    (get_subtitle_stream_indices listed_order [[jpn_ass; eng_srt]; []]
       (console ["0"%string; "0"%string])).1 = Raise e.
Proof.
  eapply (X2_file_without_stream_fails listed_order [[jpn_ass; eng_srt]; []]
            (console ["0"%string; "0"%string])).
  - right. left.
  - apply surjective_pairing.
Defined.

(** ** The selector: files with different numbers of streams *)

Lemma prompt_run_inv streams w selected w' :
  prompt_stream_selection streams w = (Ok selected, w') ->
  selected ∈ streams /\ fs w' = fs w /\
  length (stdin w)
  = (length (stdin w') + if (length streams =? 1)%nat then 0 else 1)%nat.
Proof.
  intros H. split; [eapply prompt_inv; exact H|].
  unfold prompt_stream_selection in H.
  destruct (length streams =? 1)%nat.
  - apply getitem_inv in H as [-> _]. split; [reflexivity | lia].
  - inv_bind H. rewrite prompt_listing_run in H0. injection H0 as _ <-.
    inv_bind H. inv_bind H.
    apply getitem_inv in H as [-> _].
    rewrite int_run in H1. destruct (py_int a0); [|discriminate].
    injection H1 as _ <-.
    unfold input in H0. simpl in H0.
    destruct (stdin w) as [|line rest]; [discriminate|].
    injection H0 as _ <-. simpl. split; [reflexivity | lia].
Qed.

Lemma per_file_selection order files w selections w' :
  mapM (fun file_streams =>
          prompt_stream_selection
            (set_iter order (get_unique_streams file_streams)))
    files w = (Ok selections, w') ->
  Forall2 (fun file_streams selected =>
             selected ∈ get_unique_streams file_streams) files selections /\
  fs w' = fs w /\
  length (stdin w)
  = (length (stdin w') + length (List.filter (asks order) files))%nat.
Proof.
  revert w selections w'.
  induction files as [|file files IH]; intros w selections w' H; simpl in H.
  - injection H as <- <-. split; [constructor|]. split; [reflexivity | simpl; lia].
  - inv_bind H. inv_bind H. injection H as <- <-.
    apply prompt_run_inv in H0 as (Hin & Hfs & Hlen).
    apply set_iter_elem in Hin.
    destruct (IH _ _ _ H1) as (Hall & Hfs' & Hlen').
    split; [constructor; assumption|]. split; [congruence|].
    simpl. unfold asks at 1.
    destruct (length (set_iter order (get_unique_streams file)) =? 1)%nat;
      simpl; lia.
Qed.

(** X3. Files with different numbers of streams: when the selector
    returns, the index and codec chosen for a file are those of one of
    that file's own descriptors (nothing is carried over from another
    file), the file system is untouched, and exactly one line of input
    was read for every file whose distinct descriptors are not exactly
    one. *)
Theorem X3_per_file_selection order first others w indices codecs w' :
  Exists (fun file_streams => length file_streams <> length first) others ->
  get_subtitle_stream_indices order (first :: others) w
  = (Ok (indices, codecs), w') ->
  Forall2 (fun file_streams chosen =>
             exists selected,
               selected ∈ get_unique_streams file_streams /\
               chosen = (index selected, codec selected))
    (first :: others) (zip indices codecs) /\
  fs w' = fs w /\
  length (stdin w)
  = (length (stdin w')
     + length (List.filter (asks order) (first :: others)))%nat.
Proof.
  intros Hdiff H. unfold get_subtitle_stream_indices in H.
  set (files := first :: others) in *.
  assert (E2 : forallb (fun file_streams : list ProbeStream =>
                          (length file_streams =? length first)%nat) files = false).
  { apply not_true_is_false. intros E. rewrite forallb_forall in E.
    apply Exists_exists in Hdiff as (x & Hx & Hne).
    apply Hne, Nat.eqb_eq, E. right. apply list_elem_of_In. exact Hx. }
  assert (E1 : forallb (fun file_streams : list ProbeStream =>
                          (length file_streams =? 1)%nat) files = false).
  { apply not_true_is_false. intros E. rewrite forallb_forall in E.
    assert (Hf : length first = 1%nat) by (apply Nat.eqb_eq, E; left; reflexivity).
    apply Exists_exists in Hdiff as (x & Hx & Hne).
    apply Hne. rewrite Hf. apply Nat.eqb_eq, E. right.
    apply list_elem_of_In. exact Hx. }
  rewrite E1, E2 in H. inv_bind H. injection H0 as _ <-.
  inv_bind H. injection H as <- <- <-.
  apply per_file_selection in H0 as (Hall & Hfs & Hlen).
  split; [|split; [exact Hfs | exact Hlen]].
  clear -Hall. induction Hall as [|file s files sels Hs _ IH]; simpl.
  - constructor.
  - constructor; [eauto | exact IH].
Qed.

Lemma X3_per_file_selection_witness :
  exists w',
    get_subtitle_stream_indices listed_order [[jpn_ass; eng_srt]; [jpn_ass]]
      (console ["1"%string])
    = (Ok ([3; 2], [lit "srt"; lit "ass"]), w') /\
    fs w' = ∅ /\ stdin w' = [].
Proof.
  destruct (get_subtitle_stream_indices listed_order
              [[jpn_ass; eng_srt]; [jpn_ass]] (console ["1"%string]))
    as [[[indices codecs]|e] w'] eqn:E.
  - destruct (X3_per_file_selection listed_order [jpn_ass; eng_srt] [[jpn_ass]]
                (console ["1"%string]) indices codecs w') as (_ & Hfs & Hlen).
    + constructor. simpl. lia.
    + exact E.
    + vm_compute in E. injection E as <- <- <-.
      eexists. split; [reflexivity|]. split; [exact Hfs | reflexivity].
  - vm_compute in E. discriminate E.
Defined.

(** ** Stream names *)

Lemma dropWhile_head p s :
  forall c, head (dropWhile p s) = Some c -> p c = false.
Proof.
  induction s as [|x s IH]; simpl; intros c H; [discriminate|].
  destruct (p x) eqn:E; [apply IH; exact H|].
  simpl in H. injection H as <-. exact E.
Qed.

Lemma dropWhile_suffix p s : dropWhile p s `suffix_of` s.
Proof.
  induction s as [|x s IH]; simpl; [reflexivity|].
  destruct (p x); [|reflexivity]. apply suffix_cons_r. exact IH.
Qed.

Lemma rstrip_prefix s : rstrip s `prefix_of` s.
Proof.
  unfold rstrip. destruct (dropWhile_suffix isspace (rev s)) as [k Hk].
  exists (rev k). apply (f_equal (@rev N)) in Hk.
  rewrite rev_involutive, rev_app_distr in Hk. exact Hk.
Qed.

Lemma last_rev {A} (l : list A) : last (rev l) = head l.
Proof. destruct l as [|x l]; [reflexivity|]. simpl. apply last_snoc. Qed.

Lemma rstrip_last s : forall c, last (rstrip s) = Some c -> isspace c = false.
Proof.
  unfold rstrip. intros c H. apply (dropWhile_head isspace (rev s)).
  rewrite <- last_rev. exact H.
Qed.

Lemma strip_trimmed s : trimmed (strip s).
Proof.
  unfold strip. split; [|apply rstrip_last].
  intros c H. apply (dropWhile_head isspace s). fold (lstrip s).
  destruct (rstrip_prefix (lstrip s)) as [k Hk].
  destruct (rstrip (lstrip s)) as [|x t]; [discriminate|].
  rewrite Hk. exact H.
Qed.

(** X4. Stream names: the name of a descriptor is the title without
    surrounding whitespace when that is not empty, otherwise the
    language tag without surrounding whitespace when that is not empty,
    otherwise [unknown]; so a name is never empty and never begins or
    ends with whitespace. Index and codec are taken over as they are. *)
Theorem X4_stream_name (stream : ProbeStream) :
  let descriptor := from_ffprobe_stream stream in
  let title := strip (default [] (js_title stream)) in
  let language := strip (default [] (js_language stream)) in
  name descriptor
  = (if bool_decide (title <> []) then title
     else if bool_decide (language <> []) then language
     else lit "unknown") /\
  name descriptor <> [] /\
  trimmed (name descriptor) /\
  index descriptor = js_index stream /\
  codec descriptor = js_codec_name stream.
Proof.
  intros descriptor title language.
  assert (Hname : name descriptor
            = (if bool_decide (title <> []) then title
               else if bool_decide (language <> []) then language
               else lit "unknown")).
  { unfold descriptor, from_ffprobe_stream, str_or. simpl. fold title language.
    destruct title; [|reflexivity]. destruct language; reflexivity. }
  split; [exact Hname|]. rewrite Hname.
  split; [|split; [|split; reflexivity]].
  - repeat case_bool_decide; try assumption. discriminate.
  - repeat case_bool_decide; try apply strip_trimmed.
    split; intros c Hc; vm_compute in Hc; injection Hc as <-; reflexivity.
Qed.

(** ** Line texts *)

Lemma contains_pair a b s : contains [a; b] s = adjacent a b s.
Proof.
  induction s as [|x s IH]; [reflexivity|].
  cbn [contains adjacent]. rewrite IH. f_equal.
  cbn [startswith]. destruct s as [|y s]; [apply andb_false_r|].
  rewrite andb_true_r, (N.eqb_sym a x), (N.eqb_sym b y). reflexivity.
Qed.

Lemma contains_single c s : contains [c] s = true <-> c ∈ s.
Proof.
  induction s as [|x s IH]; cbn [contains startswith].
  - split; [discriminate | intros H; apply elem_of_nil in H; contradiction].
  - rewrite andb_true_r, orb_true_iff, N.eqb_eq, IH, elem_of_cons. reflexivity.
Qed.

(** X5. Line-break markers: after the two replacements of
    [process_subtitle_line] the text holds neither the marker [\N] nor the
    marker [\n]; a text that holds neither is left as it is, so
    normalizing twice is the same as normalizing once. *)
Theorem X5_normalize_breaks_markers (text : pystr) :
  contains (lit "\N") (normalize_breaks text) = false /\
  contains (lit "\n") (normalize_breaks text) = false /\
  normalize_breaks (normalize_breaks text) = normalize_breaks text /\
  (contains (lit "\N") text = false -> contains (lit "\n") text = false ->
   normalize_breaks text = text).
Proof.
  change (lit "\N") with [92; 78]%N. change (lit "\n") with [92; 110]%N.
  rewrite !contains_pair.
  destruct (normalize_breaks_no_marker text) as [H1 H2].
  split; [exact H1|]. split; [exact H2|]. split.
  - apply normalize_breaks_fixed; assumption.
  - apply normalize_breaks_fixed.
Qed.

Lemma X5_normalize_breaks_markers_witness :
  normalize_breaks (lit "Hello there") = lit "Hello there".
Proof.
  apply (X5_normalize_breaks_markers (lit "Hello there")); reflexivity.
Defined.

Lemma collapse_single_spaced_bounded n s :
  (length s <= n)%nat ->
  Forall (fun c => isspace c = true -> c = SP) (collapse s) /\
  adjacent SP SP (collapse s) = false.
Proof.
  revert s. induction n as [|n IH]; intros s Hn.
  { destruct s; [split; [constructor | reflexivity] | simpl in Hn; lia]. }
  destruct s as [|c s]; [split; [constructor | reflexivity]|]. simpl in Hn.
  destruct (isspace c) eqn:E.
  - rewrite (collapse_space c s E).
    set (t := drop (Re.ws_run s) s).
    destruct (IH t) as [Hall Hadj].
    { unfold t. rewrite length_drop. lia. }
    split; [constructor; [reflexivity | exact Hall]|].
    pose proof (drop_ws_run_head s) as Hh. fold t in Hh.
    destruct t as [|x t']; [reflexivity|].
    rewrite (collapse_char x t' Hh) in *.
    cbn [adjacent] in *. rewrite Hadj, orb_false_r.
    apply andb_false_iff. right. apply N.eqb_neq. intros ->. discriminate Hh.
  - rewrite (collapse_char c s E).
    destruct (IH s) as [Hall Hadj]; [lia|].
    split; [constructor; [congruence | exact Hall]|].
    apply adjacent_cons_ne; [|exact Hadj]. intros ->. discriminate E.
Qed.

Lemma replace2_length a b r s :
  (length (replace [a; b] [r] s) <= length s)%nat.
Proof.
  remember (length s) as n eqn:Hn.
  assert (Hle : (length s <= n)%nat) by lia. clear Hn.
  revert s Hle. induction n as [|n IH]; intros s Hle.
  { destruct s; simpl in *; lia. }
  destruct s as [|x s]; [simpl; lia|]. rewrite replace2_cons.
  destruct s as [|y s']; [simpl; lia|]. simpl in Hle.
  destruct (_ && _).
  - specialize (IH s'). simpl. lia.
  - specialize (IH (y :: s')). simpl in *. lia.
Qed.

Lemma sub_go_sublist m start k s : Re.sub_go m [] start k s `sublist_of` s.
Proof.
  revert start k. induction s as [|c s IH]; intros start k; simpl.
  - constructor.
  - destruct k as [|k]; [|constructor; apply IH].
    destruct (m start (c :: s)) as [[|j]|]; constructor; apply IH.
Qed.

Lemma sub_empty_sublist m s : Re.sub m [] s `sublist_of` s.
Proof. apply sub_go_sublist. Qed.

Lemma collapse_length_bounded n s :
  (length s <= n)%nat -> (length (collapse s) <= length s)%nat.
Proof.
  revert s. induction n as [|n IH]; intros s Hn.
  { destruct s; simpl in *; lia. }
  destruct s as [|c s]; [simpl; lia|]. simpl in Hn.
  destruct (isspace c) eqn:E.
  - rewrite (collapse_space c s E).
    specialize (IH (drop (Re.ws_run s) s)). rewrite length_drop in IH.
    simpl. lia.
  - rewrite (collapse_char c s E). specialize (IH s). simpl. lia.
Qed.

(** The four passes only take characters away from the normalized
    text. *)
Lemma category_passes_sublist clear_flags text :
  category_passes clear_flags text `sublist_of` normalize_breaks text.
Proof.
  unfold category_passes, remove_special_texts. cbv zeta.
  repeat match goal with
         | |- context [if ?b then _ else _] => destruct b
         end;
    repeat (etransitivity; [apply sub_empty_sublist|]); reflexivity.
Qed.

(** X6. The cleaned text of a line, under any decisions: its only
    whitespace is the space character, never two in a row, so it holds
    no line break; and it is not longer than the text of the line. *)
Theorem X6_cleaned_text_single_spaced (clear_flags : gmap string bool)
    (text : pystr) :
  let cleaned := process_text clear_flags text in
  Forall (fun c => isspace c = true -> c = SP) cleaned /\
  contains [SP; SP] cleaned = false /\
  contains [NL] cleaned = false /\
  (length cleaned <= length text)%nat.
Proof.
  intros cleaned. unfold cleaned, process_text.
  set (passed := category_passes clear_flags text).
  destruct (collapse_single_spaced_bounded (length passed) passed) as [Hall Hadj];
    [lia|].
  split; [exact Hall|]. split; [rewrite contains_pair; exact Hadj|]. split.
  - apply not_true_is_false. intros H. apply contains_single in H.
    rewrite Forall_forall in Hall. specialize (Hall NL H eq_refl). discriminate.
  - pose proof (collapse_length_bounded (length passed) passed) as H1.
    pose proof (sublist_length _ _ (category_passes_sublist clear_flags text)) as H2.
    fold passed in H2. unfold normalize_breaks in H2.
    change (lit "\n") with [92; 110]%N in H2.
    change (lit "\N") with [92; 78]%N in H2.
    pose proof (replace2_length 92 110 SP (replace [92; 78]%N [NL] text)) as H3.
    pose proof (replace2_length 92 78 NL text) as H4.
    unfold SP, NL in *. lia.
Qed.

Lemma symbols_regex_at start c s :
  SYMBOLS_REGEX start (c :: s) = if is_symbol c then Some 1%nat else None.
Proof.
  unfold SYMBOLS_REGEX, SYMBOLS_TO_DELETE, is_symbol.
  cbn [fmap list_fmap Re.alternation]. unfold Re.literal.
  cbn [startswith length]. rewrite !andb_true_r.
  destruct (N.eqb_spec 9834 c) as [<-|H1]; [reflexivity|].
  destruct (N.eqb_spec 65374 c) as [<-|H2]; [reflexivity|].
  destruct (N.eqb_spec 8213 c) as [<-|H3]; [reflexivity|].
  destruct (N.eqb_spec 126 c) as [<-|H4]; [reflexivity|].
  rewrite bool_decide_eq_false_2; [reflexivity|].
  intros H. repeat (apply elem_of_cons in H as [H|H]; [congruence|]).
  apply elem_of_nil in H. exact H.
Qed.

Lemma sub_symbols_none start s :
  Forall (fun c => is_symbol c = false) (Re.sub_go SYMBOLS_REGEX [] start 0 s).
Proof.
  revert start. induction s as [|c s IH]; intros start; simpl; [constructor|].
  rewrite symbols_regex_at. destruct (is_symbol c) eqn:E.
  - apply IH.
  - constructor; [exact E | apply IH].
Qed.

Lemma collapse_Forall_bounded (P : N -> Prop) n s :
  P SP -> (length s <= n)%nat -> Forall P s -> Forall P (collapse s).
Proof.
  intros HP. revert s. induction n as [|n IH]; intros s Hn Hs.
  { destruct s; [constructor | simpl in Hn; lia]. }
  destruct s as [|c s]; [constructor|]. simpl in Hn.
  inversion Hs as [|? ? Hc Hs']; subst.
  destruct (isspace c) eqn:E.
  - rewrite (collapse_space c s E). constructor; [exact HP|].
    apply IH; [rewrite length_drop; lia | apply Forall_drop; exact Hs'].
  - rewrite (collapse_char c s E). constructor; [exact Hc|].
    apply IH; [lia | exact Hs'].
Qed.

Lemma has_symbol_false s :
  Forall (fun c => is_symbol c = false) s -> has_symbol s = false.
Proof.
  intros H. unfold has_symbol, SYMBOLS_TO_DELETE. cbn [existsb].
  assert (Hno : forall c, is_symbol c = true -> contains [c] s = false).
  { intros c Hc. apply not_true_is_false. intros Hin.
    apply contains_single in Hin. rewrite Forall_forall in H.
    rewrite (H c Hin) in Hc. discriminate. }
  rewrite !Hno by reflexivity. reflexivity.
Qed.

(** X7. Symbol removal is complete: when the decision for the special
    symbols is to remove, the cleaned text of every line holds none of
    the four symbols, whatever the other decisions. *)
Theorem X7_symbols_removed (clear_flags : gmap string bool) (text : pystr) :
  flag clear_flags "special_symbols" = true ->
  has_symbol (process_text clear_flags text) = false.
Proof.
  intros Hflag. apply has_symbol_false. unfold process_text.
  set (passed := category_passes clear_flags text).
  apply (collapse_Forall_bounded _ (length passed)); [reflexivity | lia |].
  unfold passed, category_passes, remove_special_texts. cbv zeta.
  rewrite Hflag.
  match goal with
  | |- context [Re.sub SYMBOLS_REGEX [] ?t] =>
      pose proof (sub_symbols_none true t) as Hs;
      fold (Re.sub SYMBOLS_REGEX [] t) in Hs;
      set (u := Re.sub SYMBOLS_REGEX [] t) in *
  end.
  clearbody u.
  assert (Hsub : forall v, v `sublist_of` u ->
                           Forall (fun c => is_symbol c = false) v).
  { intros v Hv. apply Forall_forall. intros c Hc.
    rewrite Forall_forall in Hs. apply Hs. eapply elem_of_sublist; eauto. }
  destruct (flag clear_flags "furigana"), (flag clear_flags "initial_brackets");
    apply Hsub;
    repeat (etransitivity; [apply sub_empty_sublist|]); reflexivity.
Qed.

Lemma X7_symbols_removed_witness :
  has_symbol (process_text remove_symbols_only (text two_notes)) = false.
Proof. apply X7_symbols_removed. reflexivity. Defined.

(** ** The samples shown to the operator *)

Lemma search_go_shortens m start s :
  Re.search_go m start s = true ->
  (length (Re.sub_go m [] start 0 s) < length s)%nat.
Proof.
  revert start. induction s as [|c s IH]; intros start H; simpl in *;
    [discriminate|].
  destruct (m start (c :: s)) as [[|k]|].
  - specialize (IH false H). simpl. lia.
  - pose proof (sublist_length _ _ (sub_go_sublist m false k s)). simpl. lia.
  - specialize (IH false H). simpl. lia.
Qed.

Lemma search_iff_sub_changes m s :
  Re.search m s = negb (bool_decide (Re.sub m [] s = s)).
Proof.
  destruct (Re.search m s) eqn:E.
  - apply search_go_shortens in E. fold (Re.sub m [] s) in E.
    rewrite bool_decide_eq_false_2; [reflexivity|].
    intros Heq. rewrite Heq in E. lia.
  - rewrite (sub_no_match m [] s E), bool_decide_eq_true_2; reflexivity.
Qed.

Lemma is_symbol_eqb c :
  is_symbol c = ((9834 =? c) || (65374 =? c) || (8213 =? c) || (126 =? c))%N.
Proof.
  pose proof (symbols_regex_at true c []) as H.
  unfold SYMBOLS_REGEX, SYMBOLS_TO_DELETE in H.
  cbn [fmap list_fmap Re.alternation] in H. unfold Re.literal in H.
  cbn [startswith length] in H. rewrite !andb_true_r in H.
  destruct (9834 =? c)%N, (65374 =? c)%N, (8213 =? c)%N, (126 =? c)%N,
    (is_symbol c); simpl; congruence.
Qed.

Lemma has_symbol_existsb s : has_symbol s = existsb is_symbol s.
Proof.
  unfold has_symbol, SYMBOLS_TO_DELETE. cbn [existsb].
  induction s as [|c s IH]; [reflexivity|].
  cbn [existsb contains startswith]. rewrite <- IH, is_symbol_eqb.
  rewrite !andb_true_r, !orb_false_r.
  destruct (9834 =? c)%N, (65374 =? c)%N, (8213 =? c)%N, (126 =? c)%N;
    simpl; rewrite ?orb_true_r; reflexivity.
Qed.

Lemma search_symbols_existsb start s :
  Re.search_go SYMBOLS_REGEX start s = existsb is_symbol s.
Proof.
  revert start. induction s as [|c s IH]; intros start; [reflexivity|].
  cbn [Re.search_go existsb]. rewrite symbols_regex_at, IH.
  destruct (is_symbol c); reflexivity.
Qed.

Lemma has_symbol_search s : has_symbol s = Re.search SYMBOLS_REGEX s.
Proof.
  rewrite has_symbol_existsb. symmetry. apply search_symbols_existsb.
Qed.

Lemma sampled_cons regex line subtitle :
  sampled regex (line :: subtitle)
  = (if Re.search regex (normalize_breaks (text line))
     then [(normalize_breaks (text line), regex)] else [])
    ++ sampled regex subtitle.
Proof.
  unfold sampled. cbn [fmap list_fmap List.filter].
  rewrite <- search_iff_sub_changes.
  destruct (Re.search regex _); reflexivity.
Qed.

Lemma collect_special_texts_fold subtitle acc :
  fold_left collect_line subtitle acc
  = extend_special_texts acc
      {| hearing_impaired := sampled HEARING_IMPAIRED_REGEX subtitle;
         special_symbols := sampled SYMBOLS_REGEX subtitle;
         furigana := sampled FURIGANA_REGEX subtitle;
         initial_brackets := sampled INITIAL_BRACKETS subtitle |}.
Proof.
  revert acc. induction subtitle as [|line subtitle IH]; intros acc.
  - destruct acc. unfold extend_special_texts, sampled. simpl.
    rewrite !app_nil_r. reflexivity.
  - cbn [fold_left]. rewrite IH, !sampled_cons.
    unfold extend_special_texts, collect_line. cbv zeta.
    rewrite has_symbol_search.
    cbn [hearing_impaired special_symbols furigana initial_brackets].
    rewrite <- !app_assoc. reflexivity.
Qed.

Lemma collect_special_texts_sampled subtitle :
  collect_special_texts subtitle
  = {| hearing_impaired := sampled HEARING_IMPAIRED_REGEX subtitle;
       special_symbols := sampled SYMBOLS_REGEX subtitle;
       furigana := sampled FURIGANA_REGEX subtitle;
       initial_brackets := sampled INITIAL_BRACKETS subtitle |}.
Proof.
  unfold collect_special_texts. rewrite collect_special_texts_fold.
  reflexivity.
Qed.

(** X8. The samples gathered from a document: in each of the four
    categories they are the normalized texts of exactly those lines, in
    the order of the document, whose text the removal of the category
    would change, each paired with the pattern of the category. *)
Theorem X8_samples_are_the_affected_lines (subtitle : SSAFile) :
  collect_special_texts subtitle
  = {| hearing_impaired := sampled HEARING_IMPAIRED_REGEX subtitle;
       special_symbols := sampled SYMBOLS_REGEX subtitle;
       furigana := sampled FURIGANA_REGEX subtitle;
       initial_brackets := sampled INITIAL_BRACKETS subtitle |}.
Proof. apply collect_special_texts_sampled. Qed.

(** ** The style analysis *)

Lemma lookup_count_count_style s' s c :
  lookup_count s' (count_style s c)
  = lookup_count s' c + (if decide (s = s') then 1 else 0).
Proof.
  induction c as [|[k n] rest IH]; simpl.
  - destruct (decide (s = s')); reflexivity.
  - destruct (decide (k = s)) as [->|Hks]; simpl.
    + destruct (decide (s = s')); lia.
    + destruct (decide (k = s')) as [->|Hks'].
      * destruct (decide (s = s')); [congruence | lia].
      * exact IH.
Qed.

Lemma count_style_keys_iff s' s (c : list (pystr * Z)) :
  s' ∈ (count_style s c).*1 <-> s' = s \/ s' ∈ c.*1.
Proof.
  induction c as [|[k n] rest IH]; simpl.
  - rewrite list_elem_of_singleton, elem_of_nil. tauto.
  - destruct (decide (k = s)) as [->|Hks]; simpl.
    + rewrite !elem_of_cons. tauto.
    + rewrite !elem_of_cons, IH. tauto.
Qed.

Lemma count_style_NoDup s (c : list (pystr * Z)) :
  NoDup c.*1 -> NoDup (count_style s c).*1.
Proof.
  induction c as [|[k n] rest IH]; simpl; intros H.
  - apply NoDup_singleton.
  - destruct (decide (k = s)) as [->|Hks]; simpl; [exact H|].
    apply NoDup_cons in H as [Hk H]. apply NoDup_cons. split.
    + rewrite count_style_keys_iff. intros [?|?]; [congruence | contradiction].
    + apply IH, H.
Qed.

Lemma lookup_count_elem s n (c : list (pystr * Z)) :
  NoDup c.*1 -> ((s, n) ∈ c <-> s ∈ c.*1 /\ lookup_count s c = n).
Proof.
  induction c as [|[k m] rest IH]; simpl; intros H.
  - rewrite !elem_of_nil. tauto.
  - apply NoDup_cons in H as [Hk H]. specialize (IH H).
    rewrite !elem_of_cons, IH.
    destruct (decide (k = s)) as [->|Hks].
    + split.
      * intros [Heq|[Hin _]]; [injection Heq as ->; auto | contradiction].
      * intros [_ ->]. left. reflexivity.
    + split.
      * intros [Heq|[Hin Hn]]; [congruence | auto].
      * intros [[Heq|Hin] Hn]; [congruence | auto].
Qed.

Lemma analyze_line_counts acc line :
  (analyze_line acc line).1
  = if ignored_style (style line) then acc.1
    else count_style (style line) acc.1.
Proof.
  destruct acc as [c e]. unfold analyze_line.
  destruct (ignored_style (style line)); reflexivity.
Qed.

Lemma fold_analyze_line_counts lines acc :
  let r := fold_left analyze_line lines acc in
  let kept :=
    List.filter (fun line => negb (ignored_style (style line))) lines in
  (NoDup acc.1.*1 -> NoDup r.1.*1) /\
  (forall s, s ∈ r.1.*1 <-> s ∈ acc.1.*1 \/ s ∈ style <$> kept) /\
  (forall s, lookup_count s r.1
             = lookup_count s acc.1
               + Z.of_nat (length (lines_of_style s kept))).
Proof.
  revert acc. induction lines as [|line lines IH]; intros acc; cbn zeta.
  - simpl. split; [auto|]. split.
    + intros s. rewrite elem_of_nil. tauto.
    + intros s. lia.
  - cbn [fold_left List.filter].
    destruct (IH (analyze_line acc line)) as (Hnd & Hkeys & Hcount).
    cbn zeta in *. rewrite analyze_line_counts in *.
    destruct (ignored_style (style line)) eqn:E; cbn [negb].
    + auto.
    + split; [intros H; apply Hnd, count_style_NoDup, H|]. split.
      * intros s. rewrite Hkeys, count_style_keys_iff, fmap_cons, elem_of_cons.
        tauto.
      * intros s. rewrite Hcount, lookup_count_count_style.
        unfold lines_of_style. cbn [List.filter].
        destruct (decide (style line = s)) as [Heq|Hne].
        -- rewrite bool_decide_eq_true_2 by exact Heq. cbn [length]. lia.
        -- rewrite bool_decide_eq_false_2 by exact Hne. lia.
Qed.

Lemma insert_by_count_perm x l : insert_by_count x l ≡ₚ x :: l.
Proof.
  induction l as [|y l IH]; simpl; [reflexivity|].
  destruct (x.2 <? y.2); [|reflexivity].
  rewrite IH. apply Permutation_swap.
Qed.

Lemma sorted_by_count_perm items : sorted_by_count items ≡ₚ items.
Proof.
  induction items as [|x items IH]; simpl; [reflexivity|].
  rewrite insert_by_count_perm, IH. reflexivity.
Qed.

Lemma insert_by_count_sorted x l :
  Sorted (fun a b => b.2 <= a.2) l ->
  Sorted (fun a b => b.2 <= a.2) (insert_by_count x l).
Proof.
  induction 1 as [|y l Hl IH Hhd]; simpl.
  - repeat constructor.
  - destruct (Z.ltb_spec x.2 y.2) as [Hlt|Hge].
    + constructor; [exact IH|].
      destruct l as [|z l]; simpl.
      * constructor. lia.
      * destruct (x.2 <? z.2); constructor; [|lia].
        inversion Hhd; subst. assumption.
    + constructor; [constructor; assumption|]. constructor. lia.
Qed.

Lemma sorted_by_count_sorted items :
  Sorted (fun a b => b.2 <= a.2) (sorted_by_count items).
Proof.
  induction items as [|x items IH]; simpl; [constructor|].
  apply insert_by_count_sorted, IH.
Qed.

Lemma load_run w file doc :
  fs w !! file = Some (File doc) -> load file w = (Ok doc, w).
Proof. intros H. unfold load. rewrite H. reflexivity. Qed.

Lemma analyze_loop_run w files docs :
  loaded w files docs ->
  forall acc,
    foldM (fun acc subtitle_file =>
             subtitle ← load subtitle_file;
             mret (fold_left analyze_line subtitle acc))
      acc files w
    = (Ok (fold_left analyze_line (concat docs) acc), w).
Proof.
  induction 1 as [|file doc files docs Hfile _ IH]; intros acc; simpl.
  - reflexivity.
  - rewrite bind_eq, bind_eq, (load_run _ _ _ Hfile). cbn.
    rewrite IH, fold_left_app. reflexivity.
Qed.

Lemma analyze_subtitle_styles_run w files docs :
  loaded w files docs ->
  analyze_subtitle_styles files w
  = (Ok (sorted_by_count (fold_left analyze_line (concat docs) ([], ∅)).1,
         (fold_left analyze_line (concat docs) ([], ∅)).2), w).
Proof.
  intros H. unfold analyze_subtitle_styles.
  rewrite bind_eq, (analyze_loop_run _ _ _ H).
  destruct (fold_left analyze_line (concat docs) ([], ∅)); reflexivity.
Qed.

(** X9. The ranking of the styles: when every file holds a document, the
    analysis returns without changing anything; the ranked list names
    every style of a line that is not skipped exactly once, with the
    number of such lines of that style in all documents together, and is
    in descending order of that number. *)
Theorem X9_style_ranking (w : world) (files : list pystr)
    (docs : list SSAFile) :
  loaded w files docs ->
  exists sorted_styles styles_examples,
    analyze_subtitle_styles files w
    = (Ok (sorted_styles, styles_examples), w) /\
    NoDup sorted_styles.*1 /\
    (forall s n,
       (s, n) ∈ sorted_styles <->
       s ∈ style <$> counted docs /\
       n = Z.of_nat (length (lines_of_style s (counted docs)))) /\
    Sorted (fun a b => b.2 <= a.2) sorted_styles.
Proof.
  intros H. eexists _, _.
  split; [apply analyze_subtitle_styles_run, H|].
  destruct (fold_analyze_line_counts (concat docs) ([], ∅))
    as (Hnd & Hkeys & Hcount).
  cbn zeta in *. fold (counted docs) in *.
  set (r := fold_left analyze_line (concat docs) ([], ∅)) in *.
  specialize (Hnd (NoDup_nil_2 : NoDup ([] : list (pystr * Z)).*1)).
  pose proof (sorted_by_count_perm r.1) as Hperm.
  split; [rewrite Hperm; exact Hnd|].
  split; [|apply sorted_by_count_sorted].
  intros s n. rewrite Hperm, (lookup_count_elem s n r.1 Hnd), Hkeys, Hcount.
  simpl. rewrite elem_of_nil. split.
  - intros [[[]|Hs] <-]. split; [exact Hs | lia].
  - intros [Hs ->]. split; [right; exact Hs | lia].
Qed.

Lemma X9_style_ranking_witness :
  exists sorted_styles styles_examples,
    analyze_subtitle_styles [lit "/subs/ep1.ass"] signs_world
    = (Ok (sorted_styles, styles_examples), signs_world) /\
    (lit "Default", 1) ∈ sorted_styles.
Proof.
  destruct (X9_style_ranking signs_world [lit "/subs/ep1.ass"]
              [[dialogue (lit "Hello there");
                {| start := 0; end_ := 1000; text := lit "EXIT";
                   style := lit "Signs - Main"; is_comment := false |}]])
    as (sorted_styles & styles_examples & Hrun & _ & Hcount & _).
  { constructor; [reflexivity | constructor]. }
  exists sorted_styles, styles_examples. split; [exact Hrun|].
  apply Hcount. split; [left | reflexivity].
Defined.

Lemma take_snoc_limit {A} (n : nat) (l : list A) (x : A) :
  take n (l ++ [x])
  = if (length (take n l) <? n)%nat then take n l ++ [x] else take n l.
Proof.
  destruct (le_lt_dec n (length l)) as [Hle|Hlt].
  - rewrite take_app_le by exact Hle.
    rewrite length_take, Nat.min_l by exact Hle.
    rewrite Nat.ltb_irrefl. reflexivity.
  - rewrite (take_ge l) by lia.
    rewrite take_ge by (rewrite length_app; simpl; lia).
    destruct (Nat.ltb_spec (length l) n); [reflexivity | lia].
Qed.

Lemma lines_of_style_absent s (lines : list SSAEvent) :
  s ∉ style <$> lines -> lines_of_style s lines = [].
Proof.
  induction lines as [|line lines IH]; [reflexivity|].
  rewrite fmap_cons, not_elem_of_cons. intros [Hne Hnot].
  unfold lines_of_style. cbn [List.filter].
  rewrite bool_decide_eq_false_2 by congruence. apply IH, Hnot.
Qed.

(** The examples kept for the lines [done] that were counted so far. *)
Lemma analyze_line_examples done acc line :
  (forall s,
     acc.2 !! s
     = if bool_decide (s ∈ style <$> done)
       then Some (take 5 (text <$> lines_of_style s done)) else None) ->
  ignored_style (style line) = false ->
  forall s,
    (analyze_line acc line).2 !! s
    = if bool_decide (s ∈ style <$> (done ++ [line]))
      then Some (take 5 (text <$> lines_of_style s (done ++ [line])))
      else None.
Proof.
  destruct acc as [counts examples]. intros Hinv Hkeep s.
  unfold analyze_line. rewrite Hkeep. cbn [snd] in *.
  unfold lines_of_style. rewrite List.filter_app, !fmap_app.
  cbn [List.filter fmap list_fmap].
  destruct (decide (style line = s)) as [<-|Hne].
  - rewrite lookup_insert_eq.
    rewrite (bool_decide_eq_true_2 (style line ∈ _)).
    2:{ rewrite elem_of_app, list_elem_of_singleton. right. reflexivity. }
    rewrite (bool_decide_eq_true_2 (style line = style line)) by reflexivity.
    cbn [fmap list_fmap]. rewrite take_snoc_limit. f_equal.
    assert (Hold : default [] (examples !! style line)
                   = take 5 (text <$> lines_of_style (style line) done)).
    { rewrite Hinv. case_bool_decide as Hin; [reflexivity|].
      rewrite (lines_of_style_absent _ _ Hin). reflexivity. }
    unfold lines_of_style in Hold. rewrite Hold. reflexivity.
  - rewrite lookup_insert_ne by exact Hne.
    rewrite (bool_decide_eq_false_2 (style line = s)) by exact Hne.
    cbn [fmap list_fmap]. rewrite !app_nil_r, Hinv.
    assert (Hiff : s ∈ style <$> done <-> s ∈ (style <$> done) ++ [style line]).
    { rewrite elem_of_app, list_elem_of_singleton. split; [auto|].
      intros [?|?]; [assumption | congruence]. }
    rewrite (bool_decide_ext _ _ Hiff). reflexivity.
Qed.

Lemma fold_analyze_line_examples lines done acc :
  (forall s,
     acc.2 !! s
     = if bool_decide (s ∈ style <$> done)
       then Some (take 5 (text <$> lines_of_style s done)) else None) ->
  let kept :=
    List.filter (fun line => negb (ignored_style (style line))) lines in
  forall s,
    (fold_left analyze_line lines acc).2 !! s
    = if bool_decide (s ∈ style <$> (done ++ kept))
      then Some (take 5 (text <$> lines_of_style s (done ++ kept)))
      else None.
Proof.
  revert done acc. induction lines as [|line lines IH]; intros done acc Hinv;
    cbn zeta.
  - simpl. rewrite app_nil_r. exact Hinv.
  - cbn [fold_left List.filter].
    destruct (ignored_style (style line)) eqn:E; cbn [negb].
    + replace (analyze_line acc line) with acc.
      * apply IH, Hinv.
      * destruct acc. unfold analyze_line. rewrite E. reflexivity.
    + intros s. rewrite (cons_middle line), app_assoc.
      apply (IH (done ++ [line])).
      apply analyze_line_examples; assumption.
Qed.

(** X10. The examples of the styles: when every file holds a document,
    the analysis returns, for every style of a line that is not skipped,
    the texts of the first five such lines of that style, in the order
    of the files and lines, and nothing for any other style. *)
Theorem X10_style_examples (w : world) (files : list pystr)
    (docs : list SSAFile) sorted_styles styles_examples w' :
  loaded w files docs ->
  analyze_subtitle_styles files w = (Ok (sorted_styles, styles_examples), w') ->
  forall s,
    styles_examples !! s
    = if bool_decide (s ∈ style <$> counted docs)
      then Some (take 5 (text <$> lines_of_style s (counted docs)))
      else None.
Proof.
  intros Hfiles Hrun. rewrite (analyze_subtitle_styles_run _ _ _ Hfiles) in Hrun.
  injection Hrun as _ <- _.
  apply (fold_analyze_line_examples (concat docs) [] ([], ∅)).
  intros s. cbn [snd]. rewrite lookup_empty, bool_decide_eq_false_2; [reflexivity|].
  apply not_elem_of_nil.
Qed.

Lemma X10_style_examples_witness :
  exists sorted_styles styles_examples w',
    analyze_subtitle_styles [lit "/subs/ep1.ass"] signs_world
    = (Ok (sorted_styles, styles_examples), w') /\
    styles_examples !! lit "Default" = Some [lit "Hello there"] /\
    styles_examples !! lit "Signs - Main" = None.
Proof.
  destruct (analyze_subtitle_styles [lit "/subs/ep1.ass"] signs_world)
    as [[[sorted_styles styles_examples]|e] w'] eqn:E.
  - exists sorted_styles, styles_examples, w'. split; [reflexivity|].
    assert (Hl : loaded signs_world [lit "/subs/ep1.ass"]
              [[dialogue (lit "Hello there");
                {| start := 0; end_ := 1000; text := lit "EXIT";
                   style := lit "Signs - Main"; is_comment := false |}]]).
    { constructor; [reflexivity | constructor]. }
    pose proof (X10_style_examples _ _ _ _ _ _ Hl E) as H.
    split; [apply (H (lit "Default")) | apply (H (lit "Signs - Main"))].
  - vm_compute in E. discriminate E.
Defined.

(** ** The stages and the file system *)

Lemma fs_same_refl w : fs_same w w.
Proof. reflexivity. Qed.

Lemma fs_same_trans w1 w2 w3 : fs_same w1 w2 -> fs_same w2 w3 -> fs_same w1 w3.
Proof. unfold fs_same. congruence. Qed.

Lemma outside_same_refl d w : outside_same d w w.
Proof. intros path _. reflexivity. Qed.

Lemma outside_same_trans d w1 w2 w3 :
  outside_same d w1 w2 -> outside_same d w2 w3 -> outside_same d w1 w3.
Proof. intros H1 H2 path Hp. rewrite (H2 path Hp). apply H1, Hp. Qed.

Lemma dir_stays_refl d w : dir_stays d w w.
Proof. intros H. exact H. Qed.

Lemma dir_stays_trans d w1 w2 w3 :
  dir_stays d w1 w2 -> dir_stays d w2 w3 -> dir_stays d w1 w3.
Proof. unfold dir_stays. auto. Qed.

Lemma fs_same_outside d w w' : fs_same w w' -> outside_same d w w'.
Proof. intros H path _. rewrite H. reflexivity. Qed.

Lemma fs_same_dir_stays d w w' : fs_same w w' -> dir_stays d w w'.
Proof. unfold fs_same, dir_stays, has_dir. intros ->. auto. Qed.

(** Goes through the binds, loops and case distinctions of [m] in a goal
    [always R m], for a reflexive and transitive [R]; [leaf] is tried on
    what is left. *)
Ltac always_tac refl trans leaf :=
  repeat first
    [ exact refl
    | exact trans
    | progress leaf
    | match goal with
      | |- always _ (mret _) => apply always_ret
      | |- always _ (raise _) => apply always_raise
      | |- always _ (_ ≫= _) => apply always_bind
      | |- always _ (mapM _ _) => apply always_mapM
      | |- always _ (foldM _ _ _) => apply always_foldM
      | |- always _ (try_except _ _) => apply always_try_except
      | |- always _ (let _ := _ in _) => cbv zeta
      | |- always _ (match ?x with _ => _ end) => destruct x
      | |- forall _, _ => intro
      end ].

Ltac fs_same_leaf :=
  first [ apply fs_same_print | apply fs_same_eprint | apply fs_same_input
        | apply fs_same_int | apply fs_same_getitem | apply fs_same_load ].

Lemma fs_same_user_confirmation matches category :
  always fs_same (user_confirmation matches category).
Proof.
  unfold user_confirmation. always_tac fs_same_refl fs_same_trans fs_same_leaf.
Qed.

Lemma fs_same_analyze_subtitle_styles subtitle_list :
  always fs_same (analyze_subtitle_styles subtitle_list).
Proof.
  unfold analyze_subtitle_styles.
  always_tac fs_same_refl fs_same_trans fs_same_leaf.
Qed.

Lemma fs_same_get_styles_to_keep sorted_styles styles_examples :
  always fs_same (get_styles_to_keep sorted_styles styles_examples).
Proof.
  unfold get_styles_to_keep.
  always_tac fs_same_refl fs_same_trans fs_same_leaf.
Qed.

(** *** The paths of the staged files *)

Lemma string_of_uint_digits d :
  Forall (fun c => (48 <= c <= 57)%N) (lit (NilEmpty.string_of_uint d)).
Proof.
  induction d; simpl; [constructor|..];
    (constructor; [vm_compute; split; discriminate | exact IHd]).
Qed.

Lemma str_of_Z_digits i :
  0 <= i ->
  str_of_Z i <> [] /\ Forall (fun c => (48 <= c <= 57)%N) (str_of_Z i).
Proof.
  intros Hi. unfold str_of_Z.
  assert (H : exists d, Z.to_int i = Decimal.Pos d).
  { destruct i; [eexists; reflexivity | eexists; reflexivity | lia]. }
  destruct H as [d ->]. unfold NilZero.string_of_int, NilZero.string_of_uint.
  destruct d; try (split; [discriminate | apply string_of_uint_digits]).
  split; [discriminate|]. repeat constructor; vm_compute; discriminate.
Qed.

Lemma last_app_ne {A} (l k : list A) : k <> [] -> last (l ++ k) = last k.
Proof.
  intros Hk. destruct k as [|x k] using rev_ind; [congruence|].
  rewrite app_assoc, !last_snoc. reflexivity.
Qed.

Lemma staging_last prefix w :
  exists c, last (staging prefix w) = Some c /\ c <> 47%N.
Proof.
  destruct (str_of_Z_digits (Z.of_nat (tmp_seq w))) as [Hne Hd]; [lia|].
  unfold staging. rewrite app_assoc, (last_app_ne _ _ Hne).
  destruct (last (str_of_Z (Z.of_nat (tmp_seq w)))) as [c|] eqn:E.
  - exists c. split; [reflexivity|].
    apply last_Some_elem_of in E. rewrite Forall_forall in Hd.
    specialize (Hd c E). lia.
  - apply last_None in E. contradiction.
Qed.

Lemma path_join_dir d name :
  (exists c, last d = Some c /\ c <> 47%N) ->
  startswith (lit "/") name = false ->
  path_join d name = d ++ lit "/" ++ name.
Proof.
  intros (c & Hl & Hc) Hn. unfold path_join. rewrite Hn, Hl.
  destruct (N.eqb_spec c 47); [contradiction | reflexivity].
Qed.

Lemma beneath_staged d name : beneath d (d ++ lit "/" ++ name) = true.
Proof.
  unfold beneath. apply orb_true_iff. right.
  apply startswith_spec. exists name. rewrite <- app_assoc. reflexivity.
Qed.

Lemma basename_go_no_slash cur p :
  Forall (fun c => c <> 47%N) cur ->
  Forall (fun c => c <> 47%N) (basename_go cur p).
Proof.
  revert cur. induction p as [|c p IH]; intros cur Hcur; simpl.
  - rewrite Forall_forall in *. intros x Hx. apply Hcur.
    apply list_elem_of_In. apply list_elem_of_In, in_rev in Hx. exact Hx.
  - destruct (N.eqb_spec c 47).
    + apply IH. constructor.
    + apply IH. constructor; assumption.
Qed.

Lemma basename_no_slash p : Forall (fun c => c <> 47%N) (basename p).
Proof. apply basename_go_no_slash. constructor. Qed.

Lemma splitext_root_prefix p : exists ext, p = splitext_root p ++ ext.
Proof.
  unfold splitext_root. destruct (last_dot p) as [i|].
  - destruct (forallb _ _).
    + exists []. rewrite app_nil_r. reflexivity.
    + exists (drop i p). rewrite take_drop. reflexivity.
  - exists []. rewrite app_nil_r. reflexivity.
Qed.

Lemma splitext_root_no_slash p :
  Forall (fun c => c <> 47%N) p ->
  Forall (fun c => c <> 47%N) (splitext_root p).
Proof.
  intros H. destruct (splitext_root_prefix p) as [ext E].
  rewrite E in H. apply Forall_app in H as [H _]. exact H.
Qed.

Lemma startswith_slash_cons c s :
  c <> 47%N -> startswith (lit "/") (c :: s) = false.
Proof.
  intros Hc. change (lit "/") with [47%N]. cbn [startswith].
  rewrite andb_true_r. apply N.eqb_neq. congruence.
Qed.

Lemma startswith_slash_false name rest :
  Forall (fun c => c <> 47%N) name -> rest <> [] ->
  Forall (fun c => c <> 47%N) (take 1 rest) ->
  startswith (lit "/") (name ++ rest) = false.
Proof.
  intros Hn Hr Hr1. destruct name as [|c name]; cbn [app].
  - destruct rest as [|c rest]; [congruence|]. cbn [take] in Hr1.
    inversion Hr1; subst. apply startswith_slash_cons. assumption.
  - inversion Hn; subst. apply startswith_slash_cons. assumption.
Qed.

Lemma startswith_slash_basename p : startswith (lit "/") (basename p) = false.
Proof.
  pose proof (basename_no_slash p) as H.
  destruct (basename p) as [|c name]; [reflexivity|].
  inversion H; subst. apply startswith_slash_cons. assumption.
Qed.

Lemma startswith_slash_stem p ext :
  startswith (lit "/") (splitext_root (basename p) ++ lit "." ++ ext) = false.
Proof.
  apply startswith_slash_false.
  - apply splitext_root_no_slash, basename_no_slash.
  - discriminate.
  - repeat constructor. discriminate.
Qed.

(** *** Nothing outside the staging directory is touched *)

Lemma mkdtemp_inv prefix w r w' :
  mkdtemp prefix w = (r, w') ->
  (r = Raise (FileExistsError (staging prefix w)) /\
   is_Some (fs w !! staging prefix w) /\ fs w' = fs w) \/
  (r = Ok (staging prefix w) /\ fs w !! staging prefix w = None /\
   fs w' = <[staging prefix w := Dir]> (fs w)).
Proof.
  unfold mkdtemp. fold (staging prefix w). intros H.
  destruct (fs w !! staging prefix w) eqn:E; injection H as <- <-.
  - left. eauto.
  - right. auto.
Qed.

Lemma beneath_self d : beneath d d = true.
Proof. unfold beneath. rewrite bool_decide_eq_true_2; reflexivity. Qed.

Lemma outside_same_insert d path x w w' :
  beneath d path = true -> fs w' = <[path := x]> (fs w) -> outside_same d w w'.
Proof.
  intros Hb Hfs p Hp. rewrite Hfs. apply lookup_insert_ne. congruence.
Qed.

Lemma outside_same_write_file d path doc :
  beneath d path = true -> always (outside_same d) (write_file path doc).
Proof.
  intros Hb w r w' H. unfold write_file in H.
  destruct (fs w !! path) as [[|?]|]; injection H as _ <-;
    first [apply outside_same_refl
          | eapply outside_same_insert; [exact Hb | reflexivity]].
Qed.

Lemma stage_frame_mkdtemp {A} prefix (rest : pystr -> M A) :
  (forall d, (exists c, last d = Some c /\ c <> 47%N) ->
             always (outside_same d) (rest d)) ->
  stage_frame prefix (mkdtemp prefix ≫= rest).
Proof.
  intros Hrest w r w' H. rewrite bind_eq in H.
  destruct (mkdtemp prefix w) as [[d|e] w1] eqn:E;
    apply mkdtemp_inv in E as [(Hr & _ & Hfs) | (Hr & _ & Hfs)];
    try discriminate.
  - injection Hr as ->.
    eapply outside_same_trans.
    + eapply outside_same_insert; [apply beneath_self | exact Hfs].
    + eapply Hrest; [apply staging_last | exact H].
  - injection H as _ <-. apply fs_same_outside, Hfs.
Qed.

(** The leaves of a stage with the staging directory [d]: what leaves the
    file system alone, and the writes beneath [d]. *)
Ltac outside_leaf :=
  first
    [ apply (always_weaken fs_same);
      [ apply fs_same_outside
      | first [ fs_same_leaf | apply fs_same_user_confirmation
              | apply fs_same_analyze_subtitle_styles
              | apply fs_same_get_styles_to_keep ] ]
    | apply outside_same_write_file;
      rewrite path_join_dir
        by first [ assumption | apply startswith_slash_basename
                 | apply startswith_slash_stem ];
      apply beneath_staged ].

Ltac outside_tac d :=
  always_tac (outside_same_refl d) (outside_same_trans d) outside_leaf.

Section ExtractionFrame.
Variable mkvextract : pystr -> Z -> SSAFile + pystr.

Lemma extract_subtitles_frame video_file_paths subtitle_codecs
    selected_stream_indices :
  stage_frame (lit "subtitle_extraction")
    (extract_subtitles mkvextract video_file_paths subtitle_codecs
       selected_stream_indices).
Proof.
  unfold extract_subtitles. destruct (negb _).
  - intros w r w' H. injection H as _ <-. apply outside_same_refl.
  - apply stage_frame_mkdtemp. intros d Hd.
    unfold extract_subtitle. outside_tac d.
Qed.

End ExtractionFrame.

Lemma clean_tags_frame subtitle_list :
  stage_frame (lit "cleaned_subtitles_") (clean_tags subtitle_list).
Proof.
  unfold clean_tags. apply stage_frame_mkdtemp. intros d Hd.
  unfold clean_tags_body. outside_tac d.
Qed.

Lemma clean_up_japanese_subs_frame subtitle_files :
  stage_frame (lit "cleaned_subs_") (clean_up_japanese_subs subtitle_files).
Proof.
  unfold clean_up_japanese_subs. apply stage_frame_mkdtemp. intros d Hd.
  outside_tac d.
Qed.

(** X11. Each of the three stages that make a staging directory changes
    nothing in the file system outside that directory, whether it
    returns or raises: every path that is not the staging directory and
    not beneath it holds afterwards what it held before. *)
Theorem X11_stages_touch_only_staging_area mkvextract video_file_paths
    subtitle_codecs selected_stream_indices subtitle_list :
  stage_frame (lit "subtitle_extraction")
    (extract_subtitles mkvextract video_file_paths subtitle_codecs
       selected_stream_indices) /\
  stage_frame (lit "cleaned_subtitles_") (clean_tags subtitle_list) /\
  stage_frame (lit "cleaned_subs_") (clean_up_japanese_subs subtitle_list).
Proof.
  split; [apply extract_subtitles_frame|].
  split; [apply clean_tags_frame | apply clean_up_japanese_subs_frame].
Qed.

(** *** A stage and its cleanup action *)

Lemma mkdtemp_inv_ok prefix w d w' :
  mkdtemp prefix w = (Ok d, w') ->
  d = staging prefix w /\ fs w !! d = None /\ has_dir d w'.
Proof.
  intros H. pose proof (has_dir_mkdtemp _ _ _ _ H) as Hd.
  apply mkdtemp_inv in H as [(Hr & _) | (Hr & Hnone & _)]; [discriminate|].
  injection Hr as ->. auto.
Qed.

Lemma stage_round_trip_intro prefix (stage : M (list pystr * M unit)) :
  cleanup_contract stage ->
  stage_frame prefix stage ->
  (forall w paths cleanup w1,
     stage w = (Ok (paths, cleanup), w1) ->
     cleanup = rmtree (staging prefix w)) ->
  stage_round_trip prefix stage.
Proof.
  intros Hcontract Hframe Hcleanup w paths cleanup w1 Hfree Hrun.
  destruct (Hcontract _ _ _ _ Hrun)
    as (d & w2 & _ & _ & Hfirst & Hgone & Hrest & Hsecond).
  exists w2. split; [exact Hfirst|].
  assert (Hd : d = staging prefix w).
  { rewrite (Hcleanup _ _ _ _ Hrun) in Hsecond. unfold rmtree in Hsecond.
    destruct (fs w2 !! staging prefix w) as [[|?]|]; try discriminate.
    injection Hsecond as ->. reflexivity. }
  subst d. apply map_eq. intros path.
  destruct (beneath (staging prefix w) path) eqn:E.
  - rewrite (Hgone _ E), (Hfree _ E). reflexivity.
  - rewrite (Hrest _ E). apply (Hframe _ _ _ Hrun), E.
Qed.

Section ExtractionRoundTrip.
Variable mkvextract : pystr -> Z -> SSAFile + pystr.

Lemma extract_subtitles_round_trip video_file_paths subtitle_codecs
    selected_stream_indices :
  stage_round_trip (lit "subtitle_extraction")
    (extract_subtitles mkvextract video_file_paths subtitle_codecs
       selected_stream_indices).
Proof.
  apply stage_round_trip_intro;
    [apply extract_subtitles_cleanup | apply extract_subtitles_frame|].
  intros w paths cleanup w1 H. unfold extract_subtitles in H.
  destruct (negb _); [discriminate|].
  inv_bind H. apply mkdtemp_inv_ok in H0 as (-> & _).
  inv_bind H. injection H as _ <- _. reflexivity.
Qed.

End ExtractionRoundTrip.

Lemma clean_tags_round_trip subtitle_list :
  stage_round_trip (lit "cleaned_subtitles_") (clean_tags subtitle_list).
Proof.
  apply stage_round_trip_intro;
    [apply clean_tags_cleanup | apply clean_tags_frame|].
  intros w paths cleanup w1 H.
  apply clean_tags_inv_ok in H as (d & w0 & Hd & H).
  apply mkdtemp_inv_ok in Hd as (-> & _).
  unfold clean_tags_body in H.
  inv_bind H. destruct a as [sorted_styles styles_examples].
  inv_bind H. inv_bind H. injection H as _ <- _. reflexivity.
Qed.

Lemma clean_up_japanese_subs_round_trip subtitle_files :
  stage_round_trip (lit "cleaned_subs_") (clean_up_japanese_subs subtitle_files).
Proof.
  apply stage_round_trip_intro;
    [apply clean_up_japanese_subs_cleanup | apply clean_up_japanese_subs_frame|].
  intros w paths cleanup w1 H. unfold clean_up_japanese_subs in H.
  inv_bind H. apply mkdtemp_inv_ok in H0 as (-> & _).
  do 7 inv_bind H. injection H as _ <- _. reflexivity.
Qed.

(** X12. Round trip: when nothing lies beneath the name that the staging
    directory is going to take, a stage that returns, followed by one
    call of the cleanup action it returned, leaves the file system
    exactly as it was before the stage; so for each of the three
    stages. *)
Theorem X12_stage_then_cleanup_restores mkvextract video_file_paths
    subtitle_codecs selected_stream_indices subtitle_list :
  stage_round_trip (lit "subtitle_extraction")
    (extract_subtitles mkvextract video_file_paths subtitle_codecs
       selected_stream_indices) /\
  stage_round_trip (lit "cleaned_subtitles_") (clean_tags subtitle_list) /\
  stage_round_trip (lit "cleaned_subs_") (clean_up_japanese_subs subtitle_list).
Proof.
  split; [apply extract_subtitles_round_trip|].
  split; [apply clean_tags_round_trip | apply clean_up_japanese_subs_round_trip].
Qed.

Lemma X12_stage_then_cleanup_restores_witness :
  exists paths cleanup w1 w2,
    clean_up_japanese_subs [lit "/subs/ep1.ass"] sighs_world
    = (Ok (paths, cleanup), w1) /\
    cleanup w1 = (Ok tt, w2) /\
    fs w2 = fs sighs_world.
Proof.
  destruct (clean_up_japanese_subs [lit "/subs/ep1.ass"] sighs_world)
    as [[[paths cleanup]|e] w1] eqn:E.
  - destruct (X12_stage_then_cleanup_restores (fun _ _ => inl []) [] [] []
                [lit "/subs/ep1.ass"]) as (_ & _ & Hstage).
    destruct (Hstage sighs_world paths cleanup w1) as (w2 & H1 & H2).
    + intros path Hb.
      destruct (decide (path = lit "/subs/ep1.ass")) as [->|Hne].
      * vm_compute in Hb. discriminate Hb.
      * unfold sighs_world. cbn [fs].
        rewrite lookup_insert_ne by congruence. apply lookup_empty.
    + exact E.
    + exists paths, cleanup, w1, w2. auto.
  - apply (f_equal returned_paths) in E. vm_compute in E. discriminate E.
Defined.

(** *** What a failing stage leaves behind *)

Lemma dir_stays_write_file d path doc :
  always (dir_stays d) (write_file path doc).
Proof.
  intros w r w' H Hd. unfold write_file in H. unfold has_dir in *.
  destruct (fs w !! path) as [[|?]|] eqn:E; injection H as _ <-;
    [exact Hd | |]; cbn [fs set_fs];
    (rewrite lookup_insert_ne; [exact Hd | intros ->; congruence]).
Qed.

Ltac dir_stays_leaf :=
  first
    [ apply (always_weaken fs_same);
      [ apply fs_same_dir_stays
      | first [ fs_same_leaf | apply fs_same_user_confirmation
              | apply fs_same_analyze_subtitle_styles
              | apply fs_same_get_styles_to_keep ] ]
    | apply dir_stays_write_file ].

Ltac dir_stays_tac d :=
  always_tac (dir_stays_refl d) (dir_stays_trans d) dir_stays_leaf.

Lemma stage_residue_mkdtemp {A} prefix (rest : pystr -> M A) :
  (forall d, always (dir_stays d) (rest d)) ->
  stage_residue prefix (mkdtemp prefix ≫= rest).
Proof.
  intros Hrest w e w' Hfree H. rewrite bind_eq in H.
  destruct (mkdtemp prefix w) as [[d|e0] w1] eqn:E.
  - apply mkdtemp_inv_ok in E as (-> & _ & Hd).
    eapply Hrest; [exact H | exact Hd].
  - apply mkdtemp_inv in E as [(_ & Hsome & _) | (Hr & _)]; [|discriminate].
    rewrite Hfree in Hsome. destruct Hsome as [x Hx]. discriminate Hx.
Qed.

Section ExtractionResidue.
Variable mkvextract : pystr -> Z -> SSAFile + pystr.

Lemma extract_subtitles_residue video_file_paths subtitle_codecs
    selected_stream_indices :
  length video_file_paths = length subtitle_codecs ->
  length subtitle_codecs = length selected_stream_indices ->
  stage_residue (lit "subtitle_extraction")
    (extract_subtitles mkvextract video_file_paths subtitle_codecs
       selected_stream_indices).
Proof.
  intros H1 H2. unfold extract_subtitles.
  rewrite H1, H2, !Nat.eqb_refl. cbn [andb negb].
  apply stage_residue_mkdtemp. intros d.
  unfold extract_subtitle. dir_stays_tac d.
Qed.

End ExtractionResidue.

Lemma clean_tags_residue subtitle_list :
  stage_residue (lit "cleaned_subtitles_") (clean_tags subtitle_list).
Proof.
  unfold clean_tags. apply stage_residue_mkdtemp. intros d.
  unfold clean_tags_body. dir_stays_tac d.
Qed.

Lemma clean_up_japanese_subs_residue subtitle_files :
  stage_residue (lit "cleaned_subs_") (clean_up_japanese_subs subtitle_files).
Proof.
  unfold clean_up_japanese_subs. apply stage_residue_mkdtemp. intros d.
  dir_stays_tac d.
Qed.

(** X13. No cleanup on failure: a stage that raises after it has made its
    staging directory leaves the directory in the file system; the
    cleanup action exists only in the value that a stage returns. For the
    extraction the lists have equal lengths, since otherwise it raises
    before it makes the directory. *)
Theorem X13_failed_stage_leaves_staging_directory mkvextract video_file_paths
    subtitle_codecs selected_stream_indices subtitle_list :
  (length video_file_paths = length subtitle_codecs ->
   length subtitle_codecs = length selected_stream_indices ->
   stage_residue (lit "subtitle_extraction")
     (extract_subtitles mkvextract video_file_paths subtitle_codecs
        selected_stream_indices)) /\
  stage_residue (lit "cleaned_subtitles_") (clean_tags subtitle_list) /\
  stage_residue (lit "cleaned_subs_") (clean_up_japanese_subs subtitle_list).
Proof.
  split; [apply extract_subtitles_residue|].
  split; [apply clean_tags_residue | apply clean_up_japanese_subs_residue].
Qed.

Lemma X13_failed_stage_leaves_staging_directory_witness :
  exists e w',
    extract_subtitles (fun _ _ => inr (lit "no such track"))
      [lit "/videos/ep1.mkv"] [lit "ass"] [2] sighs_world
    = (Raise e, w') /\
    has_dir (lit "/tmp/subtitle_extraction0") w'.
Proof.
  destruct (extract_subtitles (fun _ _ => inr (lit "no such track"))
              [lit "/videos/ep1.mkv"] [lit "ass"] [2] sighs_world)
    as [[[paths cleanup]|e] w'] eqn:E.
  - apply (f_equal returned_paths) in E. vm_compute in E. discriminate E.
  - exists e, w'. split; [reflexivity|].
    destruct (X13_failed_stage_leaves_staging_directory
                (fun _ _ => inr (lit "no such track"))
                [lit "/videos/ep1.mkv"] [lit "ass"] [2] []) as (Hstage & _).
    apply (Hstage eq_refl eq_refl sighs_world e w'); [reflexivity | exact E].
Defined.

(** *** How [clean_tags] reports a failure *)

Section RaisesOnly.
Context (P : exn -> Prop).

Lemma raises_ret {A} (a : A) : raises_only P (mret a).
Proof. intros w e w' H. discriminate H. Qed.

Lemma raises_raise {A} (e : exn) : P e -> raises_only P (@raise A e).
Proof. intros He w e' w' H. injection H as <- _. exact He. Qed.

Lemma raises_bind {A B} (m : M A) (f : A -> M B) :
  raises_only P m -> (forall a, raises_only P (f a)) ->
  raises_only P (m ≫= f).
Proof.
  intros Hm Hf w e w' H. rewrite bind_eq in H.
  destruct (m w) as [[a|e0] w1] eqn:E.
  - eapply Hf; exact H.
  - injection H as <- _. eapply Hm; exact E.
Qed.

Lemma raises_mapM {A B} (f : A -> M B) (l : list A) :
  (forall x, raises_only P (f x)) -> raises_only P (mapM f l).
Proof.
  intros Hf. induction l as [|x l IH]; simpl.
  - apply (raises_ret []).
  - apply raises_bind; [apply Hf|]. intros y.
    apply raises_bind; [exact IH|]. intros k. apply (raises_ret (y :: k)).
Qed.

Lemma raises_foldM {A B} (body : B -> A -> M B) (l : list A) acc :
  (forall acc x, raises_only P (body acc x)) ->
  raises_only P (foldM body acc l).
Proof.
  intros Hb. revert acc. induction l as [|x l IH]; intros acc; simpl.
  - apply raises_ret.
  - apply raises_bind; [apply Hb | exact IH].
Qed.

End RaisesOnly.

Lemma raises_print P s : raises_only P (print s).
Proof. intros w e w' H. discriminate H. Qed.

Lemma raises_input s : raises_only (fun e => is_Exception e = true) (input s).
Proof.
  intros w e w' H. unfold input in H.
  destruct (stdin w); [injection H as <- _; reflexivity | discriminate].
Qed.

Lemma raises_load path :
  raises_only (fun e => is_Exception e = true) (load path).
Proof.
  intros w e w' H. unfold load in H.
  destruct (fs w !! path) as [[|?]|]; try discriminate;
    injection H as <- _; reflexivity.
Qed.

Lemma raises_write_file path doc :
  raises_only (fun e => is_Exception e = true) (write_file path doc).
Proof.
  intros w e w' H. unfold write_file in H.
  destruct (fs w !! path) as [[|?]|]; try discriminate;
    injection H as <- _; reflexivity.
Qed.

Lemma raises_int s : raises_only (fun e => is_Exception e = true) (int s).
Proof.
  intros w e w' H. rewrite int_run in H.
  destruct (py_int s); [discriminate | injection H as <- _; reflexivity].
Qed.

Lemma raises_getitem {A} (l : list A) i :
  raises_only (fun e => is_Exception e = true) (getitem l i).
Proof.
  intros w e w' H. unfold getitem in H.
  destruct (_ && _); [destruct (l !! _)|]; try discriminate;
    injection H as <- _; reflexivity.
Qed.

Ltac raises_tac :=
  repeat first
    [ apply raises_print | apply raises_input | apply raises_load
    | apply raises_write_file | apply raises_int | apply raises_getitem
    | apply raises_ret
    | apply raises_raise; reflexivity
    | match goal with
      | |- raises_only _ (_ ≫= _) => apply raises_bind
      | |- raises_only _ (mapM _ _) => apply raises_mapM
      | |- raises_only _ (foldM _ _ _) => apply raises_foldM
      | |- raises_only _ (let _ := _ in _) => cbv zeta
      | |- raises_only _ (match ?x with _ => _ end) => destruct x
      | |- forall _, _ => intro
      end ].

Lemma clean_tags_body_raises temp_dir subtitle_list :
  raises_only (fun e => is_Exception e = true)
    (clean_tags_body temp_dir subtitle_list).
Proof.
  unfold clean_tags_body, analyze_subtitle_styles, get_styles_to_keep.
  raises_tac.
Qed.

Lemma stderr_same_refl w : stderr_same w w.
Proof. reflexivity. Qed.

Lemma stderr_same_trans w1 w2 w3 :
  stderr_same w1 w2 -> stderr_same w2 w3 -> stderr_same w1 w3.
Proof. unfold stderr_same. congruence. Qed.

Lemma stderr_same_print s : always stderr_same (print s).
Proof. intros w r w' H. injection H as _ <-. reflexivity. Qed.

Lemma stderr_same_input s : always stderr_same (input s).
Proof.
  intros w r w' H. unfold input in H.
  destruct (stdin w); injection H as _ <-; reflexivity.
Qed.

Lemma stderr_same_load path : always stderr_same (load path).
Proof. intros w r w' H. apply load_world in H. subst. reflexivity. Qed.

Lemma stderr_same_write_file path doc : always stderr_same (write_file path doc).
Proof.
  intros w r w' H. unfold write_file in H.
  destruct (fs w !! path) as [[|?]|]; injection H as _ <-; reflexivity.
Qed.

Lemma stderr_same_int s : always stderr_same (int s).
Proof.
  intros w r w' H. rewrite int_run in H.
  destruct (py_int s); injection H as _ <-; reflexivity.
Qed.

Lemma stderr_same_getitem {A} (l : list A) i : always stderr_same (getitem l i).
Proof. intros w r w' H. apply getitem_world in H. subst. reflexivity. Qed.

Ltac stderr_same_leaf :=
  first [ apply stderr_same_print | apply stderr_same_input
        | apply stderr_same_load | apply stderr_same_write_file
        | apply stderr_same_int | apply stderr_same_getitem ].

Lemma clean_tags_body_stderr temp_dir subtitle_list :
  always stderr_same (clean_tags_body temp_dir subtitle_list).
Proof.
  unfold clean_tags_body, analyze_subtitle_styles, get_styles_to_keep.
  always_tac stderr_same_refl stderr_same_trans stderr_same_leaf.
Qed.

Lemma mkdtemp_stderr prefix w r0 w' :
  mkdtemp prefix w = (r0, w') -> stderr w' = stderr w.
Proof.
  unfold mkdtemp. destruct (fs w !! _); intros H; injection H as _ <-;
    reflexivity.
Qed.

(** X14. How the style filter fails: when [clean_tags] raises, either the
    name of the staging directory was taken and [mkdtemp] raised
    [FileExistsError] before the [try], with nothing written to the
    error stream; or the [try] block raised the very same exception, the
    staging directory is still there, and exactly one line, which begins
    with [Error during subtitle cleaning: ], has been added to the error
    stream. *)
Theorem X14_clean_tags_reports_and_reraises subtitle_list w e w' :
  clean_tags subtitle_list w = (Raise e, w') ->
  (e = FileExistsError (staging (lit "cleaned_subtitles_") w) /\
   stderr w' = stderr w) \/
  (exists w1 w2 detail,
     mkdtemp (lit "cleaned_subtitles_") w
     = (Ok (staging (lit "cleaned_subtitles_") w), w1) /\
     clean_tags_body (staging (lit "cleaned_subtitles_") w) subtitle_list w1
     = (Raise e, w2) /\
     has_dir (staging (lit "cleaned_subtitles_") w) w' /\
     stdout w' = stdout w2 /\
     stderr w'
     = stderr w
       ++ [lit "Error during subtitle cleaning: " ++ detail ++ [NL]]).
Proof.
  intros H. unfold clean_tags in H. rewrite bind_eq in H.
  destruct (mkdtemp (lit "cleaned_subtitles_") w) as [[d|e0] w1] eqn:Em.
  - right. pose proof Em as Hd.
    apply mkdtemp_inv_ok in Hd as (-> & Hfree & _).
    pose proof (mkdtemp_stderr _ _ _ _ Em) as Herr.
    unfold try_except in H.
    destruct (clean_tags_body _ subtitle_list w1) as [[a|e1] w2] eqn:Eb;
      [discriminate|].
    pose proof (clean_tags_body_raises _ _ _ _ _ Eb) as Hexc.
    pose proof (clean_tags_body_stderr _ _ _ _ _ Eb) as Hsame.
    simpl in Hexc. rewrite Hexc in H.
    rewrite bind_eq in H. cbn in H. injection H as <- <-.
    exists w1, w2, (str_of_exn e1).
    split; [reflexivity|]. split; [exact Eb|]. split.
    + eapply (clean_tags_residue subtitle_list w e1); [exact Hfree|].
      unfold clean_tags. rewrite bind_eq, Em. unfold try_except.
      rewrite Eb, Hexc. reflexivity.
    + split; [reflexivity|]. cbn [stderr set_stderr].
      rewrite Hsame, Herr. try rewrite <- app_assoc. reflexivity.
  - left. injection H as <- <-.
    pose proof (mkdtemp_stderr _ _ _ _ Em) as Herr.
    apply mkdtemp_inv in Em as [(Hr & _) | (Hr & _)]; [|discriminate].
    injection Hr as ->. split; [reflexivity | exact Herr].
Qed.

Lemma X14_clean_tags_reports_and_reraises_witness :
  exists e w',
    clean_tags [lit "/subs/missing.ass"] sighs_world = (Raise e, w') /\
    exists detail,
      stderr w' = [lit "Error during subtitle cleaning: " ++ detail ++ [NL]].
Proof.
  destruct (clean_tags [lit "/subs/missing.ass"] sighs_world)
    as [[[paths cleanup]|e] w'] eqn:E.
  - apply (f_equal returned_paths) in E. vm_compute in E. discriminate E.
  - exists e, w'. split; [reflexivity|].
    destruct (X14_clean_tags_reports_and_reraises _ _ _ _ E)
      as [[_ Herr] | (w1 & w2 & detail & _ & _ & _ & _ & Herr)].
    + exfalso.
      assert (Hs : stderr (clean_tags [lit "/subs/missing.ass"] sighs_world).2
                   = stderr w') by (rewrite E; reflexivity).
      rewrite Herr in Hs. vm_compute in Hs. discriminate Hs.
    + exists detail. exact Herr.
Defined.

(** ** What the stages save *)

Lemma sighs_world_free prefix : staging_free prefix sighs_world.
Proof.
  intros path Hb. unfold sighs_world. cbn [fs].
  apply lookup_insert_None. split; [apply lookup_empty|].
  intros <-. unfold beneath in Hb. apply orb_true_iff in Hb as [Hb|Hb].
  - apply bool_decide_eq_true in Hb.
    apply (f_equal (take 5)) in Hb. discriminate Hb.
  - apply startswith_spec in Hb as [rest Hb].
    apply (f_equal (take 5)) in Hb. discriminate Hb.
Qed.

Lemma mapM_fmap {X Y B} (g : X -> Y) (f : Y -> M B) (l : list X) w :
  mapM f (g <$> l) w = mapM (fun x => f (g x)) l w.
Proof.
  revert w. induction l as [|x l IH]; intros w; [reflexivity|].
  cbn [fmap list_fmap mapM]. fold (fmap g l).
  rewrite !bind_eq. destruct (f (g x) w) as [[y|e] w1]; [|reflexivity].
  rewrite !bind_eq, IH. reflexivity.
Qed.

(** A loop whose every turn writes one file and returns its path. *)
Lemma mapM_writes {X} (body : X -> M pystr) (out : X -> pystr)
    (content : X -> SSAFile) (Pre : X -> world -> Prop) (l : list X) :
  (forall x w, Pre x w ->
     exists w', body x w = (Ok (out x), w') /\
                fs w' = <[out x := File (content x)]> (fs w) /\
                stdin w' = stdin w) ->
  (forall x y w w', x ∈ l -> y ∈ l -> Pre y w ->
     fs w' = <[out x := File (content x)]> (fs w) -> Pre y w') ->
  forall w, Forall (fun x => Pre x w) l ->
    exists w', mapM body l w = (Ok (out <$> l), w') /\
               fs w' = with_files ((fun x => (out x, content x)) <$> l) (fs w) /\
               stdin w' = stdin w.
Proof.
  intros Hstep. induction l as [|x l IH]; intros Hkeep w Hpre.
  - exists w. repeat split.
  - inversion Hpre as [|? ? Hx Hl]; subst.
    destruct (Hstep x w Hx) as (w1 & Hrun & Hfs & Hin).
    destruct (IH (fun x' y w0 w0' Hx' Hy => Hkeep x' y w0 w0'
                    (list_elem_of_further _ _ _ Hx')
                    (list_elem_of_further _ _ _ Hy)) w1)
      as (w2 & Hrun2 & Hfs2 & Hin2).
    { rewrite Forall_forall in *. intros y Hy.
      apply (Hkeep x y w w1); [left | right; exact Hy | apply Hl, Hy | exact Hfs]. }
    exists w2. split; [|split].
    + cbn [mapM fmap list_fmap]. erewrite bind_ok by exact Hrun.
      erewrite bind_ok by exact Hrun2. reflexivity.
    + rewrite Hfs2, Hfs. reflexivity.
    + congruence.
Qed.

Lemma Forall2_zip_Forall {X Y} (P : X -> Y -> Prop) l k :
  Forall2 P l k -> Forall (fun x => P x.1 x.2) (zip l k).
Proof. induction 1; constructor; assumption. Qed.

Lemma fmap_zip_fst {X Y Z} (f : X -> Z) (l : list X) (k : list Y) :
  (fun x => (f x.1, x.2)) <$> zip l k = zip (f <$> l) k.
Proof.
  revert k. induction l as [|x l IH]; intros [|y k]; try reflexivity.
  cbn [zip zip_with fmap list_fmap]. f_equal. apply IH.
Qed.

Lemma fmap_zip_both {X Y X' Y'} (f : X -> X') (g : Y -> Y') l k :
  (fun x => (f x.1, g x.2)) <$> zip l k = zip (f <$> l) (g <$> k).
Proof.
  revert k. induction l as [|x l IH]; intros [|y k]; try reflexivity.
  cbn [zip zip_with fmap list_fmap]. f_equal. apply IH.
Qed.

Lemma staged_ne_dir d name : d ++ lit "/" ++ name <> d.
Proof.
  intros H. apply (f_equal length) in H. rewrite !length_app in H.
  simpl in H. lia.
Qed.

Lemma staged_not_dir_insert (d name path : pystr) (doc : SSAFile)
    (m : gmap pystr node) :
  m !! (d ++ lit "/" ++ name) <> Some Dir ->
  <[path := File doc]> m !! (d ++ lit "/" ++ name) <> Some Dir.
Proof.
  intros H. destruct (decide (path = d ++ lit "/" ++ name)) as [->|Hne].
  - rewrite lookup_insert_eq. discriminate.
  - rewrite lookup_insert_ne by exact Hne. exact H.
Qed.

Lemma staged_after_mkdtemp prefix w name :
  staging_free prefix w ->
  <[staging prefix w := Dir]> (fs w) !! (staging prefix w ++ lit "/" ++ name)
  = None.
Proof.
  intros Hfree. rewrite lookup_insert_ne.
  - apply Hfree, beneath_staged.
  - intros H. symmetry in H. revert H. apply staged_ne_dir.
Qed.

Lemma mkdtemp_run prefix w :
  fs w !! staging prefix w = None ->
  exists w1,
    mkdtemp prefix w = (Ok (staging prefix w), w1) /\
    fs w1 = <[staging prefix w := Dir]> (fs w) /\ stdin w1 = stdin w.
Proof.
  intros H. unfold mkdtemp. fold (staging prefix w). rewrite H.
  eexists. repeat split.
Qed.

Section ExtractionResult.
Variable mkvextract : pystr -> Z -> SSAFile + pystr.

(** X15. What the extraction leaves: for lists of equal length, a free
    staging name and a tool that succeeds on every file, the stage
    returns one path per video, [<staging directory>/<name of the video
    without its last extension>.<codec>], in the order of the videos;
    afterwards the file system is the one before with the staging
    directory and, written in that order, the documents of the selected
    tracks under these paths; no input is read. *)
Theorem X15_extraction_result video_file_paths subtitle_codecs
    selected_stream_indices docs w :
  let d := staging (lit "subtitle_extraction") w in
  let jobs := zip (zip video_file_paths subtitle_codecs)
                selected_stream_indices in
  let target := fun job : pystr * pystr * Z =>
    d ++ lit "/" ++ splitext_root (basename job.1.1) ++ lit "." ++ job.1.2 in
  length video_file_paths = length subtitle_codecs ->
  length subtitle_codecs = length selected_stream_indices ->
  staging_free (lit "subtitle_extraction") w ->
  Forall2 (fun job doc => mkvextract job.1.1 job.2 = inl doc) jobs docs ->
  exists w',
    extract_subtitles mkvextract video_file_paths subtitle_codecs
      selected_stream_indices w
    = (Ok (target <$> jobs, rmtree d), w') /\
    fs w' = with_files (zip (target <$> jobs) docs) (<[d := Dir]> (fs w)) /\
    stdin w' = stdin w.
Proof.
  intros d jobs target H1 H2 Hfree Htool. unfold extract_subtitles.
  rewrite H1, H2, !Nat.eqb_refl. cbn [andb negb].
  destruct (mkdtemp_run (lit "subtitle_extraction") w) as (w1 & Hd & Hfs1 & Hin1).
  { apply Hfree, beneath_self. }
  fold d in Hd, Hfs1. erewrite bind_ok by exact Hd. fold jobs.
  match goal with |- context [mapM ?f jobs] => set (body := f) end.
  assert (Hjobs : jobs = fst <$> zip jobs docs).
  { symmetry. apply fst_zip. apply Forall2_length in Htool. lia. }
  destruct (mapM_writes (fun x : pystr * pystr * Z * SSAFile => body x.1)
              (fun x => target x.1) (fun x => x.2)
              (fun x w0 => mkvextract x.1.1.1 x.1.2 = inl x.2 /\
                           fs w0 !! target x.1 <> Some Dir)
              (zip jobs docs)) with (w := w1) as (w2 & Hrun & Hfs2 & Hin2).
  - intros [[[video codec] idx] doc] w0 [Hm Hnd]. cbn [fst snd] in *.
    unfold body. cbv zeta.
    rewrite path_join_dir
      by first [apply staging_last | apply startswith_slash_stem].
    fold d. unfold extract_subtitle. rewrite Hm.
    unfold target in Hnd. cbn [fst snd] in Hnd.
    rewrite bind_eq. cbn [print]. rewrite bind_eq. unfold write_file.
    cbn [fs set_stdout].
    destruct (fs w0 !! _) as [[|?]|] eqn:E; [congruence | |];
      eexists; (split; [reflexivity|]); split; reflexivity.
  - intros x y w0 w0' _ _ [Hm Hnd] Hfs. split; [exact Hm|].
    rewrite Hfs. apply staged_not_dir_insert, Hnd.
  - apply Forall2_zip_Forall in Htool.
    rewrite Forall_forall in *. intros x Hx. split; [apply Htool, Hx|].
    rewrite Hfs1. unfold target, d.
    rewrite staged_after_mkdtemp by exact Hfree. discriminate.
  - assert (Hpaths : (fun x : pystr * pystr * Z * SSAFile => target x.1)
                       <$> zip jobs docs = target <$> jobs).
    { rewrite Hjobs at 2. rewrite <- list_fmap_compose. reflexivity. }
    assert (Hmap : mapM body jobs w1 = (Ok (target <$> jobs), w2)).
    { rewrite <- Hpaths, <- Hrun, Hjobs at 1. apply mapM_fmap. }
    exists w2. erewrite bind_ok by exact Hmap.
    split; [reflexivity|]. split; [|congruence].
    rewrite Hfs2, Hfs1, <- fmap_zip_fst. reflexivity.
Qed.

End ExtractionResult.

Lemma X15_extraction_result_witness :
  exists w',
    extract_subtitles (fun _ _ => inl [dialogue (lit "Hello there")])
      [lit "/videos/ep1.mkv"] [lit "ass"] [2] sighs_world
    = (Ok ([lit "/tmp/subtitle_extraction0/ep1.ass"],
           rmtree (lit "/tmp/subtitle_extraction0")), w') /\
    fs w' !! lit "/tmp/subtitle_extraction0/ep1.ass"
    = Some (File [dialogue (lit "Hello there")]).
Proof.
  destruct (X15_extraction_result
              (fun _ _ => inl [dialogue (lit "Hello there")])
              [lit "/videos/ep1.mkv"] [lit "ass"] [2]
              [[dialogue (lit "Hello there")]] sighs_world eq_refl eq_refl)
    as (w' & Hrun & Hfs & _).
  - apply sighs_world_free.
  - repeat constructor.
  - exists w'. split; [exact Hrun|]. rewrite Hfs. reflexivity.
Defined.

(** A loop that loads every file, transforms the document and saves it
    in the directory [d]. *)
Lemma save_loop_run (d : pystr) (T : SSAFile -> SSAFile)
    (name msg : pystr -> pystr) (body : pystr -> M pystr) files docs w :
  (forall f w0,
     body f w0
     = (subtitle ← load f;
        write_file (path_join d (name f)) (T subtitle);;
        print (msg (path_join d (name f)));;
        mret (path_join d (name f))) w0) ->
  (exists c, last d = Some c /\ c <> 47%N) ->
  (forall f, startswith (lit "/") (name f) = false) ->
  loaded w files docs ->
  Forall (fun f => beneath d f = false) files ->
  Forall (fun f => fs w !! (d ++ lit "/" ++ name f) <> Some Dir) files ->
  exists w',
    mapM body files w = (Ok ((fun f => d ++ lit "/" ++ name f) <$> files), w') /\
    fs w' = with_files (zip ((fun f => d ++ lit "/" ++ name f) <$> files)
                          (T <$> docs)) (fs w) /\
    stdin w' = stdin w.
Proof.
  intros Hbody Hd Hname Hloaded Hout Hnd.
  set (out := fun f => d ++ lit "/" ++ name f).
  assert (Hfiles : files = fst <$> zip files docs).
  { symmetry. apply fst_zip. apply Forall2_length in Hloaded. lia. }
  destruct (mapM_writes (fun x : pystr * SSAFile => body x.1)
              (fun x => out x.1) (fun x => T x.2)
              (fun x w0 => fs w0 !! x.1 = Some (File x.2) /\
                           beneath d x.1 = false /\
                           fs w0 !! out x.1 <> Some Dir)
              (zip files docs)) with (w := w) as (w2 & Hrun & Hfs2 & Hin2).
  - intros [f doc] w0 (Hf & _ & Hnot). cbn [fst snd] in *.
    rewrite Hbody, (path_join_dir d (name f) Hd (Hname f)). fold (out f).
    erewrite bind_ok by (apply load_run; exact Hf).
    rewrite bind_eq. unfold write_file.
    destruct (fs w0 !! out f) as [[|?]|] eqn:E; [congruence | |];
      eexists; (split; [reflexivity|]); split; reflexivity.
  - intros x y w0 w0' _ _ (Hf & Hb & Hnot) Hfs. rewrite Hfs.
    split; [|split; [exact Hb | apply staged_not_dir_insert, Hnot]].
    rewrite lookup_insert_ne; [exact Hf|].
    intros Heq. rewrite <- Heq in Hb. unfold out in Hb.
    rewrite beneath_staged in Hb. discriminate Hb.
  - apply Forall2_zip_Forall in Hloaded.
    rewrite Forall_forall in Hloaded. rewrite Forall_forall in Hout.
    rewrite Forall_forall in Hnd. apply Forall_forall. intros x Hx.
    assert (Hin : x.1 ∈ files).
    { rewrite Hfiles. apply list_elem_of_fmap. eauto. }
    split; [apply Hloaded, Hx|]. split; [apply Hout, Hin | apply Hnd, Hin].
  - assert (Hpaths : (fun x : pystr * SSAFile => out x.1) <$> zip files docs
                     = out <$> files).
    { rewrite Hfiles at 2. rewrite <- list_fmap_compose. reflexivity. }
    exists w2. split; [|split; [|exact Hin2]].
    + rewrite <- Hpaths, <- Hrun, Hfiles at 1. apply mapM_fmap.
    + rewrite Hfs2. f_equal. apply fmap_zip_both.
Qed.

Lemma loaded_fs w w' files docs :
  (forall f, f ∈ files -> fs w' !! f = fs w !! f) ->
  loaded w files docs -> loaded w' files docs.
Proof.
  intros Hsame H. induction H as [|f doc files docs Hf _ IH]; constructor.
  - rewrite Hsame by left. exact Hf.
  - apply IH. intros g Hg. apply Hsame. right. exact Hg.
Qed.

Lemma loaded_not_beneath prefix w files docs :
  staging_free prefix w -> loaded w files docs ->
  Forall (fun f => beneath (staging prefix w) f = false) files.
Proof.
  intros Hfree H. induction H as [|f doc files docs Hf _ IH]; constructor;
    [|exact IH].
  destruct (beneath (staging prefix w) f) eqn:E; [|reflexivity].
  rewrite (Hfree _ E) in Hf. discriminate Hf.
Qed.

(** The world in which a stage runs its loops: the one before it, with
    the staging directory, and possibly some output and input done. *)
Lemma loaded_in_stage prefix w w' files docs :
  staging_free prefix w -> loaded w files docs ->
  fs w' = <[staging prefix w := Dir]> (fs w) ->
  loaded w' files docs /\
  Forall (fun f => beneath (staging prefix w) f = false) files /\
  forall name : pystr -> pystr,
    Forall (fun f => fs w' !! (staging prefix w ++ lit "/" ++ name f)
                     <> Some Dir) files.
Proof.
  intros Hfree Hl Hfs.
  pose proof (loaded_not_beneath _ _ _ _ Hfree Hl) as Hout.
  split; [|split; [exact Hout|]].
  - apply (loaded_fs w); [|exact Hl]. intros f Hf. rewrite Hfs.
    apply lookup_insert_ne. intros <-.
    rewrite Forall_forall in Hout. specialize (Hout _ Hf).
    rewrite beneath_self in Hout. discriminate Hout.
  - intros name. apply Forall_forall. intros f _.
    rewrite Hfs, staged_after_mkdtemp by exact Hfree. discriminate.
Qed.

Lemma ranked_styles_counted w files docs sorted_styles styles_examples w' :
  loaded w files docs ->
  analyze_subtitle_styles files w = (Ok (sorted_styles, styles_examples), w') ->
  forall s, s ∈ sorted_styles.*1 <-> s ∈ style <$> counted docs.
Proof.
  intros Hl H. rewrite (analyze_subtitle_styles_run _ _ _ Hl) in H.
  injection H as <- _ _. intros s.
  destruct (fold_analyze_line_counts (concat docs) ([], ∅)) as (_ & Hkeys & _).
  cbn zeta in Hkeys. rewrite (sorted_by_count_perm _), Hkeys.
  simpl. rewrite elem_of_nil. fold (counted docs). tauto.
Qed.

(** X16. What the style filter saves: when every file holds a document
    and the staging name is free, a run of [clean_tags] that returns has
    chosen one set of styles, all of them styles of lines that the
    analysis counts, and returns one path per file,
    [<staging directory>/<name of the file without its last
    extension>.ass], in order; afterwards the file system is the one
    before with the staging directory and, written in that order, every
    document cut down to the lines of the chosen styles and then passed
    through [remove_miscellaneous_events]. *)
Theorem X16_style_filter_result files docs w paths cleanup w' :
  let d := staging (lit "cleaned_subtitles_") w in
  let target := fun f =>
    d ++ lit "/" ++ splitext_root (basename f) ++ lit ".ass" in
  loaded w files docs ->
  staging_free (lit "cleaned_subtitles_") w ->
  clean_tags files w = (Ok (paths, cleanup), w') ->
  exists styles_to_keep,
    (forall s, s ∈ styles_to_keep -> s ∈ style <$> counted docs) /\
    paths = target <$> files /\
    cleanup = rmtree d /\
    fs w'
    = with_files
        (zip paths
           ((fun doc => remove_miscellaneous_events
                          (filter_styles styles_to_keep doc)) <$> docs))
        (<[d := Dir]> (fs w)).
Proof.
  intros d target Hl Hfree H.
  apply clean_tags_inv_ok in H as (d' & w0 & Hd & H).
  apply mkdtemp_inv in Hd as [(Hr & _) | (Hr & _ & Hfs0)]; [discriminate|].
  injection Hr as ->. fold d in H, Hfs0.
  unfold clean_tags_body in H.
  inv_bind H. destruct a as [sorted_styles styles_examples].
  inv_bind H. rename a into keep. inv_bind H. injection H as <- <- <-.
  pose proof (fs_same_analyze_subtitle_styles _ _ _ _ H0) as Hfs1.
  pose proof (fs_same_get_styles_to_keep _ _ _ _ _ H1) as Hfs2.
  unfold fs_same in Hfs1, Hfs2.
  destruct (loaded_in_stage _ _ w0 _ _ Hfree Hl Hfs0) as (Hl0 & Hout & Hnd).
  exists keep. split.
  { intros s Hs. apply (ranked_styles_counted _ _ _ _ _ _ Hl0 H0).
    eapply get_styles_to_keep_ranked; eauto. }
  destruct (save_loop_run d
              (fun doc => remove_miscellaneous_events (filter_styles keep doc))
              (fun f => splitext_root (basename f) ++ lit ".ass")
              (fun p => lit "Saved cleaned subtitle to " ++ p)
              (fun subtitle_file =>
                 subtitle ← load subtitle_file;
                 let events :=
                   remove_miscellaneous_events (filter_styles keep subtitle) in
                 let cleaned_path :=
                   path_join d
                     (splitext_root (basename subtitle_file) ++ lit ".ass") in
                 write_file cleaned_path events;;
                 print (lit "Saved cleaned subtitle to " ++ cleaned_path);;
                 mret cleaned_path)
              files docs w2) as (w4 & Hrun & Hfs3 & _).
  - reflexivity.
  - apply staging_last.
  - intros f. apply (startswith_slash_stem f (lit "ass")).
  - apply (loaded_fs w0); [|exact Hl0]. intros f _. congruence.
  - exact Hout.
  - rewrite Hfs2, Hfs1. apply Hnd.
  - cbv zeta in Hrun. rewrite Hrun in H2. injection H2 as <- <-.
    split; [reflexivity|]. split; [reflexivity|].
    rewrite Hfs3, Hfs2, Hfs1, Hfs0. reflexivity.
Qed.

Lemma X16_style_filter_result_witness :
  exists paths cleanup w',
    clean_tags [lit "/subs/ep1.ass"] signs_world = (Ok (paths, cleanup), w') /\
    paths = [lit "/tmp/cleaned_subtitles_0/ep1.ass"] /\
    exists styles_to_keep,
      fs w' !! lit "/tmp/cleaned_subtitles_0/ep1.ass"
      = Some (File (remove_miscellaneous_events
                      (filter_styles styles_to_keep
                         [dialogue (lit "Hello there");
                          {| start := 0; end_ := 1000; text := lit "EXIT";
                             style := lit "Signs - Main";
                             is_comment := false |}]))).
Proof.
  destruct (clean_tags [lit "/subs/ep1.ass"] signs_world)
    as [[[paths cleanup]|e] w'] eqn:E.
  - exists paths, cleanup, w'. split; [reflexivity|].
    destruct (X16_style_filter_result [lit "/subs/ep1.ass"]
                [[dialogue (lit "Hello there");
                  {| start := 0; end_ := 1000; text := lit "EXIT";
                     style := lit "Signs - Main"; is_comment := false |}]]
                signs_world paths cleanup w')
      as (keep & _ & Hpaths & _ & Hfs).
    + constructor; [reflexivity | constructor].
    + intros path Hb. unfold signs_world. cbn [fs].
      apply lookup_insert_None. split; [apply lookup_empty|].
      intros <-. unfold beneath in Hb. apply orb_true_iff in Hb as [Hb|Hb].
      * apply bool_decide_eq_true in Hb.
        apply (f_equal (take 5)) in Hb. discriminate Hb.
      * apply startswith_spec in Hb as [rest Hb].
        apply (f_equal (take 5)) in Hb. discriminate Hb.
    + exact E.
    + split; [exact Hpaths|]. exists keep. rewrite Hfs, Hpaths. reflexivity.
  - apply (f_equal returned_paths) in E. vm_compute in E. discriminate E.
Defined.

Lemma collect_loop_run w files docs :
  loaded w files docs ->
  forall acc,
    foldM (fun special_texts subtitle_file =>
             subtitle ← load subtitle_file;
             mret (extend_special_texts special_texts
                     (collect_special_texts subtitle)))
      acc files w
    = (Ok (fold_left (fun special_texts subtitle =>
                        extend_special_texts special_texts
                          (collect_special_texts subtitle)) docs acc), w).
Proof.
  induction 1 as [|file doc files docs Hfile _ IH]; intros acc; simpl.
  - reflexivity.
  - rewrite bind_eq, bind_eq, (load_run _ _ _ Hfile). cbn. apply IH.
Qed.

Lemma collected_samples docs acc :
  fold_left (fun special_texts subtitle =>
               extend_special_texts special_texts
                 (collect_special_texts subtitle)) docs acc
  = {| hearing_impaired :=
         hearing_impaired acc ++ samples HEARING_IMPAIRED_REGEX docs;
       special_symbols := special_symbols acc ++ samples SYMBOLS_REGEX docs;
       furigana := furigana acc ++ samples FURIGANA_REGEX docs;
       initial_brackets :=
         initial_brackets acc ++ samples INITIAL_BRACKETS docs |}.
Proof.
  revert acc. induction docs as [|doc docs IH]; intros acc.
  - destruct acc. unfold samples. simpl. rewrite !app_nil_r. reflexivity.
  - cbn [fold_left]. rewrite IH, collect_special_texts_sampled.
    unfold extend_special_texts, samples.
    cbn [hearing_impaired special_symbols furigana initial_brackets
         fmap list_fmap concat].
    rewrite <- !app_assoc. reflexivity.
Qed.

Lemma user_confirmation_inv matches category w b w' :
  user_confirmation matches category w = (Ok b, w') ->
  exists answers,
    stdin w = answers ++ stdin w' /\
    length answers = (match matches with [] => 0 | _ => 1 end)%nat /\
    (matches = [] -> b = false) /\
    fs w' = fs w.
Proof.
  unfold user_confirmation. destruct matches as [|m matches].
  - intros H. injection H as <- <-. exists []. auto.
  - cbn [take]. intros H. inv_bind H. injection H as <- <-.
    unfold input in H0. destruct (stdin w) as [|line rest] eqn:E;
      [discriminate|].
    injection H0 as <- <-. exists [line]. cbn [stdin set_stdin fs set_stdout].
    repeat split. discriminate.
Qed.

(** X17. What the cleaning of the Japanese subtitles saves: when every
    file holds a document and the staging name is free, a run that
    returns has taken one decision per category for all files together,
    having read one answer for each category that has samples and none
    for the others, whose decision is then to keep; it returns one path
    per file, [<staging directory>/<name of the file>], in order, and
    afterwards the file system is the one before with the staging
    directory and, written in that order, every document cleaned under
    these decisions. *)
Theorem X17_cleaning_result files docs w paths cleanup w' :
  let d := staging (lit "cleaned_subs_") w in
  loaded w files docs ->
  staging_free (lit "cleaned_subs_") w ->
  clean_up_japanese_subs files w = (Ok (paths, cleanup), w') ->
  exists clear_flags answers,
    paths = (fun f => d ++ lit "/" ++ basename f) <$> files /\
    cleanup = rmtree d /\
    fs w'
    = with_files (zip paths (clean_document clear_flags <$> docs))
        (<[d := Dir]> (fs w)) /\
    stdin w = answers ++ stdin w' /\
    length answers = questions docs /\
    (has_samples HEARING_IMPAIRED_REGEX docs = false ->
     flag clear_flags "hearing_impaired" = false) /\
    (has_samples SYMBOLS_REGEX docs = false ->
     flag clear_flags "special_symbols" = false) /\
    (has_samples FURIGANA_REGEX docs = false ->
     flag clear_flags "furigana" = false) /\
    (has_samples INITIAL_BRACKETS docs = false ->
     flag clear_flags "initial_brackets" = false).
Proof.
  intros d Hl Hfree H. unfold clean_up_japanese_subs in H.
  inv_bind H. pose proof H0 as Hd.
  apply mkdtemp_inv in Hd as [(Hr & _) | (Hr & _ & Hfs0)]; [discriminate|].
  injection Hr as ->. fold d in H, Hfs0.
  destruct (mkdtemp_run (lit "cleaned_subs_") w) as (wd & Hd & _ & Hin0).
  { apply Hfree, beneath_self. }
  rewrite H0 in Hd. injection Hd as <-. clear H0.
  destruct (loaded_in_stage _ _ w0 _ _ Hfree Hl Hfs0) as (Hl0 & Hout & Hnd).
  rewrite bind_eq, (collect_loop_run _ _ _ Hl0), collected_samples in H.
  cbn [hearing_impaired special_symbols furigana initial_brackets
       no_special_texts app] in H.
  inv_bind H. rename a into b_hearing.
  inv_bind H. rename a into b_symbols.
  inv_bind H. rename a into b_furigana.
  inv_bind H. rename a into b_brackets.
  cbv zeta in H. inv_bind H. inv_bind H. injection H as <- <- <-.
  apply user_confirmation_inv in H0 as (a1 & Hs1 & Hn1 & Hb1 & Hf1).
  apply user_confirmation_inv in H1 as (a2 & Hs2 & Hn2 & Hb2 & Hf2).
  apply user_confirmation_inv in H2 as (a3 & Hs3 & Hn3 & Hb3 & Hf3).
  apply user_confirmation_inv in H3 as (a4 & Hs4 & Hn4 & Hb4 & Hf4).
  match type of H4 with
  | mapM ?body files ?wl = _ =>
      destruct (save_loop_run d
                  (clean_document
                     (<["hearing_impaired"%string := b_hearing]>
                        (<["special_symbols"%string := b_symbols]>
                           (<["furigana"%string := b_furigana]>
                              (<["initial_brackets"%string := b_brackets]>
                                 ∅)))))
                  basename
                  (fun p => lit "Saving cleaned Japanese subtitle to " ++ p)
                  body files docs wl) as (wl' & Hrun & Hfs5 & Hin5)
  end.
  - reflexivity.
  - apply staging_last.
  - apply startswith_slash_basename.
  - apply (loaded_fs w0); [|exact Hl0]. intros f _. congruence.
  - exact Hout.
  - rewrite Hf4, Hf3, Hf2, Hf1. apply Hnd.
  - rewrite Hrun in H4. injection H4 as <- <-.
    injection H5 as _ <-. cbn [fs stdin set_stdout].
    eexists _, (a1 ++ a2 ++ a3 ++ a4).
    split; [reflexivity|]. split; [reflexivity|]. split.
    { rewrite Hfs5, Hf4, Hf3, Hf2, Hf1, Hfs0. reflexivity. }
    split.
    { rewrite <- Hin0, Hs1, Hs2, Hs3, Hs4, Hin5, <- !app_assoc. reflexivity. }
    split.
    { rewrite !length_app, Hn1, Hn2, Hn3, Hn4.
      unfold questions, has_samples. cbn [List.filter].
      destruct (samples HEARING_IMPAIRED_REGEX docs),
        (samples SYMBOLS_REGEX docs), (samples FURIGANA_REGEX docs),
        (samples INITIAL_BRACKETS docs); reflexivity. }
    unfold has_samples.
    repeat split; intros Hnone;
      [ destruct (samples HEARING_IMPAIRED_REGEX docs); [|discriminate];
        rewrite Hb1 by reflexivity
      | destruct (samples SYMBOLS_REGEX docs); [|discriminate];
        rewrite Hb2 by reflexivity
      | destruct (samples FURIGANA_REGEX docs); [|discriminate];
        rewrite Hb3 by reflexivity
      | destruct (samples INITIAL_BRACKETS docs); [|discriminate];
        rewrite Hb4 by reflexivity ];
      reflexivity.
Qed.

Lemma X17_cleaning_result_witness :
  exists paths cleanup w',
    clean_up_japanese_subs [lit "/subs/ep1.ass"] sighs_world
    = (Ok (paths, cleanup), w') /\
    paths = [lit "/tmp/cleaned_subs_0/ep1.ass"] /\
    stdin w' = stdin sighs_world.
Proof.
  destruct (clean_up_japanese_subs [lit "/subs/ep1.ass"] sighs_world)
    as [[[paths cleanup]|e] w'] eqn:E.
  - exists paths, cleanup, w'. split; [reflexivity|].
    destruct (X17_cleaning_result [lit "/subs/ep1.ass"]
                [[dialogue (lit "(sighs\Ndeeply)")]]
                sighs_world paths cleanup w')
      as (clear_flags & answers & Hpaths & _ & _ & Hin & Hlen & _).
    + constructor; [reflexivity | constructor].
    + apply sighs_world_free.
    + exact E.
    + split; [exact Hpaths|].
      destruct answers; [rewrite Hin; reflexivity | discriminate Hlen].
  - apply (f_equal returned_paths) in E. vm_compute in E. discriminate E.
Defined.

(** ** What the operator is shown *)

Lemma findall_go_search m start s :
  Re.search_go m start s = true -> Re.findall_go m start 0 s <> [].
Proof.
  revert start. induction s as [|c s IH]; intros start H; simpl in *;
    [discriminate|].
  destruct (m start (c :: s)) as [[|k]|]; [apply IH, H | discriminate | apply IH, H].
Qed.

Lemma findall_go_substrings m start skip s :
  Forall (fun x => x <> [] /\ contains x s = true)
    (Re.findall_go m start skip s).
Proof.
  revert start skip. induction s as [|c s IH]; intros start skip;
    [constructor|].
  assert (Hrest : forall st k,
            Forall (fun x => x <> [] /\ contains x (c :: s) = true)
              (Re.findall_go m st k s)).
  { intros st k. eapply Forall_impl; [apply IH|].
    intros x [Hx Hc]. split; [exact Hx|].
    cbn [contains]. rewrite Hc. apply orb_true_r. }
  cbn [Re.findall_go]. destruct skip as [|skip]; [|apply Hrest].
  destruct (m start (c :: s)) as [[|k]|]; [apply Hrest | | apply Hrest].
  constructor; [|apply Hrest]. split; [discriminate|].
  apply contains_spec. exists [], (drop (S k) (c :: s)).
  rewrite app_nil_l, take_drop. reflexivity.
Qed.

Lemma sampled_inv regex subtitle sample :
  sample ∈ sampled regex subtitle ->
  sample.2 = regex /\ Re.search regex sample.1 = true.
Proof.
  unfold sampled. intros H.
  apply list_elem_of_fmap in H as (t & -> & Ht).
  apply elem_of_filter_bool in Ht as [_ Ht].
  split; [reflexivity|]. rewrite search_iff_sub_changes. exact Ht.
Qed.

(** X18. Every sample is shown with what would be removed: for a sample
    of any category gathered from a document, the display text that the
    confirmation prompt is built from is the sample's text, followed by
    one line for each match of the sample's pattern, of which there is
    at least one; every match shown is a non-empty part of the text. *)
Theorem X18_every_sample_shows_a_match (subtitle : SSAFile)
    (sample : pystr * Re.matcher) :
  let special_texts := collect_special_texts subtitle in
  sample ∈ hearing_impaired special_texts ++ special_symbols special_texts
           ++ furigana special_texts ++ initial_brackets special_texts ->
  exists shown others,
    Re.findall sample.2 sample.1 = shown :: others /\
    extract_and_format_matches sample.1 sample.2
    = sample.1 ++ [NL; 9%N]
      ++ join [NL; 9%N]
           ((fun m => lit "-->" ++ [9%N] ++ m) <$> shown :: others) /\
    Forall (fun m => m <> [] /\ contains m sample.1 = true) (shown :: others).
Proof.
  intros special_texts Hin.
  assert (Hs : Re.search sample.2 sample.1 = true).
  { unfold special_texts in Hin. rewrite collect_special_texts_sampled in Hin.
    cbn [hearing_impaired special_symbols furigana initial_brackets] in Hin.
    rewrite !elem_of_app in Hin.
    destruct Hin as [H|[H|[H|H]]]; apply sampled_inv in H as [-> H]; exact H. }
  pose proof (findall_go_search _ _ _ Hs) as Hne.
  pose proof (findall_go_substrings sample.2 true 0 sample.1) as Hsub.
  fold (Re.findall sample.2 sample.1) in Hne, Hsub.
  unfold extract_and_format_matches.
  destruct (Re.findall sample.2 sample.1) as [|shown others]; [congruence|].
  exists shown, others. auto.
Qed.

Lemma X18_every_sample_shows_a_match_witness :
  exists shown others,
    Re.findall SYMBOLS_REGEX (text two_notes) = shown :: others /\
    Forall (fun m => m <> [] /\ contains m (text two_notes) = true)
      (shown :: others).
Proof.
  destruct (X18_every_sample_shows_a_match [two_notes]
              (text two_notes, SYMBOLS_REGEX))
    as (shown & others & Hfind & _ & Hall).
  - apply elem_of_app. right. apply elem_of_app. left.
    assert (E : special_symbols (collect_special_texts [two_notes])
                = [(text two_notes, SYMBOLS_REGEX)]) by reflexivity.
    rewrite E. left.
  - exists shown, others. split; [exact Hfind | exact Hall].
Defined.

(** ** The sort key of the file names *)

Lemma filter_drop_ws_run s :
  List.filter (fun c => negb (isspace c)) (drop (Re.ws_run s) s)
  = List.filter (fun c => negb (isspace c)) s.
Proof.
  induction s as [|c s IH]; [reflexivity|]. cbn [Re.ws_run].
  destruct (isspace c) eqn:E; [|reflexivity].
  cbn [drop List.filter]. rewrite E. exact IH.
Qed.

Lemma sub_whitespace_filter_bounded n s start :
  (length s <= n)%nat ->
  Re.sub_go Re.WHITESPACE [] start 0 s
  = List.filter (fun c => negb (isspace c)) s.
Proof.
  revert s start. induction n as [|n IH]; intros s start Hn.
  { destruct s; [reflexivity | simpl in Hn; lia]. }
  destruct s as [|c s]; [reflexivity|]. simpl in Hn.
  cbn [Re.sub_go List.filter]. unfold Re.WHITESPACE at 1. cbn [Re.ws_run].
  destruct (isspace c) eqn:E; cbn [negb app].
  - destruct (Re.ws_run s) as [|k] eqn:Ek.
    + apply IH. lia.
    + rewrite sub_go_skip, IH by (rewrite length_drop; lia).
      rewrite <- Ek. apply filter_drop_ws_run.
  - f_equal. apply IH. lia.
Qed.

Lemma sub_whitespace_filter s :
  Re.sub Re.WHITESPACE [] s = List.filter (fun c => negb (isspace c)) s.
Proof. apply (sub_whitespace_filter_bounded (length s)). lia. Qed.

Lemma sub_with_go_skip m repl start k s :
  sub_with_go m repl start (S k) s
  = sub_with_go m repl false 0 (drop (S k) s).
Proof.
  revert start k. induction s as [|c s IH]; intros start k; [reflexivity|].
  simpl. destruct k as [|k]; [reflexivity | apply IH].
Qed.

Lemma pad_start start s :
  sub_with_go DIGITS (zfill 5) start 0 s = sub_with DIGITS (zfill 5) s.
Proof. destruct s; reflexivity. Qed.

Lemma pad_char c s :
  isdecimal c = false ->
  sub_with DIGITS (zfill 5) (c :: s) = c :: sub_with DIGITS (zfill 5) s.
Proof.
  intros Hc. unfold sub_with at 1. cbn [sub_with_go].
  unfold DIGITS at 1. cbn [digit_run]. rewrite Hc, pad_start. reflexivity.
Qed.

Lemma pad_run c s :
  isdecimal c = true ->
  sub_with DIGITS (zfill 5) (c :: s)
  = zfill 5 (c :: take (digit_run s) s)
    ++ sub_with DIGITS (zfill 5) (drop (digit_run s) s).
Proof.
  intros Hc. unfold sub_with at 1. cbn [sub_with_go].
  unfold DIGITS at 1. cbn [digit_run]. rewrite Hc. cbn [take]. f_equal.
  destruct (digit_run s) as [|k]; [apply pad_start|].
  rewrite sub_with_go_skip. apply pad_start.
Qed.

Lemma digit_run_take s : Forall (fun c => isdecimal c = true) (take (digit_run s) s).
Proof.
  induction s as [|c s IH]; [constructor|]. cbn [digit_run].
  destruct (isdecimal c) eqn:E; [|constructor].
  cbn [take]. constructor; assumption.
Qed.

Lemma digit_run_le s : (digit_run s <= length s)%nat.
Proof.
  induction s as [|c s IH]; simpl; [lia|].
  destruct (isdecimal c); simpl; lia.
Qed.

Lemma digit_run_drop_head s :
  match drop (digit_run s) s with
  | [] => True
  | c :: _ => isdecimal c = false
  end.
Proof.
  induction s as [|c s IH]; simpl; [exact I|].
  destruct (isdecimal c) eqn:E; simpl; [exact IH | exact E].
Qed.

Lemma zfill_digits width c s :
  isdecimal c = true ->
  zfill width (c :: s) = replicate (width - length (c :: s)) 48%N ++ c :: s.
Proof.
  intros Hc. unfold zfill. destruct (Nat.leb_spec width (length (c :: s))).
  - replace (width - length (c :: s))%nat with O by lia. reflexivity.
  - destruct (N.eqb_spec c 43) as [->|_]; [discriminate Hc|].
    destruct (N.eqb_spec c 45) as [->|_]; [discriminate Hc|]. reflexivity.
Qed.

Lemma run_lengths_go_digits cur d rest :
  Forall (fun c => isdecimal c = true) d ->
  run_lengths_go cur (d ++ rest) = run_lengths_go (cur + length d) rest.
Proof.
  revert cur. induction d as [|c d IH]; intros cur Hd; cbn [app length].
  - rewrite Nat.add_0_r. reflexivity.
  - inversion Hd as [|? ? Hc Hd']; subst. cbn [run_lengths_go].
    rewrite Hc, IH by exact Hd'. f_equal. lia.
Qed.

Lemma padded_runs_bounded n s :
  (length s <= n)%nat ->
  Forall (fun k => (5 <= k)%nat) (run_lengths (sub_with DIGITS (zfill 5) s)) /\
  match s with
  | c :: _ =>
      isdecimal c = false ->
      exists out, sub_with DIGITS (zfill 5) s = c :: out
  | [] => sub_with DIGITS (zfill 5) s = []
  end.
Proof.
  revert s. induction n as [|n IH]; intros s Hn.
  { destruct s; [split; [constructor | reflexivity] | simpl in Hn; lia]. }
  destruct s as [|c s]; [split; [constructor | reflexivity]|]. simpl in Hn.
  destruct (isdecimal c) eqn:E.
  - split; [|discriminate]. rewrite (pad_run c s E).
    assert (Hd : Forall (fun c => isdecimal c = true)
                   (c :: take (digit_run s) s)).
    { constructor; [exact E | apply digit_run_take]. }
    rewrite (zfill_digits 5 c _ E).
    set (d := replicate _ 48%N ++ c :: take (digit_run s) s).
    assert (Hall : Forall (fun c => isdecimal c = true) d).
    { apply Forall_app. split; [|exact Hd].
      apply Forall_replicate. reflexivity. }
    assert (Hlen : (5 <= length d)%nat).
    { unfold d. rewrite length_app, length_replicate. lia. }
    unfold run_lengths. rewrite (run_lengths_go_digits 0 d _ Hall).
    destruct (IH (drop (digit_run s) s)) as [Hruns Hhead].
    { rewrite length_drop. lia. }
    pose proof (digit_run_drop_head s) as Hnext.
    destruct (drop (digit_run s) s) as [|x t].
    + rewrite Hhead. cbn [run_lengths_go].
      destruct (0 + length d)%nat eqn:El; [lia|].
      constructor; [lia | constructor].
    + destruct (Hhead Hnext) as [out Hout]. rewrite Hout in Hruns |- *.
      cbn [run_lengths_go].
      rewrite Hnext.
      destruct (0 + length d)%nat eqn:El; [lia|].
      constructor; [lia|].
      unfold run_lengths in Hruns. cbn [run_lengths_go] in Hruns.
      rewrite Hnext in Hruns. exact Hruns.
  - rewrite (pad_char c s E). split; [|eauto].
    unfold run_lengths. cbn [run_lengths_go]. rewrite E.
    apply (IH s). lia.
Qed.

(** X19. The sort key: whitespace in a file name does not count, so two
    names that are equal once their whitespace characters are taken out
    have the same key; and every maximal run of decimal digits in a key
    is at least five digits long. Both hold whatever the lower-casing
    does. *)
Theorem X19_sort_key_whitespace_and_padding (lower : pystr -> pystr)
    (file_name : pystr) :
  (forall other,
     List.filter (fun c => negb (isspace c)) other
     = List.filter (fun c => negb (isspace c)) file_name ->
     file_name_sorter lower other = file_name_sorter lower file_name) /\
  Forall (fun k => (5 <= k)%nat) (run_lengths (file_name_sorter lower file_name)).
Proof.
  split.
  - intros other H. unfold file_name_sorter. cbv zeta.
    rewrite !sub_whitespace_filter, H. reflexivity.
  - unfold file_name_sorter. cbv zeta.
    set (t := lower (Re.sub Re.WHITESPACE [] file_name)).
    destruct (padded_runs_bounded (length t) t) as [H _]; [lia | exact H].
Qed.

Lemma X19_sort_key_whitespace_and_padding_witness :
  file_name_sorter ascii_lower (lit "Ep 2 .mkv")
  = file_name_sorter ascii_lower (lit "Ep2.mkv").
Proof.
  apply (X19_sort_key_whitespace_and_padding ascii_lower (lit "Ep2.mkv")).
  reflexivity.
Defined.

Lemma digit_run_all d rest :
  Forall (fun c => isdecimal c = true) d -> starts_plain rest ->
  digit_run (d ++ rest) = length d.
Proof.
  intros Hd Hrest. induction Hd as [|c d Hc _ IH]; cbn [app digit_run length].
  - destruct rest as [|x rest]; [reflexivity|]. cbn [digit_run].
    rewrite (Hrest x eq_refl). reflexivity.
  - rewrite Hc, IH. reflexivity.
Qed.

Lemma pad_digits c d rest :
  Forall (fun c => isdecimal c = true) (c :: d) -> starts_plain rest ->
  sub_with DIGITS (zfill 5) (c :: d ++ rest)
  = zfill 5 (c :: d) ++ sub_with DIGITS (zfill 5) rest.
Proof.
  intros Hd Hrest. inversion Hd as [|? ? Hc Hd']; subst.
  rewrite (pad_run c _ Hc), (digit_run_all d rest Hd' Hrest).
  rewrite take_app_length, drop_app_length. reflexivity.
Qed.

Lemma ends_plain_cons c s : s <> [] -> ends_plain (c :: s) -> ends_plain s.
Proof.
  intros Hs H x Hx. apply H. destruct s; [congruence | exact Hx].
Qed.

Lemma pad_app_bounded n p rest :
  (length p <= n)%nat -> ends_plain p ->
  sub_with DIGITS (zfill 5) (p ++ rest)
  = sub_with DIGITS (zfill 5) p ++ sub_with DIGITS (zfill 5) rest.
Proof.
  revert p. induction n as [|n IH]; intros p Hn Hp.
  { destruct p; [reflexivity | simpl in Hn; lia]. }
  destruct p as [|c p]; [reflexivity|]. simpl in Hn.
  destruct (isdecimal c) eqn:E.
  - assert (Hsplit : exists d q,
              p = d ++ q /\ Forall (fun c => isdecimal c = true) d /\
              starts_plain q /\ q <> []).
    { exists (take (digit_run p) p), (drop (digit_run p) p).
      split; [symmetry; apply take_drop|]. split; [apply digit_run_take|].
      pose proof (digit_run_drop_head p) as Hh.
      split.
      - intros x Hx. destruct (drop (digit_run p) p); [discriminate|].
        injection Hx as <-. exact Hh.
      - intros Hnil.
        assert (Hall : Forall (fun c => isdecimal c = true) (c :: p)).
        { constructor; [exact E|]. rewrite <- (take_drop (digit_run p) p), Hnil.
          rewrite app_nil_r. apply digit_run_take. }
        destruct (last (c :: p)) as [x|] eqn:El.
        + pose proof (Hp x El) as Hx. apply last_Some_elem_of in El.
          rewrite Forall_forall in Hall. rewrite (Hall x El) in Hx.
          discriminate Hx.
        + apply last_None in El. discriminate El. }
    destruct Hsplit as (d & q & -> & Hd & Hq & Hne).
    assert (Hq' : starts_plain (q ++ rest)).
    { intros x Hx. apply Hq. destruct q; [congruence | exact Hx]. }
    cbn [app]. rewrite <- app_assoc.
    rewrite (pad_digits c d (q ++ rest)), (pad_digits c d q);
      try assumption; try (constructor; assumption).
    rewrite <- app_assoc. f_equal. apply IH.
    + rewrite length_app in Hn. lia.
    + intros x Hx. apply Hp. rewrite app_comm_cons, last_app_ne; assumption.
  - cbn [app]. rewrite !(pad_char c _ E). cbn [app]. f_equal.
    destruct p as [|x p]; [reflexivity|].
    apply IH; [lia|]. apply (ends_plain_cons c); [discriminate | exact Hp].
Qed.

Lemma ascii_digit_decimal c : ascii_digit c = true -> isdecimal c = true.
Proof.
  unfold ascii_digit. intros H. apply andb_true_iff in H as [H1 H2].
  apply N.leb_le in H1, H2.
  unfold isdecimal, decimal_value, decimal_zeros. cbn [List.find].
  replace ((48 <=? c) && (c <? 48 + 10))%N with true; [reflexivity|].
  symmetry. apply andb_true_iff. split; [apply N.leb_le | apply N.ltb_lt]; lia.
Qed.

Lemma str_lt_app_same p a b : str_lt (p ++ a) (p ++ b) = str_lt a b.
Proof.
  induction p as [|x p IH]; [reflexivity|]. cbn [app str_lt].
  rewrite N.ltb_irrefl, N.eqb_refl. exact IH.
Qed.

Lemma str_lt_app_longer a b qa qb :
  length a = length b -> str_lt a b = true -> str_lt (a ++ qa) (b ++ qb) = true.
Proof.
  revert b. induction a as [|x a IH]; intros [|y b] Hlen H;
    try discriminate.
  cbn [app str_lt] in *. apply orb_true_iff in H as [H|H].
  - rewrite H. reflexivity.
  - apply andb_true_iff in H as [Hxy H]. rewrite Hxy, (IH b) by auto.
    apply orb_true_r.
Qed.

Lemma digits_value_acc s acc :
  fold_left (fun acc c => 10 * acc + (c - 48))%N s acc
  = (acc * 10 ^ N.of_nat (length s) + digits_value s)%N.
Proof.
  unfold digits_value. revert acc.
  induction s as [|c s IH]; intros acc.
  - simpl. lia.
  - cbn [fold_left length]. rewrite IH, (IH (10 * 0 + (c - 48))%N).
    rewrite Nat2N.inj_succ, N.pow_succ_r'. lia.
Qed.

Lemma digits_value_cons c s :
  digits_value (c :: s)
  = ((c - 48) * 10 ^ N.of_nat (length s) + digits_value s)%N.
Proof.
  unfold digits_value at 1. cbn [fold_left]. rewrite digits_value_acc. lia.
Qed.

Lemma digits_value_bound s :
  forallb ascii_digit s = true ->
  (digits_value s < 10 ^ N.of_nat (length s))%N.
Proof.
  induction s as [|c s IH]; intros H.
  - vm_compute. reflexivity.
  - cbn [forallb] in H. apply andb_true_iff in H as [Hc Hs].
    specialize (IH Hs). rewrite digits_value_cons.
    cbn [length]. rewrite Nat2N.inj_succ, N.pow_succ_r'.
    unfold ascii_digit in Hc. apply andb_true_iff in Hc as [H1 H2].
    apply N.leb_le in H1, H2. nia.
Qed.

Lemma str_lt_digits a b :
  length a = length b ->
  forallb ascii_digit a = true -> forallb ascii_digit b = true ->
  (digits_value a < digits_value b)%N -> str_lt a b = true.
Proof.
  revert b. induction a as [|x a IH]; intros [|y b] Hlen Ha Hb Hlt;
    try discriminate.
  cbn [forallb] in Ha, Hb.
  { apply andb_true_iff in Ha as [Hx Ha]. apply andb_true_iff in Hb as [Hy Hb].
    injection Hlen as Hlen. rewrite !digits_value_cons, Hlen in Hlt.
    pose proof (digits_value_bound a Ha) as Ba.
    pose proof (digits_value_bound b Hb) as Bb. rewrite Hlen in Ba.
    unfold ascii_digit in Hx, Hy.
    apply andb_true_iff in Hx as [Hx1 Hx2]. apply andb_true_iff in Hy as [Hy1 Hy2].
    apply N.leb_le in Hx1, Hx2, Hy1, Hy2.
    cbn [str_lt]. destruct (N.ltb_spec x y) as [|Hge]; [reflexivity|].
    destruct (N.eqb_spec x y) as [->|Hne].
    + cbn [orb andb]. apply IH; try assumption. lia.
    + exfalso. assert (Hxy : (y + 1 <= x)%N) by lia. nia. }
Qed.

Lemma digits_value_zeros k s :
  digits_value (replicate k 48%N ++ s) = digits_value s.
Proof.
  induction k as [|k IH]; [reflexivity|].
  cbn [replicate app]. rewrite digits_value_cons, IH. lia.
Qed.

Lemma zfill_ascii_digits d :
  d <> [] -> forallb ascii_digit d = true -> (length d <= 5)%nat ->
  zfill 5 d = replicate (5 - length d) 48%N ++ d /\
  length (zfill 5 d) = 5%nat /\
  forallb ascii_digit (zfill 5 d) = true /\
  digits_value (zfill 5 d) = digits_value d.
Proof.
  intros Hne Hd Hlen. destruct d as [|c d]; [congruence|].
  assert (Hc : isdecimal c = true).
  { cbn [forallb] in Hd. apply andb_true_iff in Hd as [Hc _].
    apply ascii_digit_decimal, Hc. }
  rewrite (zfill_digits 5 c d Hc). split; [reflexivity|]. split; [|split].
  - rewrite length_app, length_replicate. lia.
  - rewrite forallb_app, Hd, andb_true_r.
    apply forallb_forall. intros x Hx. apply list_elem_of_In in Hx.
    apply elem_of_replicate in Hx as [-> _]. reflexivity.
  - apply digits_value_zeros.
Qed.

Lemma sorter_key lower prefix c d rest :
  Forall (fun c => isspace c = false) (prefix ++ (c :: d) ++ rest) ->
  lower (prefix ++ (c :: d) ++ rest) = prefix ++ (c :: d) ++ rest ->
  ends_plain prefix -> starts_plain rest ->
  forallb ascii_digit (c :: d) = true ->
  file_name_sorter lower (prefix ++ (c :: d) ++ rest)
  = sub_with DIGITS (zfill 5) prefix ++ zfill 5 (c :: d)
    ++ sub_with DIGITS (zfill 5) rest.
Proof.
  intros Hws Hlow Hp Hr Hd. unfold file_name_sorter. cbv zeta.
  rewrite sub_whitespace_filter, filter_all.
  2:{ eapply Forall_impl; [exact Hws|]. intros x Hx. cbv beta.
      rewrite Hx. reflexivity. }
  rewrite Hlow, (pad_app_bounded (length prefix)) by first [lia | exact Hp].
  f_equal. cbn [app]. apply pad_digits; [|exact Hr].
  apply Forall_forall. intros x Hx. apply ascii_digit_decimal.
  rewrite forallb_forall in Hd. apply Hd, list_elem_of_In, Hx.
Qed.

(** X20. Numbers sort by their value: take two file names without
    whitespace that the lower-casing leaves as they are, which have the
    same text in front of a number of one to five digits [0] to [9], the
    text not ending and the rest not beginning with a decimal digit.
    When the number of the first name is the smaller one, the key of the
    first name is less than the key of the second in the order of
    strings, whatever follows the numbers. *)
Theorem X20_numbers_sort_by_value (lower : pystr -> pystr)
    (prefix digits1 digits2 rest1 rest2 : pystr) :
  let name1 := prefix ++ digits1 ++ rest1 in
  let name2 := prefix ++ digits2 ++ rest2 in
  Forall (fun c => isspace c = false) name1 ->
  Forall (fun c => isspace c = false) name2 ->
  lower name1 = name1 -> lower name2 = name2 ->
  ends_plain prefix -> starts_plain rest1 -> starts_plain rest2 ->
  digits1 <> [] ->
  forallb ascii_digit digits1 = true -> forallb ascii_digit digits2 = true ->
  (length digits1 <= 5)%nat -> (length digits2 <= 5)%nat ->
  (digits_value digits1 < digits_value digits2)%N ->
  str_lt (file_name_sorter lower name1) (file_name_sorter lower name2) = true.
Proof.
  intros name1 name2 Hws1 Hws2 Hlow1 Hlow2 Hp Hr1 Hr2 Hne1 Hd1 Hd2 Hl1 Hl2 Hlt.
  assert (Hne2 : digits2 <> []).
  { intros ->. revert Hlt. apply N.nlt_0_r. }
  destruct (zfill_ascii_digits digits1 Hne1 Hd1 Hl1) as (_ & Hz1 & Hzd1 & Hv1).
  destruct (zfill_ascii_digits digits2 Hne2 Hd2 Hl2) as (_ & Hz2 & Hzd2 & Hv2).
  unfold name1, name2.
  destruct digits1 as [|c1 d1]; [congruence|].
  destruct digits2 as [|c2 d2]; [congruence|].
  rewrite !sorter_key by assumption.
  rewrite str_lt_app_same. apply str_lt_app_longer; [congruence|].
  apply str_lt_digits; [congruence | assumption | assumption|].
  rewrite Hv1, Hv2. exact Hlt.
Qed.

Lemma X20_numbers_sort_by_value_witness :
  str_lt (file_name_sorter ascii_lower (lit "ep2.mkv"))
    (file_name_sorter ascii_lower (lit "ep10.mkv")) = true /\
  str_lt (lit "ep2.mkv") (lit "ep10.mkv") = false.
Proof.
  split; [|reflexivity].
  apply (X20_numbers_sort_by_value ascii_lower (lit "ep") (lit "2") (lit "10")
           (lit ".mkv") (lit ".mkv"));
    try reflexivity; try (repeat constructor);
    try (intros c H; injection H as <-; reflexivity);
    try discriminate.
Defined.

(** ** Synchronisation *)

Lemma split_on_go_no_sep sep cur s :
  Forall (fun c => c <> sep) cur ->
  Forall (Forall (fun c => c <> sep)) (split_on_go sep cur s).
Proof.
  revert cur. induction s as [|c s IH]; intros cur Hcur; cbn [split_on_go].
  - constructor; [|constructor]. apply Forall_forall. intros x Hx.
    rewrite Forall_forall in Hcur. apply Hcur.
    apply list_elem_of_In. apply list_elem_of_In, in_rev in Hx. exact Hx.
  - destruct (N.eqb_spec c sep) as [->|Hne].
    + constructor; [|apply IH; constructor].
      apply Forall_forall. intros x Hx.
      rewrite Forall_forall in Hcur. apply Hcur.
      apply list_elem_of_In. apply list_elem_of_In, in_rev in Hx. exact Hx.
    + apply IH. constructor; assumption.
Qed.

Lemma split_on_go_plain sep cur s :
  Forall (fun c => c <> sep) s -> split_on_go sep cur s = [rev cur ++ s].
Proof.
  revert cur. induction s as [|c s IH]; intros cur Hs; cbn [split_on_go].
  - rewrite app_nil_r. reflexivity.
  - inversion Hs as [|? ? Hc Hs']; subst.
    destruct (N.eqb_spec c sep) as [->|_]; [congruence|].
    rewrite IH by exact Hs'. cbn [rev]. rewrite <- app_assoc. reflexivity.
Qed.

Lemma path_parts_no_slash s :
  Forall (Forall (fun c => c <> 47%N)) (path_parts (Path s)).
Proof.
  unfold Path. cbn [path_parts]. apply Forall_forall. intros x Hx.
  apply elem_of_filter_bool in Hx as [Hx _].
  pose proof (split_on_go_no_sep 47 [] s (Forall_nil_2 _)) as H.
  rewrite Forall_forall in H. apply H, Hx.
Qed.

Lemma path_name_no_slash s : Forall (fun c => c <> 47%N) (path_name (Path s)).
Proof.
  unfold path_name. destruct (last (path_parts (Path s))) as [x|] eqn:E;
    [|constructor].
  apply last_Some_elem_of in E.
  pose proof (path_parts_no_slash s) as H. rewrite Forall_forall in H.
  apply H, E.
Qed.

Lemma path_stem_no_slash s : Forall (fun c => c <> 47%N) (path_stem (Path s)).
Proof.
  unfold path_stem. cbv zeta. pose proof (path_name_no_slash s) as H.
  destruct (last_dot _); [|exact H].
  destruct (_ && _); [apply Forall_take, H | exact H].
Qed.

Lemma path_suffix_no_slash s :
  Forall (fun c => c <> 47%N) (path_suffix (Path s)).
Proof.
  unfold path_suffix. cbv zeta. pose proof (path_name_no_slash s) as H.
  destruct (last_dot _); [|constructor].
  destruct (_ && _); [apply Forall_drop, H | constructor].
Qed.

Lemma Path_plain name :
  Forall (fun c => c <> 47%N) name ->
  Path name
  = {| path_root := [];
       path_parts :=
         if bool_decide (name = []) || bool_decide (name = lit ".")
         then [] else [name] |}.
Proof.
  intros H. unfold Path. f_equal.
  - destruct name as [|c name]; [reflexivity|].
    inversion H; subst. rewrite startswith_slash_cons by assumption.
    reflexivity.
  - unfold split_on. rewrite (split_on_go_plain 47 [] name H).
    cbn [rev app List.filter]. destruct (_ || _); reflexivity.
Qed.

Lemma join_snoc sep ps x :
  ps <> [] -> join sep (ps ++ [x]) = join sep ps ++ sep ++ x.
Proof.
  induction ps as [|p ps IH]; intros Hne; [congruence|].
  destruct ps as [|q ps].
  - reflexivity.
  - cbn [app join] in *. rewrite IH by discriminate.
    rewrite <- !app_assoc. reflexivity.
Qed.

Lemma path_str_parts r ps : ps <> [] -> path_str (mkPath r ps) = r ++ join (lit "/") ps.
Proof.
  intros Hne. unfold path_str. cbn [path_root path_parts].
  destruct r; [|reflexivity]. destruct ps; [congruence | reflexivity].
Qed.

(** An output of the synchronisation lies in the output directory. *)
Lemma truediv_beneath output_dir name :
  path_parts (Path output_dir) <> [] ->
  Forall (fun c => c <> 47%N) name ->
  beneath (path_str (Path output_dir))
    (path_str (truediv (Path output_dir) name)) = true.
Proof.
  intros Hne Hname. unfold truediv. cbv zeta.
  rewrite (Path_plain name Hname). cbn [path_root path_parts].
  destruct (Path output_dir) as [r ps] eqn:E. cbn [path_root path_parts] in *.
  destruct (_ || _).
  - rewrite app_nil_r. apply beneath_self.
  - rewrite !path_str_parts by first [exact Hne | intros H; destruct ps; discriminate H].
    rewrite join_snoc by exact Hne.
    rewrite app_assoc. apply beneath_staged.
Qed.

Lemma outside_same_mkdir_exist_ok path :
  always (outside_same (path_str path)) (mkdir_exist_ok path).
Proof.
  intros w r w' H. unfold mkdir_exist_ok in H.
  destruct (fs w !! path_str path) as [[|?]|]; injection H as _ <-;
    first [apply outside_same_refl
          | eapply outside_same_insert; [apply beneath_self | reflexivity]].
Qed.

Section SyncFrame.
Variable alass :
  gmap pystr node -> pystr -> pystr -> pystr -> (SSAFile * pystr) + pystr.

Lemma outside_same_alass_command d reference_subtitle target_subtitle
    output_path :
  beneath d output_path = true ->
  always (outside_same d)
    (alass_command alass reference_subtitle target_subtitle output_path).
Proof.
  intros Hb w r w' H. unfold alass_command in H.
  destruct (alass _ _ _ _) as [[doc output]|e]; injection H as _ <-.
  - eapply outside_same_insert; [exact Hb | reflexivity].
  - apply outside_same_refl.
Qed.

Lemma sync_subtitles_frame reference_subtitles target_subtitles output_dir :
  path_parts (Path output_dir) <> [] ->
  always (outside_same (path_str (Path output_dir)))
    (sync_subtitles alass reference_subtitles target_subtitles output_dir).
Proof.
  intros Hne. unfold sync_subtitles, sync_subtitle, run_command.
  always_tac (outside_same_refl (path_str (Path output_dir)))
             (outside_same_trans (path_str (Path output_dir)))
             ltac:(first
                     [ outside_leaf
                     | apply outside_same_mkdir_exist_ok
                     | apply outside_same_alass_command;
                       apply truediv_beneath; [exact Hne|];
                       apply Forall_app; split;
                       [apply path_stem_no_slash | apply path_suffix_no_slash] ]).
Qed.

End SyncFrame.

(** X21. The synchronisation writes only into the output directory: when
    the output directory has at least one component, so is not the root,
    a run of [sync_subtitles], whether it returns or ends the program,
    leaves every path that is not the output directory in the spelling
    of [pathlib] and not beneath it as it was. *)
Theorem X21_sync_touches_only_output_directory alass reference_subtitles
    target_subtitles output_dir w r w' :
  path_parts (Path output_dir) <> [] ->
  sync_subtitles alass reference_subtitles target_subtitles output_dir w
  = (r, w') ->
  forall path,
    beneath (path_str (Path output_dir)) path = false ->
    fs w' !! path = fs w !! path.
Proof.
  intros Hne H. exact (sync_subtitles_frame alass _ _ _ Hne _ _ _ H).
Qed.

Lemma X21_sync_touches_only_output_directory_witness :
  let run :=
    sync_subtitles (fun _ _ _ _ => inl ([dialogue (lit "Hello there")],
                                        lit "shifted block 1"))
      [lit "/tmp/a/ep1.ass"] [lit "/tmp/b/ep1.srt"] (lit "/videos")
      sighs_world in
  fs run.2 !! lit "/subs/ep1.ass" = fs sighs_world !! lit "/subs/ep1.ass" /\
  fs run.2 !! lit "/videos/ep1.srt" = Some (File [dialogue (lit "Hello there")]).
Proof.
  intros run. split; [|reflexivity].
  apply (X21_sync_touches_only_output_directory
           (fun _ _ _ _ => inl ([dialogue (lit "Hello there")],
                                lit "shifted block 1"))
           [lit "/tmp/a/ep1.ass"] [lit "/tmp/b/ep1.srt"] (lit "/videos")
           sighs_world run.1 run.2).
  - discriminate.
  - apply surjective_pairing.
  - reflexivity.
Defined.

Lemma split_on_go_app sep cur a b :
  split_on_go sep cur (a ++ sep :: b)
  = split_on_go sep cur a ++ split_on_go sep [] b.
Proof.
  revert cur. induction a as [|c a IH]; intros cur; cbn [app split_on_go].
  - rewrite N.eqb_refl. reflexivity.
  - destruct (c =? sep)%N; [cbn [app]; f_equal|]; apply IH.
Qed.

Lemma path_name_staged d name :
  Forall (fun c => c <> 47%N) name -> name <> [] -> name <> lit "." ->
  path_name (Path (d ++ lit "/" ++ name)) = name.
Proof.
  intros Hs Hne Hdot. unfold path_name, Path. cbn [path_parts].
  unfold split_on. change (lit "/" ++ name) with (47%N :: name).
  rewrite split_on_go_app, (split_on_go_plain 47 [] name Hs).
  cbn [rev app]. rewrite List.filter_app. cbn [List.filter].
  rewrite (bool_decide_eq_false_2 (name = [])) by exact Hne.
  rewrite (bool_decide_eq_false_2 (name = lit ".")) by exact Hdot.
  cbn [orb negb]. rewrite last_snoc. reflexivity.
Qed.

Lemma last_dot_ext stem ext :
  Forall (fun c => c <> 46%N) ext ->
  last_dot (stem ++ lit "." ++ ext) = Some (length stem).
Proof.
  intros Hext. induction stem as [|c stem IH].
  - change ([] ++ lit "." ++ ext) with (46%N :: ext). cbn [last_dot length].
    assert (Hnone : last_dot ext = None).
    { induction Hext as [|x ext Hx _ IHe]; [reflexivity|].
      cbn [last_dot]. rewrite IHe.
      destruct (N.eqb_spec x 46); [contradiction | reflexivity]. }
    rewrite Hnone. reflexivity.
  - cbn [app last_dot length]. rewrite IH. reflexivity.
Qed.

(** X22. The name of a synchronised subtitle: for a reference file that
    the style filter has saved as [<directory>/<stem>.ass], where the
    stem, the name of the extracted file without its last extension, is
    neither empty nor a single dot, and for an output directory that is
    not the root, the output path that [sync_subtitles] makes up is
    [<output directory>/<stem><extension of the target>]: the stem
    survives the second cut of the extension. *)
Theorem X22_synced_file_name (d output_dir subtitle_file target : pystr) :
  let stem := splitext_root (basename subtitle_file) in
  let cleaned_path := d ++ lit "/" ++ stem ++ lit ".ass" in
  let output_filename :=
    path_stem (Path cleaned_path) ++ path_suffix (Path target) in
  stem <> [] -> stem <> lit "." ->
  path_parts (Path output_dir) <> [] ->
  path_str (truediv (Path output_dir) output_filename)
  = path_str (Path output_dir) ++ lit "/" ++ stem
    ++ path_suffix (Path target).
Proof.
  intros stem cleaned_path output_filename Hne Hdot Hdir.
  assert (Hstem : Forall (fun c => c <> 47%N) stem).
  { apply splitext_root_no_slash, basename_no_slash. }
  assert (Hname : path_name (Path cleaned_path) = stem ++ lit ".ass").
  { apply path_name_staged.
    - apply Forall_app. split; [exact Hstem|]. repeat constructor; discriminate.
    - destruct stem; discriminate.
    - intros H. apply (f_equal length) in H. rewrite length_app in H.
      simpl in H. lia. }
  assert (Hcut : path_stem (Path cleaned_path) = stem).
  { unfold path_stem. cbv zeta. rewrite Hname.
    change (lit ".ass") with (lit "." ++ lit "ass").
    rewrite (last_dot_ext stem (lit "ass"))
      by (repeat constructor; discriminate).
    rewrite length_app.
    destruct (Nat.ltb_spec 0 (length stem)) as [_|H0];
      [|destruct stem; [congruence | simpl in H0; lia]].
    destruct (Nat.ltb_spec (length stem)
                (length stem + length (lit "." ++ lit "ass") - 1))
      as [_|H1]; [|simpl in H1; lia].
    cbn [andb]. apply take_app_length. }
  unfold output_filename. rewrite Hcut.
  set (name := stem ++ path_suffix (Path target)).
  assert (Hplain : Forall (fun c => c <> 47%N) name).
  { apply Forall_app. split; [exact Hstem | apply path_suffix_no_slash]. }
  unfold truediv. cbv zeta. rewrite (Path_plain name Hplain).
  cbn [path_root path_parts].
  rewrite (bool_decide_eq_false_2 (name = [])).
  2:{ unfold name. destruct stem; [congruence | discriminate]. }
  rewrite (bool_decide_eq_false_2 (name = lit ".")).
  2:{ unfold name. intros H. destruct stem as [|c [|c' t]]; [congruence| |].
      - injection H as -> _. apply Hdot. reflexivity.
      - discriminate H. }
  cbn [orb]. destruct (Path output_dir) as [r ps]. cbn [path_root path_parts] in *.
  rewrite !path_str_parts by first [exact Hdir | intros H; destruct ps; discriminate H].
  rewrite join_snoc by exact Hdir.
  unfold name. rewrite <- !app_assoc. reflexivity.
Qed.

Lemma X22_synced_file_name_witness :
  path_str
    (truediv (Path (lit "/videos"))
       (path_stem (Path (lit "/tmp/cleaned_subtitles_1/Ep 01.ass"))
          ++ path_suffix (Path (lit "/tmp/cleaned_subs_2/sub.ja.srt"))))
  = lit "/videos/Ep 01.srt".
Proof.
  apply (X22_synced_file_name (lit "/tmp/cleaned_subtitles_1") (lit "/videos")
           (lit "/tmp/subtitle_extraction0/Ep 01.ass")
           (lit "/tmp/cleaned_subs_2/sub.ja.srt")); discriminate.
Defined.

(** ** The whole program *)

Lemma insert_by_key_length key x l :
  length (insert_by_key key x l) = S (length l).
Proof.
  induction l as [|y l IH]; simpl; [reflexivity|].
  destruct (str_lt _ _); simpl; [rewrite IH|]; reflexivity.
Qed.

Lemma sorted_by_key_length key l : length (sorted_by_key key l) = length l.
Proof.
  induction l as [|x l IH]; simpl; [reflexivity|].
  rewrite insert_by_key_length, IH. reflexivity.
Qed.

(** X23. The count check of [main]: when the number of [.mkv] files is
    neither the number of [.srt] files nor the number of [.srt] and
    [.ass] files together, [main] raises the [ValueError] that names the
    number of videos and the number of [.srt] and [.ass] files, and has
    done nothing before: the world is as it was. *)
Theorem X23_main_count_mismatch order lower getcwd glob ffprobe mkvextract
    alass w :
  let mkv := glob (path_join getcwd (lit "*.mkv")) in
  let srt := glob (path_join getcwd (lit "*.srt")) in
  let ass := glob (path_join getcwd (lit "*.ass")) in
  length mkv <> length srt ->
  length mkv <> (length srt + length ass)%nat ->
  main order lower getcwd glob ffprobe mkvextract alass w
  = (Raise (ValueError ("Number of video files (" ++ str_of_len mkv
                          ++ ") and subtitle files ("
                          ++ str_of_len (srt ++ ass)
                          ++ ") do not match.")), w).
Proof.
  intros mkv srt ass H1 H2. unfold main. cbv zeta.
  fold mkv srt ass. rewrite !sorted_by_key_length.
  destruct (Nat.eqb_spec (length mkv) (length srt)) as [E|_]; [contradiction|].
  cbn [negb]. rewrite sorted_by_key_length, length_app.
  destruct (Nat.eqb_spec (length mkv) (length srt + length ass)) as [E|_];
    [contradiction|].
  cbn [negb]. unfold str_of_len.
  rewrite !sorted_by_key_length. reflexivity.
Qed.

Lemma X23_main_count_mismatch_witness :
  exists msg,
    main listed_order ascii_lower (lit "/videos")
      (fun pattern =>
         if bool_decide (pattern = lit "/videos/*.mkv")
         then [lit "/videos/ep1.mkv"] else [])
      (fun _ => inl (Some [jpn_ass])) (fun _ _ => inl [])
      (fun _ _ _ _ => inr []) videos_world
    = (Raise (ValueError msg), videos_world).
Proof.
  eexists.
  apply (X23_main_count_mismatch listed_order ascii_lower (lit "/videos")
           (fun pattern =>
              if bool_decide (pattern = lit "/videos/*.mkv")
              then [lit "/videos/ep1.mkv"] else [])); discriminate.
Defined.

Lemma rmtree_inv_ok d w w' :
  rmtree d w = (Ok tt, w') ->
  forall path,
    fs w' !! path = if beneath d path then None else fs w !! path.
Proof.
  intros H path.
  assert (Hd : has_dir d w).
  { unfold rmtree in H. unfold has_dir.
    destruct (fs w !! d) as [[|?]|]; [reflexivity | discriminate | discriminate]. }
  destruct (rmtree_twice d w Hd) as (w2 & Hrun & Hgone & Hrest & _).
  rewrite Hrun in H. injection H as <-.
  destruct (beneath d path) eqn:E; [apply Hgone | apply Hrest]; exact E.
Qed.

Lemma beneath_staging_path prefix w path :
  prefix ∈ [lit "subtitle_extraction"; lit "cleaned_subtitles_";
            lit "cleaned_subs_"] ->
  beneath (staging prefix w) path = true -> is_staging_path path = true.
Proof.
  intros Hin Hb. unfold is_staging_path. apply existsb_exists.
  exists prefix. split; [apply list_elem_of_In, Hin|].
  apply startswith_spec. unfold beneath in Hb.
  apply orb_true_iff in Hb as [Hb|Hb].
  - apply bool_decide_eq_true in Hb. subst path. unfold staging.
    eexists. rewrite <- app_assoc. reflexivity.
  - apply startswith_spec in Hb as [rest ->]. unfold staging.
    eexists. rewrite <- !app_assoc. reflexivity.
Qed.

Section StageCleanup.
Variable mkvextract : pystr -> Z -> SSAFile + pystr.

Lemma extract_subtitles_cleanup_is video_file_paths subtitle_codecs
    selected_stream_indices w paths cleanup w1 :
  extract_subtitles mkvextract video_file_paths subtitle_codecs
    selected_stream_indices w = (Ok (paths, cleanup), w1) ->
  cleanup = rmtree (staging (lit "subtitle_extraction") w).
Proof.
  intros H. unfold extract_subtitles in H.
  destruct (negb _); [discriminate|].
  inv_bind H. apply mkdtemp_inv_ok in H0 as (-> & _).
  inv_bind H. injection H as _ <- _. reflexivity.
Qed.

End StageCleanup.

Lemma clean_tags_cleanup_is subtitle_list w paths cleanup w1 :
  clean_tags subtitle_list w = (Ok (paths, cleanup), w1) ->
  cleanup = rmtree (staging (lit "cleaned_subtitles_") w).
Proof.
  intros H. apply clean_tags_inv_ok in H as (d & w0 & Hd & H).
  apply mkdtemp_inv_ok in Hd as (-> & _).
  unfold clean_tags_body in H.
  inv_bind H. destruct a as [sorted_styles styles_examples].
  inv_bind H. inv_bind H. injection H as _ <- _. reflexivity.
Qed.

Lemma clean_up_japanese_subs_cleanup_is subtitle_files w paths cleanup w1 :
  clean_up_japanese_subs subtitle_files w = (Ok (paths, cleanup), w1) ->
  cleanup = rmtree (staging (lit "cleaned_subs_") w).
Proof.
  intros H. unfold clean_up_japanese_subs in H.
  inv_bind H. apply mkdtemp_inv_ok in H0 as (-> & _).
  do 7 inv_bind H. injection H as _ <- _. reflexivity.
Qed.

Lemma fs_same_get_subtitle_stream_indices order all_files_streams :
  always fs_same (get_subtitle_stream_indices order all_files_streams).
Proof.
  unfold get_subtitle_stream_indices, prompt_stream_selection.
  always_tac fs_same_refl fs_same_trans fs_same_leaf.
Qed.

Lemma fs_same_extract_subtitle_streams_from_files ffprobe file_paths :
  always fs_same (extract_subtitle_streams_from_files ffprobe file_paths).
Proof.
  unfold extract_subtitle_streams_from_files,
    extract_subtitle_streams_from_file, run_command.
  always_tac fs_same_refl fs_same_trans fs_same_leaf.
Qed.

(** X24. A run of the program that returns leaves no staging directory
    behind and touches nothing outside the current directory: when
    [main] returns, started in a current directory that is not the root
    and with no staging path of an earlier run in the file system, every
    path that is not the current directory and not beneath it holds what
    it held before; so, when no staging path lies in the current
    directory, there is again no staging path in the file system. *)
Theorem X24_successful_run_cleans_up order lower getcwd glob ffprobe
    mkvextract alass w w' :
  main order lower getcwd glob ffprobe mkvextract alass w = (Ok tt, w') ->
  tmp_clean w ->
  path_parts (Path getcwd) <> [] ->
  (forall path,
     beneath (path_str (Path getcwd)) path = false ->
     fs w' !! path = fs w !! path) /\
  ((forall path,
      is_staging_path path = true ->
      beneath (path_str (Path getcwd)) path = false) ->
   tmp_clean w').
Proof.
  intros H Hclean Hcwd.
  assert (Hout : forall path,
            beneath (path_str (Path getcwd)) path = false ->
            fs w' !! path = fs w !! path).
  { unfold main in H. cbv zeta in H.
    match type of H with
    | (if ?b then _ else _) _ = _ => destruct b; [discriminate|]
    end.
    inv_bind H. rename a into streams.
    inv_bind H. destruct a as [indices codecs].
    inv_bind H. destruct a as [extracted cleanup1].
    inv_bind H. destruct a as [cleaned_reference cleanup2].
    inv_bind H. destruct a as [cleaned_target cleanup3].
    inv_bind H. inv_bind H. inv_bind H.
    repeat match goal with u : () |- _ => destruct u end.
    pose proof (fs_same_extract_subtitle_streams_from_files _ _ _ _ _ H0) as F0.
    pose proof (fs_same_get_subtitle_stream_indices _ _ _ _ _ H1) as F1.
    pose proof (extract_subtitles_frame _ _ _ _ _ _ _ H2) as F2.
    pose proof (clean_tags_frame _ _ _ _ H3) as F3.
    pose proof (clean_up_japanese_subs_frame _ _ _ _ H4) as F4.
    pose proof (sync_subtitles_frame alass _ _ _ Hcwd _ _ _ H5) as F5.
    apply extract_subtitles_cleanup_is in H2.
    apply clean_tags_cleanup_is in H3.
    apply clean_up_japanese_subs_cleanup_is in H4. subst.
    pose proof (rmtree_inv_ok _ _ _ H6) as R1.
    pose proof (rmtree_inv_ok _ _ _ H7) as R2.
    pose proof (rmtree_inv_ok _ _ _ H) as R3.
    intros path Hpath. unfold fs_same in F0, F1.
    rewrite R3, R2, R1.
    assert (Hstaging : forall prefix wk,
              prefix ∈ [lit "subtitle_extraction"; lit "cleaned_subtitles_";
                        lit "cleaned_subs_"] ->
              beneath (staging prefix wk) path = true ->
              fs w !! path = None).
    { intros prefix wk Hin Hb. apply Hclean.
      eapply beneath_staging_path; eauto. }
    repeat match goal with
           | |- context [if beneath (staging ?p ?wk) path then _ else _] =>
               let E := fresh "E" in
               destruct (beneath (staging p wk) path) eqn:E;
               [symmetry; apply (Hstaging p wk);
                [repeat first [left | right] | exact E]|]
           end.
    rewrite (F5 path Hpath), (F4 path), (F3 path), (F2 path) by assumption.
    congruence. }
  split; [exact Hout|].
  intros Hin path Hp. rewrite (Hout path (Hin path Hp)). apply Hclean, Hp.
Qed.

Lemma X24_successful_run_cleans_up_witness :
  exists w',
    main listed_order ascii_lower (lit "/videos") videos_glob
      (fun _ => inl (Some [jpn_ass]))
      (fun _ _ => inl [dialogue (lit "Hello there")])
      (fun _ _ _ _ => inl ([dialogue (lit "Hello there")],
                           lit "shifted block 1"))
      videos_world
    = (Ok tt, w') /\
    tmp_clean w'.
Proof.
  destruct (main listed_order ascii_lower (lit "/videos") videos_glob
              (fun _ => inl (Some [jpn_ass]))
              (fun _ _ => inl [dialogue (lit "Hello there")])
              (fun _ _ _ _ => inl ([dialogue (lit "Hello there")],
                                   lit "shifted block 1"))
              videos_world) as [[[]|e] w'] eqn:E.
  - exists w'. split; [reflexivity|].
    eapply X24_successful_run_cleans_up; [exact E | | discriminate |].
    + intros path Hp. unfold videos_world. cbn [fs].
      apply lookup_insert_None. split; [apply lookup_empty|].
      intros <-. discriminate Hp.
    + intros path Hp. unfold is_staging_path in Hp.
      apply existsb_exists in Hp as (prefix & Hin & Hp).
      apply startswith_spec in Hp as [rest ->].
      simpl in Hin. destruct Hin as [<-|[<-|[<-|[]]]]; reflexivity.
  - vm_compute in E. discriminate E.
Defined.

(** *** A run that fails *)






Section FailedRun.
Variable alass :
  gmap pystr node -> pystr -> pystr -> pystr -> (SSAFile * pystr) + pystr.
Variable mkvextract : pystr -> Z -> SSAFile + pystr.




End FailedRun.









(** ** Probing the videos *)

Section Probing.
Variable ffprobe : pystr -> option (list ProbeStream) + pystr.

Lemma probe_run file_path streams w :
  ffprobe file_path = inl (Some streams) ->
  extract_subtitle_streams_from_file ffprobe file_path w = (Ok streams, w).
Proof.
  intros H. unfold extract_subtitle_streams_from_file, run_command.
  rewrite !bind_eq. cbn. rewrite H. reflexivity.
Qed.

Lemma probes_run good streams_list w :
  Forall2 (fun file_path streams => ffprobe file_path = inl (Some streams))
    good streams_list ->
  extract_subtitle_streams_from_files ffprobe good w = (Ok streams_list, w).
Proof.
  unfold extract_subtitle_streams_from_files.
  induction 1 as [|file_path streams good streams_list Hf _ IH];
    [reflexivity|].
  cbn [mapM]. erewrite bind_ok by (apply probe_run; exact Hf).
  erewrite bind_ok by exact IH. reflexivity.
Qed.

Lemma probes_stop good streams_list file_path rest w e w' :
  Forall2 (fun file_path streams => ffprobe file_path = inl (Some streams))
    good streams_list ->
  extract_subtitle_streams_from_file ffprobe file_path w = (Raise e, w') ->
  extract_subtitle_streams_from_files ffprobe (good ++ file_path :: rest) w
  = (Raise e, w').
Proof.
  intros Hgood Hf. unfold extract_subtitle_streams_from_files.
  induction Hgood as [|g streams good streams_list Hg _ IH]; cbn [app mapM].
  - erewrite bind_raise by exact Hf. reflexivity.
  - erewrite bind_ok by (apply probe_run; exact Hg).
    erewrite bind_raise by exact IH. reflexivity.
Qed.

(** X26. Probing the videos: when the probe gives a list of streams for
    every file, the lists are returned in the order of the files and the
    world is as it was. At the first file for which the probe fails, or
    prints nothing, the program ends with status 1: the files after it
    are not probed, and the one thing done is one message, the error on
    the standard output in the first case, the name of the file on the
    error stream in the second. *)
Theorem X26_probing_stops_at_first_failure good streams_list file_path rest w :
  Forall2 (fun file_path streams => ffprobe file_path = inl (Some streams))
    good streams_list ->
  extract_subtitle_streams_from_files ffprobe good w = (Ok streams_list, w) /\
  (forall e,
     ffprobe file_path = inr e ->
     extract_subtitle_streams_from_files ffprobe (good ++ file_path :: rest) w
     = (Raise (SystemExit 1),
        set_stdout (stdout w ++ [lit "An error occurred: " ++ e ++ [NL]]) w)) /\
  (ffprobe file_path = inl None ->
   extract_subtitle_streams_from_files ffprobe (good ++ file_path :: rest) w
   = (Raise (SystemExit 1),
      set_stderr
        (stderr w
           ++ [lit "Error: Failed to extract subtitle streams from file:"
                 ++ [NL; 9%N] ++ file_path ++ [NL]]) w)).
Proof.
  intros Hgood. split; [apply probes_run, Hgood|]. split.
  - intros e He. apply (probes_stop good streams_list); [exact Hgood|].
    unfold extract_subtitle_streams_from_file, run_command.
    rewrite !bind_eq. cbn. rewrite He. cbn.
    try rewrite <- !app_assoc. reflexivity.
  - intros He. apply (probes_stop good streams_list); [exact Hgood|].
    unfold extract_subtitle_streams_from_file, run_command.
    rewrite !bind_eq. cbn. rewrite He. cbn.
    try rewrite <- !app_assoc. reflexivity.
Qed.

End Probing.

Lemma X26_probing_stops_at_first_failure_witness :
  extract_subtitle_streams_from_files
    (fun file_path =>
       if bool_decide (file_path = lit "/videos/ep1.mkv")
       then inl (Some [jpn_ass]) else inl None)
    [lit "/videos/ep1.mkv"; lit "/videos/ep2.mkv"; lit "/videos/ep3.mkv"]
    videos_world
  = (Raise (SystemExit 1),
     set_stderr
       [lit "Error: Failed to extract subtitle streams from file:"
          ++ [NL; 9%N] ++ lit "/videos/ep2.mkv" ++ [NL]] videos_world).
Proof.
  apply (X26_probing_stops_at_first_failure
           (fun file_path =>
              if bool_decide (file_path = lit "/videos/ep1.mkv")
              then inl (Some [jpn_ass]) else inl None)
           [lit "/videos/ep1.mkv"] [[jpn_ass]] (lit "/videos/ep2.mkv")
           [lit "/videos/ep3.mkv"] videos_world).
  - repeat constructor.
  - reflexivity.
Defined.
